(** * xFasterTransformer: the decoding orchestrator and its parallel topology

    A shallow embedding of
    - [init] (the communicator helper: MPI world, colour, row communicator),
    - [CommonDecoder] (common_decoder.h: constructor, [getDecoderContext],
      [forward], [prepareBuffers], [reorderCache], [setPrefix], ...),
    with the numeric kernels, the messenger and MPI as logged external calls.

    C [int] values are integers of [Z] whose arithmetic wraps to 32 bits
    (module [Int]); pointers into the activation buffer are element offsets
    from [actBuffers->Data()]. *)

From Stdlib Require Import ZArith Lia List Bool String.
From stdpp Require Import base tactics option list list_numbers.

Local Open Scope Z_scope.

(** ** 32-bit signed [int] *)

Module Int.

Definition min_signed : Z := -2147483648.
Definition max_signed : Z := 2147483647.
Definition modulus : Z := 4294967296.

Definition in_range (z : Z) : Prop := min_signed <= z <= max_signed.

(** Two's-complement wrap-around of a mathematical result. *)
Definition wrap (z : Z) : Z := (z - min_signed) mod modulus + min_signed.

Definition add (a b : Z) : Z := wrap (a + b).
Definition sub (a b : Z) : Z := wrap (a - b).
Definition mul (a b : Z) : Z := wrap (a * b).

(** [a / b] and [a % b] truncate towards zero; a zero divisor, and
    [INT_MIN / -1], trap. *)
Definition div (a b : Z) : option Z :=
  if (b =? 0) || ((a =? min_signed) && (b =? -1)) then None else Some (a ÷ b).
Definition rem (a b : Z) : option Z :=
  if (b =? 0) || ((a =? min_signed) && (b =? -1)) then None else Some (Z.rem a b).

(** [int x = e] with [e] an [int64_t] or a [bool]. *)
Definition of_int64 (z : Z) : Z := wrap z.
Definition of_bool (b : bool) : Z := if b then 1 else 0.

End Int.

(** ** [init]: world communicator, pipeline colour, row communicator *)

Module Comm.

(** [MPI_Comm_split(MPI_COMM_WORLD, color, key = world_rank, &row_comm)],
    seen from the process whose colour is [color]: the new communicator
    holds the world ranks that passed the same colour, ordered by key.
    [colors r] is the colour rank [r] passes; the keys are the world ranks,
    so the members come in increasing world rank. *)
Definition MPI_Comm_split (world_size : Z) (colors : Z -> Z) (color : Z) : list Z :=
  filter (fun r => colors r = color) (seqZ 0 world_size).

(** [MPI_Comm_rank(row_comm, &row_rank)]: the position of [me] in the group. *)
Fixpoint MPI_Comm_rank (group : list Z) (me : Z) : Z :=
  match group with
  | [] => 0
  | r :: rest => if r =? me then 0 else 1 + MPI_Comm_rank rest me
  end.

Definition MPI_Comm_size (group : list Z) : Z := Z.of_nat (length group).

(** What [init] leaves in its three in/out arguments, with the row
    communicator it built ([pcomm] has its size and rank). *)
Record init_out := InitOut {
  world_size : Z;          (* *world_size on return: pcomm->size() *)
  world_rank : Z;          (* *world_rank on return: pcomm->rank() *)
  world_color : Z;         (* *world_color on return *)
  row_comm : list Z        (* members of row_comm, as world ranks *)
}.

(** [init(&world_size, &world_rank, &world_color)] on the process of world
    rank [R] among [W] processes; [*world_color] holds the number of
    pipeline stages [P] on entry (every process passes the same [P]).
    [None] is the trap of an integer division. *)
Definition init (W R P : Z) : option init_out :=
  tp_num ← Int.div W P;
  color ← Int.div R tp_num;
  let colors := fun r => default 0 (Int.div r tp_num) in
  let row := MPI_Comm_split W colors color in
  let row_size := MPI_Comm_size row in
  let row_rank := MPI_Comm_rank row R in
  Some (InitOut row_size row_rank color row).

End Comm.


(** ** Arrays and pointers *)

(** A C array reached through a pointer: element index to value. *)
Definition IntArray : Type := Z -> Z.

(** [memcpy(dst + d, src + s, n * sizeof(T))] for arrays that do not overlap
    on the copied range; [n <= 0] copies nothing. *)
Definition memcpy {T : Type} (dst : Z -> T) (d : Z) (src : Z -> T) (s : Z) (n : Z)
  : Z -> T :=
  fun a => if (d <=? a) && (a <? d + n) then src (s + (a - d)) else dst a.

(** Pointers the decoder hands around: into the activation block
    ([actBuffers->Data()] is offset 0) or into the context's [tmpBuf]. *)
Inductive ptr : Type :=
| nullptr
| act_ptr (off : Z)
| tmp_ptr (off : Z).

(** ** The KV cache manager *)

Module KVCacheManager.
Section WithCell.

(** The slab [headsPerSplit][headDim] stored for one time step and one
    batch-beam row. *)
Variable cell : Type.

(** Modelled from the spec: KVCacheTensor (kvcache_manager.h is not among
    the sources): logical shape [capacity][batchBeam][headsPerSplit][headDim],
    addressed here by time step and batch-beam row. *)
Definition KVCacheTensor : Type := Z -> Z -> cell.

(** Modelled from the spec: the KVCacheManager object, one key and one value
    tensor per layer. *)
Record t : Type := Build {
  cachedKeys : Z -> KVCacheTensor;
  cachedValues : Z -> KVCacheTensor
}.

(** Modelled from the spec: the reordering of one tensor. Over the time
    steps [initSeqLen, accSeqLen) row [b] of the first [size] rows receives
    what row [idx[b]] held; every other time step and row is left as it is. *)
Definition reorder (idx : IntArray) (size initSeqLen accSeqLen : Z)
    (c : KVCacheTensor) : KVCacheTensor :=
  fun seq b =>
    if (initSeqLen <=? seq) && (seq <? accSeqLen) && (0 <=? b) && (b <? size)
    then c seq (idx b) else c seq b.

(** Modelled from the spec: KVCacheManager::reorderCache(idx, size,
    initSeqLen, accSeqLen) permutes the batch x beam dimension of every
    layer's key and value cache over the time steps [initSeqLen, accSeqLen). *)
Definition reorderCache (idx : IntArray) (size initSeqLen accSeqLen : Z) (k : t) : t :=
  Build (fun layer => reorder idx size initSeqLen accSeqLen (cachedKeys k layer))
        (fun layer => reorder idx size initSeqLen accSeqLen (cachedValues k layer)).

End WithCell.
End KVCacheManager.

Arguments KVCacheManager.cachedKeys {cell} _ _ _ _.
Arguments KVCacheManager.cachedValues {cell} _ _ _ _.
Arguments KVCacheManager.reorderCache {cell} _ _ _ _ _.
Arguments KVCacheManager.reorder {cell} _ _ _ _ _ _ _.

(** ** The decoder: state, external calls, and the monad they run in *)

(** [Messenger::getInstance()]: size, rank and colour of this process in its
    row (tensor-parallel) communicator; fixed for the process's lifetime. *)
Record Messenger : Type := {
  getSize : Z;
  getRank : Z;
  getColor : Z
}.

(** Modelled from the spec: DecoderContext (transformer_ctx.h is not among the
    sources), as far as this file reads it: the shape parameters compared by
    [getDecoderContext] and read by [prepareBuffers] and [forward], and the
    batch size and input length of the current step. *)
Record DecoderContext : Type := {
  ctx_hiddenSize : Z;
  ctx_attHeadNum : Z;
  ctx_kvHeadNum : Z;
  ctx_intermediateSize : Z;
  ctx_splitIdx : Z;
  ctx_vocabSize : Z;
  ctx_maxPositions : Z;
  ctx_attHeadSize : Z;
  ctx_batchSize : Z;
  ctx_inputSeqLen : Z
}.

(** Modelled from the spec: DecoderContext::resize(batchSize, inputSeqLen,
    preSeqLen) re-targets the context to the step's shape and keeps the
    model's shape parameters. *)
Definition DecoderContext_resize (c : DecoderContext) (batchSize inputSeqLen preSeqLen : Z)
  : DecoderContext :=
  {| ctx_hiddenSize := ctx_hiddenSize c;
     ctx_attHeadNum := ctx_attHeadNum c;
     ctx_kvHeadNum := ctx_kvHeadNum c;
     ctx_intermediateSize := ctx_intermediateSize c;
     ctx_splitIdx := ctx_splitIdx c;
     ctx_vocabSize := ctx_vocabSize c;
     ctx_maxPositions := ctx_maxPositions c;
     ctx_attHeadSize := ctx_attHeadSize c;
     ctx_batchSize := batchSize;
     ctx_inputSeqLen := inputSeqLen |}.

(** The arguments of [getDecoderContext] (the activation name, epsilon and the
    RoPE parameters are only passed on to the context's constructor). *)
Record CtxArgs : Type := {
  a_layers : Z;
  a_hiddenSize : Z;
  a_attHeadNum : Z;
  a_kvHeadNum : Z;
  a_imSize : Z;
  a_act : string;
  a_vocabSize : Z;
  a_embeddingSize : Z;
  a_maxPositions : Z;
  a_maxPosEmbed : Z;
  a_maxSeqLength : Z
}.

(** What the constructor reads from config.ini. *)
Record Config : Type := {
  head_num : Z;
  kv_head_num : Z;
  size_per_head : Z;
  inter_size : Z;
  num_layer : Z;
  vocab_size : Z;
  max_pos_seq_len : Z;
  model_max_length : Z;
  seq_length : Z;
  activation_type : string
}.

(** Calls that leave this file: kernels, the messenger, MPI, allocation of the
    collaborators' buffers, standard output. *)
Inductive Event : Type :=
| Printf (msg : string)
| NewDecoderContext (a : CtxArgs) (splitIdx splits : Z)
| NewDecoder (layerIdx : Z)
| SetDecoderWeights (layerIdx : Z)
| NewPredictor (hiddenSize vocabSize rank workers : Z)
| SetPredictorWeight
| NewKVCacheManager (layers : Z)
| CtxResize (batchSize seqLen pastSeqLen : Z)
| ActResize (rows cols : Z)
| AllocAttnMask (sizeRequired : Z)
| KVResize (maxSeqLen batchSize headsPerSplit headSize : Z) (prefix : bool)
| GetPositionIds (ids : IntArray) (batchSize seqLen step : Z)
| EmbeddingForward (ids : IntArray) (output : ptr) (batchSize seqLen : Z)
| PrepareAttnMask (ids : IntArray) (step : Z)
| MPI_Recv (buf : ptr) (count source tag : Z)
| MPI_Send (buf : ptr) (count dest tag : Z)
| ExpandPrefixCache (layerId userSideBS seqLen : Z)
| ExpandCache (layerId userSideBS beamSize seqLen : Z)
| ForwardAttention (i decoder : Z) (prefixCache : bool) (input imBuf output : ptr)
    (inputSeqLen pastSeqLen : Z) (useSelfAttn doLnBefore : bool)
| ForwardFFN (i decoder : Z) (input output : ptr) (iStride oStride : Z) (doLnBefore : bool)
| ReduceAdd (sendBuf recvBuf : ptr) (count : Z)
| LastLayerNormForward (input output : ptr) (rows : Z)
| PredictorForward (input output : ptr) (rows : Z).

Section CommonDecoder.

(** [AttnInT = MlpOutT = float]: the element of the activation block and of
    the logits, as a bit pattern. *)
Variable elt : Type.
(** What the KV cache stores for one time step and row. *)
Variable cell : Type.

(** The memory the decoder shares with its collaborators. *)
Record Heap : Type := {
  act : Z -> elt;                          (* actBuffers, from Data() *)
  kvCacheMgr : KVCacheManager.t cell
}.

(** An external call with the heap it was issued on and the heap it left. *)
Record Call : Type := {
  ev : Event;
  pre : Heap;
  post : Heap
}.

(** What an external call does to the shared memory; it may depend on every
    call made so far (weights, masks, [tmpBuf] and the like are the
    collaborators' own state). The last event of the list is the call. *)
Variable extern : list Event -> Heap -> Heap.

(** Template parameter ATTN_MLP_PARALLEL. *)
Variable ATTN_MLP_PARALLEL : bool.
(** [Env::getPipeline()]. *)
Variable Env_getPipeline : Z.
(** The constructor of DecoderContext. *)
Variable DecoderContext_new : CtxArgs -> Z -> Z -> DecoderContext.
(** [predictor->getSplitOffset()] and [predictor->getSplitSize()]. *)
Variable splitOffset : Z.
Variable splitSize : Z.

(** The fields of CommonDecoder, the shared memory and the call log. *)
Record Machine : Type := {
  messenger : Messenger;
  pp_size : Z;
  pp_rank : Z;
  tp_size : Z;
  tp_rank : Z;
  context : option DecoderContext;
  initSeqLen : Z;
  accSeqLen : Z;
  prefixSeqLen : Z;
  prefixSharing : bool;
  maskSize : Z;
  decoders : list Z;         (* the layer index each DECODER was built with *)
  heap : Heap;
  log : list Call
}.

Definition set_topology (ps pr ts tr : Z) (m : Machine) : Machine :=
  {| messenger := messenger m; pp_size := ps; pp_rank := pr; tp_size := ts; tp_rank := tr;
     context := context m; initSeqLen := initSeqLen m; accSeqLen := accSeqLen m;
     prefixSeqLen := prefixSeqLen m; prefixSharing := prefixSharing m;
     maskSize := maskSize m; decoders := decoders m; heap := heap m; log := log m |}.
Definition set_context (c : option DecoderContext) (m : Machine) : Machine :=
  {| messenger := messenger m; pp_size := pp_size m; pp_rank := pp_rank m;
     tp_size := tp_size m; tp_rank := tp_rank m;
     context := c; initSeqLen := initSeqLen m; accSeqLen := accSeqLen m;
     prefixSeqLen := prefixSeqLen m; prefixSharing := prefixSharing m;
     maskSize := maskSize m; decoders := decoders m; heap := heap m; log := log m |}.
Definition set_initSeqLen (v : Z) (m : Machine) : Machine :=
  {| messenger := messenger m; pp_size := pp_size m; pp_rank := pp_rank m;
     tp_size := tp_size m; tp_rank := tp_rank m;
     context := context m; initSeqLen := v; accSeqLen := accSeqLen m;
     prefixSeqLen := prefixSeqLen m; prefixSharing := prefixSharing m;
     maskSize := maskSize m; decoders := decoders m; heap := heap m; log := log m |}.
Definition set_accSeqLen (v : Z) (m : Machine) : Machine :=
  {| messenger := messenger m; pp_size := pp_size m; pp_rank := pp_rank m;
     tp_size := tp_size m; tp_rank := tp_rank m;
     context := context m; initSeqLen := initSeqLen m; accSeqLen := v;
     prefixSeqLen := prefixSeqLen m; prefixSharing := prefixSharing m;
     maskSize := maskSize m; decoders := decoders m; heap := heap m; log := log m |}.
Definition set_prefixSeqLen (v : Z) (m : Machine) : Machine :=
  {| messenger := messenger m; pp_size := pp_size m; pp_rank := pp_rank m;
     tp_size := tp_size m; tp_rank := tp_rank m;
     context := context m; initSeqLen := initSeqLen m; accSeqLen := accSeqLen m;
     prefixSeqLen := v; prefixSharing := prefixSharing m;
     maskSize := maskSize m; decoders := decoders m; heap := heap m; log := log m |}.
Definition set_prefixSharing (v : bool) (m : Machine) : Machine :=
  {| messenger := messenger m; pp_size := pp_size m; pp_rank := pp_rank m;
     tp_size := tp_size m; tp_rank := tp_rank m;
     context := context m; initSeqLen := initSeqLen m; accSeqLen := accSeqLen m;
     prefixSeqLen := prefixSeqLen m; prefixSharing := v;
     maskSize := maskSize m; decoders := decoders m; heap := heap m; log := log m |}.
Definition set_maskSize (v : Z) (m : Machine) : Machine :=
  {| messenger := messenger m; pp_size := pp_size m; pp_rank := pp_rank m;
     tp_size := tp_size m; tp_rank := tp_rank m;
     context := context m; initSeqLen := initSeqLen m; accSeqLen := accSeqLen m;
     prefixSeqLen := prefixSeqLen m; prefixSharing := prefixSharing m;
     maskSize := v; decoders := decoders m; heap := heap m; log := log m |}.
Definition set_decoders (v : list Z) (m : Machine) : Machine :=
  {| messenger := messenger m; pp_size := pp_size m; pp_rank := pp_rank m;
     tp_size := tp_size m; tp_rank := tp_rank m;
     context := context m; initSeqLen := initSeqLen m; accSeqLen := accSeqLen m;
     prefixSeqLen := prefixSeqLen m; prefixSharing := prefixSharing m;
     maskSize := maskSize m; decoders := v; heap := heap m; log := log m |}.
Definition set_heap (h : Heap) (m : Machine) : Machine :=
  {| messenger := messenger m; pp_size := pp_size m; pp_rank := pp_rank m;
     tp_size := tp_size m; tp_rank := tp_rank m;
     context := context m; initSeqLen := initSeqLen m; accSeqLen := accSeqLen m;
     prefixSeqLen := prefixSeqLen m; prefixSharing := prefixSharing m;
     maskSize := maskSize m; decoders := decoders m; heap := h; log := log m |}.
Definition set_log (l : list Call) (m : Machine) : Machine :=
  {| messenger := messenger m; pp_size := pp_size m; pp_rank := pp_rank m;
     tp_size := tp_size m; tp_rank := tp_rank m;
     context := context m; initSeqLen := initSeqLen m; accSeqLen := accSeqLen m;
     prefixSeqLen := prefixSeqLen m; prefixSharing := prefixSharing m;
     maskSize := maskSize m; decoders := decoders m; heap := heap m; log := l |}.

Definition set_act (f : Z -> elt) (m : Machine) : Machine :=
  set_heap {| act := f; kvCacheMgr := kvCacheMgr (heap m) |} m.
Definition set_kvCacheMgr (k : KVCacheManager.t cell) (m : Machine) : Machine :=
  set_heap {| act := act (heap m); kvCacheMgr := k |} m.

(** How a member function ends: it returns, the process exits, or the
    process traps (integer division, null or out-of-range access). *)
Inductive result (A : Type) : Type :=
| Ok (a : A) (m : Machine)
| Exit (code : Z) (m : Machine)
| Trap.
Arguments Ok {A} a m.
Arguments Exit {A} code m.
Arguments Trap {A}.

Definition M (A : Type) : Type := Machine -> result A.

#[local] Instance M_ret : MRet M := fun A a m => Ok a m.
#[local] Instance M_bind : MBind M := fun A B f c m =>
  match c m with
  | Ok a m' => f a m'
  | Exit code m' => Exit code m'
  | Trap => Trap
  end.

Definition gets {A : Type} (f : Machine -> A) : M A := fun m => Ok (f m) m.
Definition modify (f : Machine -> Machine) : M unit := fun m => Ok tt (f m).
Definition trap {A : Type} : M A := fun _ => Trap.
Definition exit {A : Type} (code : Z) : M A := fun m => Exit code m.
Definition lift {A : Type} (o : option A) : M A :=
  match o with Some a => mret a | None => trap end.

(** An external call: run it on the heap and log it. *)
Definition after_call (e : Event) (m : Machine) : Machine :=
  let h := heap m in
  let h' := extern (map ev (log m) ++ [e]) h in
  set_log (log m ++ [{| ev := e; pre := h; post := h' |}]) (set_heap h' m).

Definition call (e : Event) : M unit := fun m => Ok tt (after_call e m).

(** The machine after a run of external calls and nothing else. *)
Definition after_calls (es : list Event) (m : Machine) : Machine :=
  fold_left (fun m e => after_call e m) es m.

Fixpoint forM_ {A : Type} (l : list A) (f : A -> M unit) : M unit :=
  match l with
  | [] => mret tt
  | x :: l' => f x;; forM_ l' f
  end.

(** [getContext()] followed by a member access: a null context traps. *)
Definition getContext : M DecoderContext := fun m =>
  match context m with
  | Some c => Ok c m
  | None => Trap
  end.

(** *** getDecoderContext *)

Definition same_shape (c : DecoderContext) (a : CtxArgs) (splitIdx : Z) : bool :=
  (ctx_hiddenSize c =? a_hiddenSize a) && (ctx_attHeadNum c =? a_attHeadNum a)
  && (ctx_kvHeadNum c =? a_kvHeadNum a) && (ctx_intermediateSize c =? a_imSize a)
  && (ctx_splitIdx c =? splitIdx).

Definition getDecoderContext (a : CtxArgs) : M DecoderContext :=
  msgr ← gets messenger;
  let splits := getSize msgr in
  let splitIdx := getRank msgr in
  modify (set_topology Env_getPipeline (getColor msgr) splits splitIdx);;
  call (Printf "pp_size: %d, pp_rank: %d, tp_size: %d, tp_rank: %d\n");;
  ctx ← gets context;
  match ctx with
  | Some c =>
      if same_shape c a splitIdx then mret c
      else call (Printf "Different context size not unsupported!\n");; exit (-1)
  | None =>
      call (NewDecoderContext a splitIdx splits);;
      let c := DecoderContext_new a splitIdx splits in
      modify (set_context (Some c));;
      mret c
  end.

(** *** The constructor *)

(** The object before the constructor's body runs: default member
    initialisers, an empty [context] pointer and no decoders. *)
Definition fresh (msgr : Messenger) (h : Heap) (l : list Call) : Machine :=
  {| messenger := msgr; pp_size := 1; pp_rank := 0; tp_size := 1; tp_rank := 0;
     context := None; initSeqLen := 0; accSeqLen := 0; prefixSeqLen := 0;
     prefixSharing := false; maskSize := 0; decoders := []; heap := h; log := l |}.

(** [CommonDecoder(modelPath, modelType)], from the point where config.ini
    has been read into [cfg]. Loading the weight files
    ([setDecoderWeights], [setPredictorWeight]) is logged as one call per
    layer; the loader's own fatal paths are not followed into. *)
Definition CommonDecoder_new (cfg : Config) : M unit :=
  let attHeadNum := head_num cfg in
  let kvHeadNum := kv_head_num cfg in
  let imSize := inter_size cfg in
  let layers := num_layer cfg in
  let vocabSize := vocab_size cfg in
  let maxPosEmbed := max_pos_seq_len cfg in
  let maxPositions := model_max_length cfg in
  let maxSeqLength := seq_length cfg in
  let hiddenSize := Int.mul attHeadNum (size_per_head cfg) in
  let embeddingSize := hiddenSize in
  modify (set_initSeqLen 0);;
  modify (set_accSeqLen 0);;
  modify (set_prefixSeqLen 0);;
  modify (set_prefixSharing false);;
  modify (set_maskSize 0);;
  ctx ← getDecoderContext
    {| a_layers := layers; a_hiddenSize := hiddenSize; a_attHeadNum := attHeadNum;
       a_kvHeadNum := kvHeadNum; a_imSize := imSize; a_act := activation_type cfg;
       a_vocabSize := vocabSize; a_embeddingSize := embeddingSize;
       a_maxPositions := maxPositions; a_maxPosEmbed := maxPosEmbed;
       a_maxSeqLength := maxSeqLength |};
  pps ← gets pp_size;
  ppr ← gets pp_rank;
  r ← lift (Int.rem layers pps);
  (if negb (r =? 0)
   then call (Printf "Warning: layers cannot be evenly divided by pipeline parallel stage size(pp_size).")
   else mret tt);;
  layers_per_pp_stage ← lift (Int.div layers pps);
  let start_layer := Int.mul ppr layers_per_pp_stage in
  (* for (int i = start_layer; i < start_layer + layers_per_pp_stage; ++i) *)
  forM_ (seqZ start_layer (Int.add start_layer layers_per_pp_stage - start_layer))
    (fun i =>
       call (NewDecoder i);;
       call (SetDecoderWeights i);;
       modify (fun m => set_decoders (decoders m ++ [i]) m));;
  msgr ← gets messenger;
  call (NewPredictor hiddenSize vocabSize (getRank msgr) (getSize msgr));;
  call SetPredictorWeight;;
  call (NewKVCacheManager layers).

(** *** prepareBuffers and getAttnMask *)

Definition getAttnMask (sizeRequired : Z) : M unit :=
  ms ← gets maskSize;
  if ms <? sizeRequired
  then call (AllocAttnMask sizeRequired);; modify (set_maskSize sizeRequired)
  else mret tt.

Definition prepareBuffers (userSideBS beamSize : Z) (logitsAll prefix : bool) : M unit :=
  ctx ← getContext;
  let batchSize := ctx_batchSize ctx in
  let hiddenSize := ctx_hiddenSize ctx in
  let seqLen := ctx_inputSeqLen ctx in
  let vocabSize := ctx_vocabSize ctx in
  let maxPositions := ctx_maxPositions ctx in
  workers ← gets (fun m => getSize (messenger m));
  let logitsLen := if logitsAll then Int.mul batchSize seqLen else Int.mul userSideBS beamSize in
  let actRows := Int.mul batchSize seqLen in
  outRows ← (if Int.mul logitsLen vocabSize >? Int.mul actRows hiddenSize
             then q ← lift (Int.div (Int.mul logitsLen vocabSize) hiddenSize);
                  mret (Int.add q 1)
             else mret actRows);
  call (ActResize (Int.add actRows outRows) hiddenSize);;
  let sizeRequired := Int.mul (Int.mul batchSize seqLen) seqLen in
  getAttnMask sizeRequired;;
  headsPerSplit ← lift (Int.div (Int.sub (Int.add (ctx_kvHeadNum ctx) workers) 1) workers);
  psl ← gets prefixSeqLen;
  call (KVResize (if prefix then psl else maxPositions) (Int.mul userSideBS beamSize)
          headsPerSplit (ctx_attHeadSize ctx) prefix).

(** [ctx->resize(batchSize, seqLen, pastSeqLen)] on the decoder's context. *)
Definition ctx_resize (batchSize seqLen pastSeqLen : Z) : M unit :=
  ctx ← getContext;
  call (CtxResize batchSize seqLen pastSeqLen);;
  modify (set_context (Some (DecoderContext_resize ctx batchSize seqLen pastSeqLen))).

(** *** One decoder layer of forward and prefixForward *)

(** Attention, reduce, FFN, reduce for local layer [i]; [count] is the
    number of activation elements of the step, [expand] is what forward
    does to the layer's KV cache right after attention. *)
Definition decoderLayer (i : Z) (prefixCache : bool) (embBuf outBuf : Z)
    (count inputSeqLen pastSeqLen : Z) (useSelfAttn : bool) (hiddenSize : Z)
    (expand : M unit) : M unit :=
  decs ← gets decoders;
  dec ← lift (decs !! Z.to_nat i);
  let attnOut := tmp_ptr 0 in
  call (ForwardAttention i dec prefixCache (act_ptr embBuf) (act_ptr outBuf) attnOut
          inputSeqLen pastSeqLen useSelfAttn true);;
  expand;;
  workers ← gets (fun m => getSize (messenger m));
  (if negb ATTN_MLP_PARALLEL
   then (if workers >? 1
         then call (ReduceAdd attnOut attnOut count)
         else mret tt)
   else mret tt);;
  if ATTN_MLP_PARALLEL
  then (if workers >? 1
        then call (ForwardFFN i dec (act_ptr embBuf) (act_ptr outBuf) hiddenSize hiddenSize true);;
             call (ReduceAdd (act_ptr outBuf) (act_ptr embBuf) count)
        else call (ForwardFFN i dec (act_ptr embBuf) (act_ptr embBuf) hiddenSize hiddenSize true))
  else (if workers >? 1
        then call (ForwardFFN i dec attnOut (act_ptr outBuf) hiddenSize hiddenSize true);;
             call (ReduceAdd (act_ptr outBuf) (act_ptr embBuf) count)
        else call (ForwardFFN i dec attnOut (act_ptr embBuf) hiddenSize hiddenSize true)).

(** *** forward *)

(** The loop that separates the prefix tokens from the new tokens of every
    row of [ids]; the two arrays come from malloc. *)
Definition splitPrefix (ids : IntArray) (userSideBS seqLen pastSeqLen inputSeqLen : Z)
  : IntArray * IntArray :=
  fold_left
    (fun '(prefixIDs, newIDs) bs =>
       (memcpy prefixIDs (Int.mul pastSeqLen bs) ids (Int.mul seqLen bs) pastSeqLen,
        memcpy newIDs (Int.mul inputSeqLen bs) ids (Int.mul seqLen bs + pastSeqLen) inputSeqLen))
    (seqZ 0 userSideBS)
    ((fun _ => 0), (fun _ => 0)).

(** The body of [if (step == 0)]: the ids, pastSeqLen and inputSeqLen the
    rest of forward goes on with. *)
Definition firstStep (ids : IntArray) (userSideBS beamSize batchSize seqLen : Z)
    (pastSeqLen inputSeqLen : Z) (logitsAll : bool) : M (IntArray * Z * Z) :=
  modify (set_initSeqLen seqLen);;
  modify (set_accSeqLen 0);;
  sharing ← gets prefixSharing;
  r ← (if (sharing : bool) return M (IntArray * Z * Z)
       then
         pastSeqLen ← gets prefixSeqLen;
         let inputSeqLen := Int.sub seqLen pastSeqLen in
         let '(prefixIDs, newIDs) :=
           splitPrefix ids userSideBS seqLen pastSeqLen inputSeqLen in
         call (GetPositionIds prefixIDs batchSize pastSeqLen 0);;
         ctx_resize batchSize inputSeqLen pastSeqLen;;
         mret (newIDs, pastSeqLen, inputSeqLen)
       else mret (ids, pastSeqLen, inputSeqLen));
  prepareBuffers userSideBS beamSize logitsAll false;;
  mret r.

(** The copy of the last token's row of every sequence to the head of
    [outBuf] (the omp loop over [b]). *)
Definition copyLastRows (embBuf lnIn : Z) (batchSize inputSeqLen hiddenSize : Z)
    (a : Z -> elt) : Z -> elt :=
  fold_left
    (fun a b =>
       memcpy a (lnIn + Int.mul b hiddenSize)
              a (embBuf + Int.mul (Int.sub (Int.mul (Int.add b 1) inputSeqLen) 1) hiddenSize)
              hiddenSize)
    (seqZ 0 batchSize) a.

(** The loops that spread the logits of every user row over its beams:
    [b] runs from [userSideBS - 1] down to 0, [idx] over the rows of [b]'s
    beams, [idx == b] skipped. *)
Definition expandRow (finalOut : Z) (beamSize : Z) (a : Z -> elt) (b : Z) : Z -> elt :=
  let src := finalOut + Int.mul b splitSize in
  let lo := Int.mul b beamSize in
  let hi := Int.mul (Int.add b 1) beamSize in
  fold_left
    (fun a idx =>
       if idx =? b then a
       else memcpy a (finalOut + Int.mul idx splitSize) a src splitSize)
    (seqZ lo (hi - lo)) a.

Definition expandLogits (finalOut : Z) (userSideBS beamSize : Z) (a : Z -> elt) : Z -> elt :=
  fold_left (expandRow finalOut beamSize)
    (reverse (seqZ 0 (Int.sub userSideBS 1 + 1))) a.

(** The body of the loop over the local layers. *)
Definition forwardLayer (step userSideBS beamSize seqLen : Z)
    (embBuf outBuf count inputSeqLen pastSeqLen hiddenSize : Z) (i : Z) : M unit :=
  sharing ← gets prefixSharing;
  (if (step =? 0) && sharing
   then psl ← gets prefixSeqLen; call (ExpandPrefixCache i userSideBS psl)
   else mret tt);;
  decoderLayer i false embBuf outBuf count inputSeqLen pastSeqLen (step =? 0) hiddenSize
    (if (step =? 0) && (beamSize >? 1)
     then call (ExpandCache i userSideBS beamSize seqLen)
     else mret tt).

(** What forward does once the local layers have run: hand the activation
    to the next pipeline stage, or normalise, project and return logits. *)
Definition forwardTail (step : Z) (logitsAll : bool)
    (userSideBS beamSize batchSize seqLen inputSeqLen hiddenSize : Z)
    (embBuf outBuf count : Z) : M (ptr * Z * Z) :=
  ppr ← gets pp_rank;
  pps ← gets pp_size;
  if ppr <? Int.sub pps 1
  then
    (* not the last stage: send to the next one, return nullptr *)
    call (MPI_Send (act_ptr embBuf) count (Int.add ppr 1) (Int.mul 100 ppr));;
    mret (nullptr, 0, 0)
  else
    (* input of the final layer norm *)
    lnIn ← (if (inputSeqLen >? 1) && negb logitsAll
            then
              modify (fun m =>
                set_act (copyLastRows embBuf outBuf batchSize inputSeqLen hiddenSize
                           (act (heap m))) m);;
              mret outBuf
            else mret embBuf);
    let lnOut := embBuf in
    call (LastLayerNormForward (act_ptr lnIn) (act_ptr lnOut)
            (if negb logitsAll then batchSize else Int.mul batchSize seqLen));;
    (* Predictor *)
    let finalOut := outBuf in
    call (PredictorForward (act_ptr lnOut) (act_ptr finalOut)
            (if negb logitsAll then batchSize else Int.mul batchSize seqLen));;
    (* Expand the result to make it cover multiple beams *)
    (if (step =? 0) && (beamSize >? 1)
     then modify (fun m => set_act (expandLogits finalOut userSideBS beamSize (act (heap m))) m)
     else mret tt);;
    mret (act_ptr finalOut, splitOffset, splitSize).

(** forward from the embedding on, with the ids, pastSeqLen and inputSeqLen
    the first-step block settled. *)
Definition forwardRun (step : Z) (logitsAll : bool)
    (userSideBS beamSize batchSize seqLen : Z)
    (ids : IntArray) (pastSeqLen inputSeqLen : Z) : M (ptr * Z * Z) :=
  ctx ← getContext;
  let embBuf := 0 in
  let count := Int.mul (Int.mul batchSize inputSeqLen) (ctx_hiddenSize ctx) in
  let outBuf := embBuf + count in
  (* Embedding *)
  call (EmbeddingForward ids (act_ptr embBuf) batchSize inputSeqLen);;
  modify (fun m => set_accSeqLen (Int.add (accSeqLen m) seqLen) m);;
  sharing ← gets prefixSharing;
  (* Prepare attention mask, token position ids *)
  call (PrepareAttnMask ids (Int.add step (Int.of_bool sharing)));;
  call (GetPositionIds ids batchSize inputSeqLen (Int.add step (Int.of_bool sharing)));;
  ppr ← gets pp_rank;
  (if ppr >? 0
   then call (MPI_Recv (act_ptr embBuf) count (Int.sub ppr 1) (Int.mul 100 (Int.sub ppr 1)))
   else mret tt);;
  (* Decoder: forward *)
  let hiddenSize := ctx_hiddenSize ctx in
  decs ← gets decoders;
  let layers_per_pp_stage := Int.wrap (Z.of_nat (length decs)) in
  forM_ (seqZ 0 layers_per_pp_stage)
    (forwardLayer step userSideBS beamSize seqLen embBuf outBuf count
       inputSeqLen pastSeqLen hiddenSize);;
  forwardTail step logitsAll userSideBS beamSize batchSize seqLen inputSeqLen hiddenSize
    embBuf outBuf count.

Definition forward (ids : IntArray) (dims : Z * Z * Z) (step : Z) (logitsAll : bool)
  : M (ptr * Z * Z) :=
  let '(dims0, dims1, dims2) := dims in
  let userSideBS := Int.of_int64 dims0 in
  let beamSize := Int.of_int64 dims1 in
  let batchSize := if step =? 0 then userSideBS else Int.mul userSideBS beamSize in
  let seqLen := Int.of_int64 dims2 in
  acc ← gets accSeqLen;
  let pastSeqLen := if step =? 0 then 0 else acc in
  let inputSeqLen := seqLen in
  (* Prepare context *)
  ctx_resize batchSize seqLen pastSeqLen;;
  '(ids, pastSeqLen, inputSeqLen) ←
    (if step =? 0 return M (IntArray * Z * Z)
     then firstStep ids userSideBS beamSize batchSize seqLen pastSeqLen inputSeqLen logitsAll
     else mret (ids, pastSeqLen, inputSeqLen));
  forwardRun step logitsAll userSideBS beamSize batchSize seqLen ids pastSeqLen inputSeqLen.

(** *** Prefix sharing, cache reordering, skipping the first step *)

Definition prefixForward (ids : IntArray) (seqLen : Z) : M unit :=
  ctx_resize 1 seqLen 0;;
  prepareBuffers 1 1 false true;;
  ctx ← getContext;
  let embBuf := 0 in
  let outBuf := embBuf + Int.mul (Int.mul 1 seqLen) (ctx_hiddenSize ctx) in
  call (EmbeddingForward ids (act_ptr embBuf) 1 seqLen);;
  call (PrepareAttnMask ids 0);;
  call (GetPositionIds ids 1 seqLen 0);;
  let hiddenSize := ctx_hiddenSize ctx in
  decs ← gets decoders;
  forM_ (seqZ 0 (Z.of_nat (length decs)))
    (fun i =>
       decoderLayer i true embBuf outBuf (Int.mul seqLen hiddenSize) seqLen 0 true hiddenSize
         (mret tt)).

Definition setPrefix (ids : IntArray) (seqLen : Z) : M unit :=
  modify (set_prefixSharing true);;
  modify (set_prefixSeqLen seqLen);;
  prefixForward ids seqLen.

Definition unsetPrefix : M unit := modify (set_prefixSharing false).

Definition reorderCache (idx : IntArray) (size : Z) : M unit :=
  modify (fun m =>
    set_kvCacheMgr
      (KVCacheManager.reorderCache idx size (initSeqLen m) (accSeqLen m)
         (kvCacheMgr (heap m))) m).

Definition skipFirstStep (initSeqLen : Z) : M unit :=
  modify (set_initSeqLen initSeqLen);;
  modify (set_accSeqLen initSeqLen).

(** *** A session: forward calls one after the other *)

Record ForwardArgs : Type := {
  f_ids : IntArray;
  f_dims : Z * Z * Z;
  f_step : Z;
  f_logitsAll : bool
}.

Definition session (calls : list ForwardArgs) : M unit :=
  forM_ calls (fun c =>
    forward (f_ids c) (f_dims c) (f_step c) (f_logitsAll c);; mret tt).

(** *** Observations used in the statements below *)

(** The five shape parameters [getDecoderContext] compares. *)
Definition shape_matches (c : DecoderContext) (a : CtxArgs) (splitIdx : Z) : Prop :=
  ctx_hiddenSize c = a_hiddenSize a /\ ctx_attHeadNum c = a_attHeadNum a
  /\ ctx_kvHeadNum c = a_kvHeadNum a /\ ctx_intermediateSize c = a_imSize a
  /\ ctx_splitIdx c = splitIdx.

(** The call that builds a context. *)
Definition constructs (e : Event) : Prop :=
  match e with NewDecoderContext _ _ _ => True | _ => False end.

(** The layers a constructed decoder owns (none if construction failed). *)
Definition assigned_layers (r : result unit) : list Z :=
  match r with
  | Ok _ m => decoders m
  | _ => []
  end.

(** The events a run added to the log [l0] it started from. *)
Definition events_since (l0 : list Call) (m : Machine) : list Event :=
  map ev (drop (length l0) (log m)).

(** A decoder that can run forward: it has a context with a positive hidden
    size, and its row communicator has at least one member. *)
Definition ready (m : Machine) (c : DecoderContext) : Prop :=
  context m = Some c /\ 0 < ctx_hiddenSize c /\ 0 < getSize (messenger m).

(** The last pipeline stage. *)
Definition last_stage (m : Machine) : Prop :=
  0 < pp_size m <= Int.max_signed /\ pp_rank m = pp_size m - 1.

(** [dims[2]] of a forward call, and the sum of a list of lengths. *)
Definition seqLen_of (a : ForwardArgs) : Z := snd (f_dims a).
Definition total (l : list Z) : Z := foldr Z.add 0 l.

(** The token ids an external call is handed, if any. *)
Definition token_ids (e : Event) : option IntArray :=
  match e with
  | GetPositionIds ids _ _ _ => Some ids
  | EmbeddingForward ids _ _ _ => Some ids
  | PrepareAttnMask ids _ => Some ids
  | _ => None
  end.

(** The fields a run of external calls cannot change. *)
Definition same_core (m m' : Machine) : Prop :=
  messenger m' = messenger m /\ pp_size m' = pp_size m /\ pp_rank m' = pp_rank m
  /\ context m' = context m /\ initSeqLen m' = initSeqLen m
  /\ accSeqLen m' = accSeqLen m /\ prefixSeqLen m' = prefixSeqLen m
  /\ prefixSharing m' = prefixSharing m /\ decoders m' = decoders m.

(** The fields forward never changes. *)
Definition kept (m m' : Machine) : Prop :=
  messenger m' = messenger m /\ pp_size m' = pp_size m /\ pp_rank m' = pp_rank m
  /\ prefixSeqLen m' = prefixSeqLen m /\ prefixSharing m' = prefixSharing m
  /\ decoders m' = decoders m.

(** An external call that is handed no token ids. *)
Definition quiet (e : Event) : Prop := token_ids e = None.

(** The heap is as the last logged call left it. *)
Definition synced (m : Machine) : Prop :=
  exists l c, log m = l ++ [c] /\ post c = heap m.

End CommonDecoder.

Arguments Ok {elt cell A} a m.
Arguments Exit {elt cell A} code m.
Arguments Trap {elt cell A}.
Arguments act {elt cell} _ _.
Arguments kvCacheMgr {elt cell} _.
Arguments ev {elt cell} _.
Arguments pre {elt cell} _.
Arguments post {elt cell} _.
Arguments messenger {elt cell} _.
Arguments pp_size {elt cell} _.
Arguments pp_rank {elt cell} _.
Arguments tp_size {elt cell} _.
Arguments tp_rank {elt cell} _.
Arguments context {elt cell} _.
Arguments initSeqLen {elt cell} _.
Arguments accSeqLen {elt cell} _.
Arguments prefixSeqLen {elt cell} _.
Arguments prefixSharing {elt cell} _.
Arguments maskSize {elt cell} _.
Arguments decoders {elt cell} _.
Arguments heap {elt cell} _.
Arguments log {elt cell} _.

Arguments after_call {elt cell} extern e m.
Arguments after_calls {elt cell} extern es m.
Arguments call {elt cell} extern e m.
Arguments getContext {elt cell} m.
Arguments getDecoderContext {elt cell} extern Env_getPipeline DecoderContext_new a m.
Arguments fresh {elt cell} msgr h l.
Arguments CommonDecoder_new {elt cell} extern Env_getPipeline DecoderContext_new cfg m.
Arguments getAttnMask {elt cell} extern sizeRequired m.
Arguments prepareBuffers {elt cell} extern userSideBS beamSize logitsAll prefix m.
Arguments ctx_resize {elt cell} extern batchSize seqLen pastSeqLen m.
Arguments decoderLayer {elt cell} extern ATTN_MLP_PARALLEL i prefixCache embBuf outBuf
  count inputSeqLen pastSeqLen useSelfAttn hiddenSize expand m.
Arguments firstStep {elt cell} extern ids userSideBS beamSize batchSize seqLen
  pastSeqLen inputSeqLen logitsAll m.
Arguments copyLastRows {elt} embBuf lnIn batchSize inputSeqLen hiddenSize a _.
Arguments expandRow {elt} splitSize finalOut beamSize a b _.
Arguments expandLogits {elt} splitSize finalOut userSideBS beamSize a _.
Arguments forwardLayer {elt cell} extern ATTN_MLP_PARALLEL step userSideBS beamSize seqLen
  embBuf outBuf count inputSeqLen pastSeqLen hiddenSize i m.
Arguments forwardTail {elt cell} extern splitOffset splitSize step logitsAll
  userSideBS beamSize batchSize seqLen inputSeqLen hiddenSize embBuf outBuf count m.
Arguments forwardRun {elt cell} extern ATTN_MLP_PARALLEL splitOffset splitSize step logitsAll
  userSideBS beamSize batchSize seqLen ids pastSeqLen inputSeqLen m.
Arguments forward {elt cell} extern ATTN_MLP_PARALLEL splitOffset splitSize
  ids dims step logitsAll m.
Arguments prefixForward {elt cell} extern ATTN_MLP_PARALLEL ids seqLen m.
Arguments setPrefix {elt cell} extern ATTN_MLP_PARALLEL ids seqLen m.
Arguments unsetPrefix {elt cell} m.
Arguments reorderCache {elt cell} idx size m.
Arguments skipFirstStep {elt cell} initSeqLen m.
Arguments session {elt cell} extern ATTN_MLP_PARALLEL splitOffset splitSize calls m.
Arguments assigned_layers {elt cell} r.
Arguments events_since {elt cell} l0 m.
Arguments ready {elt cell} m c.
Arguments last_stage {elt cell} m.
Arguments same_core {elt cell} m m'.
Arguments kept {elt cell} m m'.
Arguments synced {elt cell} m.

(** *** More observations on the call log *)

Definition constructs_dec (e : Event) : Decision (constructs e) :=
  match e with
  | NewDecoderContext _ _ _ => left I
  | _ => right (fun H => H)
  end.
#[global] Existing Instance constructs_dec.

(** The function an external call goes to. *)
Inductive Callee : Type :=
| c_printf | c_new_context | c_new_decoder | c_setDecoderWeights | c_new_predictor
| c_setPredictorWeight | c_new_kvCacheManager | c_ctx_resize | c_act_resize
| c_alloc_attnMask | c_kv_resize | c_getPositionIds | c_embeddingForward
| c_prepareAttnMask | c_MPI_Recv | c_MPI_Send | c_expandPrefixCache | c_expandCache
| c_forwardAttention | c_forwardFFN | c_reduceAdd | c_lastLayerNormForward
| c_predictor_forward.

#[global] Instance Callee_eq_dec : EqDecision Callee.
Proof. solve_decision. Defined.

Definition callee (e : Event) : Callee :=
  match e with
  | Printf _ => c_printf
  | NewDecoderContext _ _ _ => c_new_context
  | NewDecoder _ => c_new_decoder
  | SetDecoderWeights _ => c_setDecoderWeights
  | NewPredictor _ _ _ _ => c_new_predictor
  | SetPredictorWeight => c_setPredictorWeight
  | NewKVCacheManager _ => c_new_kvCacheManager
  | CtxResize _ _ _ => c_ctx_resize
  | ActResize _ _ => c_act_resize
  | AllocAttnMask _ => c_alloc_attnMask
  | KVResize _ _ _ _ _ => c_kv_resize
  | GetPositionIds _ _ _ _ => c_getPositionIds
  | EmbeddingForward _ _ _ _ => c_embeddingForward
  | PrepareAttnMask _ _ => c_prepareAttnMask
  | MPI_Recv _ _ _ _ => c_MPI_Recv
  | MPI_Send _ _ _ _ => c_MPI_Send
  | ExpandPrefixCache _ _ _ => c_expandPrefixCache
  | ExpandCache _ _ _ _ => c_expandCache
  | ForwardAttention _ _ _ _ _ _ _ _ _ _ => c_forwardAttention
  | ForwardFFN _ _ _ _ _ _ _ => c_forwardFFN
  | ReduceAdd _ _ _ => c_reduceAdd
  | LastLayerNormForward _ _ _ => c_lastLayerNormForward
  | PredictorForward _ _ _ => c_predictor_forward
  end.

(** The calls of a log that go to [f]. *)
Definition calls_to (f : Callee) (es : list Event) : list Event :=
  filter (fun e => callee e = f) es.

(** The warning of the constructor. *)
Definition uneven_warning : Event :=
  Printf "Warning: layers cannot be evenly divided by pipeline parallel stage size(pp_size).".

(** *** The calls a run is expected to make

    Used to state, call by call, what [prepareBuffers] and the loop over the
    local layers do. *)

(** After the attention of local layer [i]: the reduction of its output,
    the feed-forward network and the reduction of its output. *)
Definition ffn_calls (parallel : bool) (workers : Z) (i dec : Z)
    (embBuf outBuf count hiddenSize : Z) : list Event :=
  let attnOut := tmp_ptr 0 in
  (if negb parallel && (workers >? 1) then [ReduceAdd attnOut attnOut count] else [])
  ++ (if parallel
      then (if workers >? 1
            then [ForwardFFN i dec (act_ptr embBuf) (act_ptr outBuf) hiddenSize hiddenSize true;
                  ReduceAdd (act_ptr outBuf) (act_ptr embBuf) count]
            else [ForwardFFN i dec (act_ptr embBuf) (act_ptr embBuf) hiddenSize hiddenSize true])
      else (if workers >? 1
            then [ForwardFFN i dec attnOut (act_ptr outBuf) hiddenSize hiddenSize true;
                  ReduceAdd (act_ptr outBuf) (act_ptr embBuf) count]
            else [ForwardFFN i dec attnOut (act_ptr embBuf) hiddenSize hiddenSize true])).

(** Local layer [i] of [forward]. *)
Definition layer_calls (parallel : bool) (workers : Z) (step userSideBS beamSize seqLen : Z)
    (sharing : bool) (prefixSeqLen : Z) (embBuf outBuf count inputSeqLen pastSeqLen : Z)
    (hiddenSize : Z) (i dec : Z) : list Event :=
  (if (step =? 0) && sharing then [ExpandPrefixCache i userSideBS prefixSeqLen] else [])
  ++ [ForwardAttention i dec false (act_ptr embBuf) (act_ptr outBuf) (tmp_ptr 0)
        inputSeqLen pastSeqLen (step =? 0) true]
  ++ (if (step =? 0) && (beamSize >? 1) then [ExpandCache i userSideBS beamSize seqLen] else [])
  ++ ffn_calls parallel workers i dec embBuf outBuf count hiddenSize.

(** Local layer [i] of [prefixForward]. *)
Definition prefix_layer_calls (parallel : bool) (workers : Z) (embBuf outBuf count seqLen : Z)
    (hiddenSize : Z) (i dec : Z) : list Event :=
  [ForwardAttention i dec true (act_ptr embBuf) (act_ptr outBuf) (tmp_ptr 0) seqLen 0 true true]
  ++ ffn_calls parallel workers i dec embBuf outBuf count hiddenSize.

(** The local layers one after the other, from local index [from] on. *)
Definition loop_calls (f : Z -> Z -> list Event) (from : Z) (decs : list Z) : list Event :=
  concat (imap (fun i dec => f (from + Z.of_nat i) dec) decs).

(** [prepareBuffers] on the context [c]. *)
Definition prepare_calls (c : DecoderContext) (workers maskSize prefixSeqLen : Z)
    (userSideBS beamSize : Z) (logitsAll prefix : bool) : list Event :=
  let batchSize := ctx_batchSize c in
  let hiddenSize := ctx_hiddenSize c in
  let seqLen := ctx_inputSeqLen c in
  let logitsLen :=
    if logitsAll then Int.mul batchSize seqLen else Int.mul userSideBS beamSize in
  let actRows := Int.mul batchSize seqLen in
  let outRows :=
    if Int.mul logitsLen (ctx_vocabSize c) >? Int.mul actRows hiddenSize
    then Int.add (default 0 (Int.div (Int.mul logitsLen (ctx_vocabSize c)) hiddenSize)) 1
    else actRows in
  let sizeRequired := Int.mul (Int.mul batchSize seqLen) seqLen in
  let headsPerSplit :=
    default 0 (Int.div (Int.sub (Int.add (ctx_kvHeadNum c) workers) 1) workers) in
  [ActResize (Int.add actRows outRows) hiddenSize]
  ++ (if maskSize <? sizeRequired then [AllocAttnMask sizeRequired] else [])
  ++ [KVResize (if prefix then prefixSeqLen else ctx_maxPositions c)
        (Int.mul userSideBS beamSize) headsPerSplit (ctx_attHeadSize c) prefix].

(** The sizes of the attention masks allocated by a run of calls. *)
Definition mask_allocations (es : list Event) : list Z :=
  omap (fun e => match e with AllocAttnMask n => Some n | _ => None end) es.

(** Every size of [ns] exceeds the one before it, the first exceeds [a]. *)
Fixpoint increasing_from (a : Z) (ns : list Z) : Prop :=
  match ns with
  | [] => True
  | n :: ns' => a < n /\ increasing_from n ns'
  end.

(** The functions the loop over the local layers calls. *)
Definition layer_callees : list Callee :=
  [c_forwardAttention; c_forwardFFN; c_reduceAdd; c_expandCache; c_expandPrefixCache].


(** ** Loading the weights of one decoder layer *)

Module Weights.

(** The buffers of [setDecoderWeights], by the local variable that holds
    each. *)
Inductive Buf : Type :=
| qkvWeight | qkvBias | attnOutWeight | attnOutBias | fc1Weight | fc1Bias
| fc2Weight | fc2Bias | ln1Gamma | ln1Beta | ln2Gamma | ln2Beta | fc3Weight.

#[global] Instance Buf_eq_dec : EqDecision Buf.
Proof. solve_decision. Defined.

(** A [float *]: an element offset into the block a variable was given by
    ALLOC, or an offset from the null pointer. *)
Record fptr : Type := FPtr { base : option Buf; off : Z }.

#[global] Instance fptr_eq_dec : EqDecision fptr.
Proof. solve_decision. Defined.

Definition null : fptr := FPtr None 0.

(** [p + k]. *)
Definition padd (p : fptr) (k : Z) : fptr := FPtr (base p) (off p + k).

(** [if (p)]. *)
Definition nonnull (p : fptr) : bool :=
  match base p with
  | Some _ => true
  | None => negb (off p =? 0)
  end.

(** The files of a layer, by what follows
    [modelPath + "/model.layers." + std::to_string(layerIdx)] in their names. *)
Inductive WeightFile : Type :=
| qkv_weight              (* .attention.query_key_value.weight.0.bin *)
| attn_dense_weight       (* .attention.dense.weight.0.bin *)
| dense_h_to_4h_weight    (* .mlp.dense_h_to_4h.weight.0.bin *)
| dense_4h_to_h_weight    (* .mlp.dense_4h_to_h.weight.0.bin *)
| gate_proj_weight        (* .mlp.gate_proj.weight.0.bin *)
| up_proj_weight          (* .mlp.up_proj.weight.0.bin *)
| down_proj_weight        (* .mlp.down_proj.weight.0.bin *)
| input_layernorm_weight  (* .input_layernorm.weight.bin *)
| post_attention_layernorm_weight  (* .post_attention_layernorm.weight.bin *)
| qkv_bias                (* .attention.query_key_value.bias.0.bin *)
| attn_dense_bias         (* .attention.dense.bias.bin *)
| input_layernorm_bias    (* .input_layernorm.bias.bin *)
| post_attention_layernorm_bias    (* .post_attention_layernorm.bias.bin *)
| dense_h_to_4h_bias      (* .mlp.dense_h_to_4h.bias.0.bin *)
| dense_4h_to_h_bias.     (* .mlp.dense_4h_to_h.bias.bin *)

#[global] Instance WeightFile_eq_dec : EqDecision WeightFile.
Proof. solve_decision. Defined.

(** What the function does to the world outside it. *)
Inductive Step : Type :=
| Alloc (b : Buf) (count : Z) (p : fptr)  (* p = aligned_alloc(64, count * sizeof(float)) *)
| Free (p : fptr)
| FileExists (f : WeightFile)
| LoadWeight (f : WeightFile) (dst : fptr) (size : Z) (required : bool)
| SetWeights (params : list fptr)      (* pdecoder->setWeights(ctx, params, false) *)
| Print (msg : string).

(** What the function reads of the context. *)
Record Sizes : Type := {
  hiddenSize : Z;
  imSize : Z;
  kvHeadNum : Z;
  attHeadSize : Z;
  swiglu : bool               (* actType == DecoderContext::SWIGLU *)
}.

(** What the function finds around it: whether [aligned_alloc] gives a block
    for a variable or the null pointer, whether a file exists, and what
    [loadWeight] returns for a file when asked for [size] elements. *)
Record Host : Type := {
  allocates : Buf -> bool;
  fileExists : WeightFile -> bool;
  loadWeight : WeightFile -> Z -> Z
}.

(** The local pointer variables and the steps taken so far. *)
Record State : Type := {
  vars : Buf -> fptr;
  trace : list Step
}.

Inductive outcome (A : Type) : Type :=
| Done (a : A) (s : State)
| Exited (code : Z) (s : State).
Arguments Done {A} a s.
Arguments Exited {A} code s.

Definition W (A : Type) : Type := State -> outcome A.

(** [kvSize] and [qkvSize] of the function. *)
Definition kvSize (sz : Sizes) : Z := Int.mul (attHeadSize sz) (kvHeadNum sz).
Definition qkvSize (sz : Sizes) : Z :=
  Int.add (Int.add (hiddenSize sz) (kvSize sz)) (kvSize sz).

#[global] Instance W_ret : MRet W := fun A a s => Done a s.
#[global] Instance W_bind : MBind W := fun A B f c s =>
  match c s with
  | Done a s' => f a s'
  | Exited code s' => Exited code s'
  end.

Definition emit (e : Step) : W unit :=
  fun s => Done tt {| vars := vars s; trace := trace s ++ [e] |}.
Definition get (b : Buf) : W fptr := fun s => Done (vars s b) s.
Definition set (b : Buf) (p : fptr) : W unit :=
  fun s => Done tt {| vars := fun b' => if decide (b' = b) then p else vars s b';
                      trace := trace s |}.
Definition exit {A : Type} (code : Z) : W A := fun s => Exited code s.

Section WithHost.

Variable files : Host.

(** [x = ALLOC(count * sizeof(float), 64)], cast to a pointer to float: the
    start of a block of its own, or null. *)
Definition ALLOC (b : Buf) (count : Z) : W unit :=
  let p := if allocates files b then FPtr (Some b) 0 else null in
  emit (Alloc b count p);; set b p.

(** [loadWeight(file, x, size, getDataType())]: the result is not read. *)
Definition load (f : WeightFile) (b : Buf) (size : Z) : W unit :=
  p ← get b; emit (LoadWeight f p size true).

(** The macro READ_OPTIONAL(filename, addr, size, errmsg). *)
Definition READ_OPTIONAL (f : WeightFile) (b : Buf) (size : Z) (errmsg : string) : W unit :=
  p ← get b;
  emit (LoadWeight f p size false);;
  let ret := loadWeight files f size in
  if ret =? 0
  then emit (Free p);; set b null
  else if negb (ret =? size)
       then emit (Print errmsg);; exit (-1)
       else mret tt.

(** The macro FREE(x). *)
Definition FREE (b : Buf) : W unit :=
  p ← get b;
  if nonnull p then emit (Free p) else mret tt.

Definition setDecoderWeights (sz : Sizes) : W unit :=
  let hiddenSize := hiddenSize sz in
  let imSize := imSize sz in
  let mlpFactor := if swiglu sz then 2 else 1 in
  let qSize := hiddenSize in
  let kvSize := kvSize sz in
  let qkvSize := qkvSize sz in
  ALLOC qkvWeight (Int.mul hiddenSize qkvSize);;
  ALLOC qkvBias qkvSize;;
  ALLOC attnOutWeight (Int.mul hiddenSize hiddenSize);;
  ALLOC attnOutBias hiddenSize;;
  ALLOC fc1Weight (Int.mul (Int.mul hiddenSize imSize) mlpFactor);;
  ALLOC fc1Bias imSize;;
  ALLOC fc2Weight (Int.mul hiddenSize imSize);;
  ALLOC fc2Bias hiddenSize;;
  ALLOC ln1Gamma hiddenSize;;
  ALLOC ln1Beta hiddenSize;;
  ALLOC ln2Gamma hiddenSize;;
  ALLOC ln2Beta hiddenSize;;
  set fc3Weight null;;
  load qkv_weight qkvWeight (Int.mul hiddenSize qkvSize);;
  load attn_dense_weight attnOutWeight (Int.mul hiddenSize hiddenSize);;
  (* Standard 2 layer MLP, or gate, up, down weights for Llama like model *)
  emit (FileExists dense_h_to_4h_weight);;
  (if fileExists files dense_h_to_4h_weight
   then
     load dense_h_to_4h_weight fc1Weight (Int.mul (Int.mul hiddenSize imSize) mlpFactor);;
     load dense_4h_to_h_weight fc2Weight (Int.mul hiddenSize imSize)
   else
     ALLOC fc3Weight (Int.mul hiddenSize imSize);;
     load gate_proj_weight fc1Weight (Int.mul (Int.mul hiddenSize imSize) mlpFactor);;
     load up_proj_weight fc2Weight (Int.mul hiddenSize imSize);;
     load down_proj_weight fc3Weight (Int.mul hiddenSize imSize));;
  load input_layernorm_weight ln1Gamma hiddenSize;;
  load post_attention_layernorm_weight ln2Gamma hiddenSize;;
  (* The bias is optional *)
  READ_OPTIONAL qkv_bias qkvBias qkvSize "read QKV bias error";;
  READ_OPTIONAL attn_dense_bias attnOutBias hiddenSize "read attn dense bias error";;
  READ_OPTIONAL input_layernorm_bias ln1Beta hiddenSize "read LN1 beta error";;
  READ_OPTIONAL post_attention_layernorm_bias ln2Beta hiddenSize "read LN2 beta error";;
  READ_OPTIONAL dense_h_to_4h_bias fc1Bias imSize "read FC1 bias error";;
  READ_OPTIONAL dense_4h_to_h_bias fc2Bias hiddenSize "read FC2 bias error";;
  v ← (fun s => Done (vars s) s);
  emit (SetWeights
          [v qkvWeight; v qkvBias; padd (v qkvWeight) qSize; padd (v qkvBias) qSize;
           padd (padd (v qkvWeight) qSize) kvSize; padd (padd (v qkvBias) qSize) kvSize;
           v attnOutWeight; v attnOutBias; v ln1Gamma; v ln1Beta;
           v fc1Weight; v fc1Bias; v fc2Weight; v fc2Bias; v ln2Gamma; v ln2Beta;
           v fc3Weight]);;
  FREE qkvWeight;;
  FREE attnOutWeight;;
  FREE fc1Weight;;
  FREE fc2Weight;;
  FREE fc3Weight;;
  FREE qkvBias;;
  FREE attnOutBias;;
  FREE fc1Bias;;
  FREE fc2Bias;;
  FREE ln1Gamma;;
  FREE ln1Beta;;
  FREE ln2Gamma;;
  FREE ln2Beta.

End WithHost.

(** The state the function starts in: no step taken; the variables get
    their values from their initialisers. *)
Definition start : State := {| vars := fun _ => null; trace := [] |}.

(** *** Observations *)

Definition final {A : Type} (o : outcome A) : State :=
  match o with Done _ s => s | Exited _ s => s end.

(** The argument of [exit], when the function does not return. *)
Definition code {A : Type} (o : outcome A) : option Z :=
  match o with Done _ _ => None | Exited c _ => Some c end.

(** A call of the function: whether it exits, and the steps it takes. *)
Definition exit_code (host : Host) (sz : Sizes) : option Z :=
  code (setDecoderWeights host sz start).
Definition steps (host : Host) (sz : Sizes) : list Step :=
  trace (final (setDecoderWeights host sz start)).

(** How often block [b] was handed out, and how often freed at its start. *)
Definition is_alloc (b : Buf) (e : Step) : bool :=
  match e with Alloc _ _ p => bool_decide (p = FPtr (Some b) 0) | _ => false end.
Definition is_free (b : Buf) (e : Step) : bool :=
  match e with Free p => bool_decide (p = FPtr (Some b) 0) | _ => false end.
Definition allocations (b : Buf) (tr : list Step) : nat :=
  length (List.filter (is_alloc b) tr).
Definition frees (b : Buf) (tr : list Step) : nat :=
  length (List.filter (is_free b) tr).

(** Every variable of the function. *)
Definition all_bufs : list Buf :=
  [qkvWeight; qkvBias; attnOutWeight; attnOutBias; fc1Weight; fc1Bias; fc2Weight; fc2Bias;
   ln1Gamma; ln1Beta; ln2Gamma; ln2Beta; fc3Weight].

(** A pointer [free] may be given once the steps [tr] are taken: null, or the
    start of a block handed out and not freed yet. *)
Definition may_free (tr : list Step) (p : fptr) : bool :=
  match base p with
  | Some b => (off p =? 0) && (allocations b tr =? 1)%nat && (frees b tr =? 0)%nat
  | None => off p =? 0
  end.

(** Every [free] of a run was given such a pointer. *)
Fixpoint frees_valid (done tr : list Step) : bool :=
  match tr with
  | [] => true
  | e :: tr' =>
      match e with Free p => may_free done p | _ => true end
      && frees_valid (done ++ [e]) tr'
  end.

(** The check, run on a trace, that no block is left: each was handed out
    at most once, and freed as often. *)
Definition released (tr : list Step) : bool :=
  forallb (fun b => (frees b tr =? allocations b tr)%nat && (allocations b tr <=? 1)%nat)
    all_bufs.

(** The steps before the call of [setWeights] and the parameters of the
    call, if there is one. *)
Fixpoint upto_setWeights (tr : list Step) : option (list Step * list fptr) :=
  match tr with
  | [] => None
  | SetWeights ps :: _ => Some ([], ps)
  | e :: tr' =>
      match upto_setWeights tr' with
      | Some (pre, ps) => Some (e :: pre, ps)
      | None => None
      end
  end.

(** The parameters handed to [setWeights], if it was called. *)
Definition params_of (tr : list Step) : option (list fptr) :=
  snd <$> upto_setWeights tr.

(** A pointer that is not into a block, or into one that is handed out and
    not freed once the steps [tr] are taken. *)
Definition held (tr : list Step) (p : fptr) : bool :=
  match base p with
  | Some b => (allocations b tr =? 1)%nat && (frees b tr =? 0)%nat
  | None => true
  end.

(** The optional files in the order they are read, each with its buffer,
    the size asked for, the message of a failed read and the position of
    its pointer among the parameters. *)
Definition optional_files (sz : Sizes) : list (WeightFile * Buf * Z * string * nat) :=
  [ (qkv_bias, qkvBias, qkvSize sz,
     "read QKV bias error"%string, 1%nat);
    (attn_dense_bias, attnOutBias, hiddenSize sz, "read attn dense bias error"%string, 7%nat);
    (input_layernorm_bias, ln1Beta, hiddenSize sz, "read LN1 beta error"%string, 9%nat);
    (post_attention_layernorm_bias, ln2Beta, hiddenSize sz, "read LN2 beta error"%string, 15%nat);
    (dense_h_to_4h_bias, fc1Bias, imSize sz, "read FC1 bias error"%string, 11%nat);
    (dense_4h_to_h_bias, fc2Bias, hiddenSize sz, "read FC2 bias error"%string, 13%nat) ].

(** A file that holds some elements, but not as many as asked for. *)
Definition partial_read (files : Host) (e : WeightFile * Buf * Z * string * nat) : bool :=
  let '(f, _, size, _, _) := e in
  negb (loadWeight files f size =? 0) && negb (loadWeight files f size =? size).

End Weights.

(** ** Concatenating the gate and up weights of the MLP *)

Module Mlp.

Section CatGateUp.

(** [WeiT] and [float], as bit patterns. *)
Variable WeiT : Type.
Variable float : Type.
(** [std::is_same_v<WeiT, uint4x2_t> || std::is_same_v<WeiT, nf4x2_t>]: two
    values are packed into one element. *)
Variable packed : bool.

(** An [hpj::Matrix<WeiT>] and an [hpj::Vector<float>] as the function reads
    them: [Rows()], [Cols()] and [Size()], and the elements that [Data()]
    points to. *)
Record Matrix : Type := { Rows : Z; Cols : Z; Data : list WeiT }.
Record Vector : Type := { Size : Z; VData : list float }.

(** [memcpy(dst + d, src + s, n * sizeof(element))]: undefined when it leaves
    either array. *)
Definition memcpy {A : Type} (dst : list A) (d : Z) (src : list A) (s n : Z)
  : option (list A) :=
  if (0 <=? d) && (0 <=? s) && (0 <=? n)
     && (d + n <=? Z.of_nat (length dst)) && (s + n <=? Z.of_nat (length src))
  then Some (take (Z.to_nat d) dst
             ++ take (Z.to_nat n) (drop (Z.to_nat s) src)
             ++ drop (Z.to_nat (d + n)) dst)
  else None.

(** The body of the loop over the rows, for row [i]. *)
Definition copyRow (Stride N : Z) (gate up : list WeiT) (cat : list WeiT) (i : Z)
  : option (list WeiT) :=
  cat ← memcpy cat (i * Stride) gate (i * N) N;
  memcpy cat (i * Stride + N) up (i * N) N.

(** The loop [for (uint64_t i = 0; i < M; ++i)], its iterations taken in
    index order. *)
Definition copyRows (M Stride N : Z) (gate up : list WeiT) (cat : list WeiT)
  : option (list WeiT) :=
  foldl (fun acc i => cat ← acc; copyRow Stride N gate up cat i) (Some cat) (seqZ 0 M).

(** [catGateUpWeights]. The four [Resize] calls leave [catWeights] and the
    three vectors with the sizes asked for and with storage of their own,
    whose elements before the copies are [wstore], [sstore], [zstore] and
    [ustore]. A negative row count is undefined. *)
Definition catGateUpWeights (gateWeight upWeight : Matrix)
    (gateWeightScale gateWeightZero gateWeightSum : Vector)
    (upWeightScale upWeightZero upWeightSum : Vector)
    (wstore : list WeiT) (sstore zstore ustore : list float)
  : option (Matrix * Vector * Vector * Vector) :=
  let catRows := Rows gateWeight in
  let catCols := Int.add (Cols gateWeight) (Cols upWeight) in
  let scaleSize := Int.add (Size gateWeightScale) (Size upWeightScale) in
  let zeroSize := Int.add (Size gateWeightZero) (Size upWeightZero) in
  let sumSize := Int.add (Size gateWeightSum) (Size upWeightSum) in
  let M := catRows in
  let Stride := if packed then catCols ÷ 2 else catCols in
  let N := if packed then Cols gateWeight ÷ 2 else Cols gateWeight in
  if M <? 0 then None else
  w ← copyRows M Stride N (Data gateWeight) (Data upWeight) wstore;
  let M := Size gateWeightScale in
  let N := Size upWeightScale in
  s ← memcpy sstore 0 (VData gateWeightScale) 0 M;
  s ← memcpy s M (VData upWeightScale) 0 N;
  z ← memcpy zstore 0 (VData gateWeightZero) 0 M;
  z ← memcpy z M (VData upWeightZero) 0 N;
  let M := Size gateWeightSum in
  let N := Size upWeightSum in
  u ← memcpy ustore 0 (VData gateWeightSum) 0 M;
  u ← memcpy u M (VData upWeightSum) 0 N;
  Some ({| Rows := catRows; Cols := catCols; Data := w |},
        {| Size := scaleSize; VData := s |},
        {| Size := zeroSize; VData := z |},
        {| Size := sumSize; VData := u |}).

End CatGateUp.

Arguments Rows {WeiT} _.
Arguments Cols {WeiT} _.
Arguments Data {WeiT} _.
Arguments Size {float} _.
Arguments VData {float} _.
Arguments copyRow {WeiT} _ _ _ _ _ _.
Arguments copyRows {WeiT} _ _ _ _ _ _.
Arguments catGateUpWeights {WeiT float} _ _ _ _ _ _ _ _ _ _ _ _ _.

(** The elements that a row of [C] values takes. *)
Definition row_elements (packed : bool) (C : Z) : Z := if packed then C ÷ 2 else C.

(** Gate and up weights of the same shape, stored row after row, whose sizes
    fit [int], and storage for the result that holds all their rows. *)
Definition weights_fit {WeiT : Type} (packed : bool) (gate up : Matrix WeiT)
    (wstore : list WeiT) : Prop :=
  let w := row_elements packed (Cols gate) in
  0 <= Rows gate /\ 0 <= Cols gate /\ Cols up = Cols gate
  /\ 2 * Cols gate <= Int.max_signed
  /\ (packed = true -> Z.even (Cols gate) = true)
  /\ Rows gate * w <= Z.of_nat (length (Data gate))
  /\ Rows gate * w <= Z.of_nat (length (Data up))
  /\ Rows gate * (2 * w) <= Z.of_nat (length wstore).

(** Vectors that hold as many elements as the copies read from them, and
    storage for the results that holds as many as the copies write. The zero
    vectors are read and written with the sizes of the scale vectors. *)
Definition vectors_fit {float : Type} (gs gz gu us uz uu : Vector float)
    (sstore zstore ustore : list float) : Prop :=
  (0 <= Size gs /\ 0 <= Size us /\ Size gs + Size us <= Int.max_signed)
  /\ (0 <= Size gz /\ 0 <= Size uz /\ Size gz + Size uz <= Int.max_signed)
  /\ (0 <= Size gu /\ 0 <= Size uu /\ Size gu + Size uu <= Int.max_signed)
  /\ Size gs <= Z.of_nat (length (VData gs)) /\ Size us <= Z.of_nat (length (VData us))
  /\ Size gs <= Z.of_nat (length (VData gz)) /\ Size us <= Z.of_nat (length (VData uz))
  /\ Size gu <= Z.of_nat (length (VData gu)) /\ Size uu <= Z.of_nat (length (VData uu))
  /\ Size gs + Size us <= Z.of_nat (length sstore)
  /\ Size gs + Size us <= Z.of_nat (length zstore)
  /\ Size gu + Size uu <= Z.of_nat (length ustore).

End Mlp.

(** ** [init] built with USE_SHM: are the ranks on one machine *)

Module Shm.

Section WithHosts.

(** [MPI_MAX_PROCESSOR_NAME]. *)
Variable MPI_MAX_PROCESSOR_NAME : Z.
(** The name [MPI_Get_processor_name] gives on the process of each world
    rank. *)
Variable hostname : Z -> string.

(** The loop [for (int i = 1; i < *world_size; i++)] from [i] on with [n]
    iterations to go; [all_hostnames] holds the name of world rank [i] at
    [i * MPI_MAX_PROCESSOR_NAME]. The value is [sameHostnames] after it. *)
Fixpoint sameHostnames (myHostname : string) (i : Z) (n : nat) : Z :=
  match n with
  | O => 1
  | S n' =>
      if negb (String.eqb myHostname (hostname i))   (* strcmp(...) != 0 *)
      then 0
      else sameHostnames myHostname (i + 1) n'
  end.

(** The value [init] returns. [MPI_Allgather] over MPI_COMM_WORLD fills
    [all_hostnames], which has room for [MPI_MAX_PROCESSOR_NAME] names: with
    more processes it is overrun. *)
Definition init (W R P : Z) : option Z :=
  out ← Comm.init W R P;
  let world_size := Comm.world_size out in
  let myHostname := hostname R in
  if MPI_MAX_PROCESSOR_NAME <? W then None
  else Some (sameHostnames myHostname 1 (Z.to_nat (world_size - 1))).

End WithHosts.

End Shm.

(** ** A small decoder on which the statements below are run *)

(** Kernels that leave the shared memory as they found it. *)
Definition demo_extern : list Event -> Heap Z Z -> Heap Z Z := fun _ h => h.

Definition demo_heap : Heap Z Z :=
  {| act := fun a => a;
     kvCacheMgr :=
       KVCacheManager.Build Z (fun layer seq b => 100 * seq + b)
         (fun layer seq b => 1000 + 100 * seq + b) |}.

Definition demo_context : DecoderContext :=
  {| ctx_hiddenSize := 4; ctx_attHeadNum := 2; ctx_kvHeadNum := 2;
     ctx_intermediateSize := 8; ctx_splitIdx := 0; ctx_vocabSize := 10;
     ctx_maxPositions := 64; ctx_attHeadSize := 2; ctx_batchSize := 0;
     ctx_inputSeqLen := 0 |}.

Definition demo_new (a : CtxArgs) (splitIdx splits : Z) : DecoderContext :=
  {| ctx_hiddenSize := a_hiddenSize a; ctx_attHeadNum := a_attHeadNum a;
     ctx_kvHeadNum := a_kvHeadNum a; ctx_intermediateSize := a_imSize a;
     ctx_splitIdx := splitIdx; ctx_vocabSize := a_vocabSize a;
     ctx_maxPositions := a_maxPositions a; ctx_attHeadSize := 2; ctx_batchSize := 0;
     ctx_inputSeqLen := 0 |}.

Definition demo_args : CtxArgs :=
  {| a_layers := 2; a_hiddenSize := 4; a_attHeadNum := 2; a_kvHeadNum := 2; a_imSize := 8;
     a_act := "silu"; a_vocabSize := 10; a_embeddingSize := 4; a_maxPositions := 64;
     a_maxPosEmbed := 64; a_maxSeqLength := -1 |}.

Definition demo_config : Config :=
  {| head_num := 2; kv_head_num := 2; size_per_head := 2; inter_size := 8; num_layer := 32;
     vocab_size := 10; max_pos_seq_len := 64; model_max_length := 64; seq_length := -1;
     activation_type := "silu" |}.

(** A decoder of two local layers at stage [ppRank] of [ppSize], alone in its
    row communicator, with a session already behind it. *)
Definition demo_decoder (ppSize ppRank : Z) (sharing : bool) (prefixLen : Z) : Machine Z Z :=
  {| messenger := {| getSize := 1; getRank := 0; getColor := ppRank |};
     pp_size := ppSize; pp_rank := ppRank; tp_size := 1; tp_rank := 0;
     context := Some demo_context; initSeqLen := 7; accSeqLen := 9;
     prefixSeqLen := prefixLen; prefixSharing := sharing; maskSize := 0;
     decoders := [0; 1]; heap := demo_heap; log := [] |}.

Definition demo_ids : IntArray := fun i => i.

(** A prompt of 5 tokens for 2 users and 3 beams, then two decoding steps. *)
Definition demo_first : ForwardArgs :=
  {| f_ids := demo_ids; f_dims := (2, 3, 5); f_step := 0; f_logitsAll := false |}.
Definition demo_rest : list ForwardArgs :=
  [ {| f_ids := demo_ids; f_dims := (2, 3, 1); f_step := 1; f_logitsAll := false |};
    {| f_ids := demo_ids; f_dims := (2, 3, 1); f_step := 2; f_logitsAll := false |} ].

(** The two rows of a cache swapped. *)
Definition demo_swap : IntArray := fun i => 1 - i.


(** A decoder whose context is set for 2 rows of 5 tokens. *)
Definition demo_sized_decoder : Machine Z Z :=
  set_context Z Z (Some (DecoderContext_resize demo_context 2 5 0)) (demo_decoder 1 0 false 0).

(** A layer of hidden size 8 with two KV heads of size 2, stored as gate, up
    and down projections; the QKV bias file is absent, the other optional
    files are complete. *)
Definition demo_sizes : Weights.Sizes :=
  {| Weights.hiddenSize := 8; Weights.imSize := 16; Weights.kvHeadNum := 2;
     Weights.attHeadSize := 2; Weights.swiglu := true |}.

Definition demo_host : Weights.Host :=
  {| Weights.allocates := fun _ => true;
     Weights.fileExists := fun _ => false;
     Weights.loadWeight := fun f size =>
       match f with Weights.qkv_bias => 0 | _ => size end |}.

(** The same layer where the file of the first layer norm's bias holds 3 of
    its 8 elements, and the optional files before it are absent. *)
Definition demo_cut_host : Weights.Host :=
  {| Weights.allocates := fun _ => true;
     Weights.fileExists := fun _ => false;
     Weights.loadWeight := fun f size =>
       match f with Weights.input_layernorm_bias => 3 | _ => 0 end |}.

(** Gate and up weights of 2 rows and 2 columns with one scale, zero and sum
    each, and zeroed storage for the result. *)
Definition demo_gate : Mlp.Matrix Z := {| Mlp.Rows := 2; Mlp.Cols := 2; Mlp.Data := [1; 2; 3; 4] |}.
Definition demo_up : Mlp.Matrix Z := {| Mlp.Rows := 2; Mlp.Cols := 2; Mlp.Data := [5; 6; 7; 8] |}.
Definition demo_vector (x : Z) : Mlp.Vector Z := {| Mlp.Size := 1; Mlp.VData := [x] |}.

(** Eight processes on two machines: world ranks 0 to 3 on the first, 4 to 7
    on the second. *)
Definition demo_hostname (r : Z) : string := if r <? 4 then "node-a" else "node-b".

(** * Properties *)

(** ** Arithmetic of [int] *)

Lemma wrap_small z : Int.in_range z -> Int.wrap z = z.
Proof.
  unfold Int.in_range, Int.wrap, Int.min_signed, Int.max_signed, Int.modulus.
  intros H. rewrite Z.mod_small by lia. lia.
Qed.

Lemma wrap_range z : Int.in_range (Int.wrap z).
Proof.
  unfold Int.in_range, Int.wrap, Int.min_signed, Int.max_signed, Int.modulus.
  pose proof (Z.mod_pos_bound (z - -2147483648) 4294967296 eq_refl). lia.
Qed.

Lemma add_small a b : Int.in_range (a + b) -> Int.add a b = a + b.
Proof. apply wrap_small. Qed.

Lemma sub_small a b : Int.in_range (a - b) -> Int.sub a b = a - b.
Proof. apply wrap_small. Qed.

Lemma mul_small a b : Int.in_range (a * b) -> Int.mul a b = a * b.
Proof. apply wrap_small. Qed.

Lemma div_pos a b : 0 <= a -> 0 < b -> Int.div a b = Some (a / b).
Proof.
  intros Ha Hb. unfold Int.div.
  destruct (Z.eqb_spec b 0); [lia|].
  destruct (Z.eqb_spec b (-1)); [lia|].
  rewrite andb_false_r. simpl. now rewrite Z.quot_div_nonneg by lia.
Qed.

Lemma rem_pos a b : 0 <= a -> 0 < b -> Int.rem a b = Some (a mod b).
Proof.
  intros Ha Hb. unfold Int.rem.
  destruct (Z.eqb_spec b 0); [lia|].
  destruct (Z.eqb_spec b (-1)); [lia|].
  rewrite andb_false_r. simpl. now rewrite Z.rem_mod_nonneg by lia.
Qed.

Lemma in_range_nonneg z : 0 <= z <= Int.max_signed -> Int.in_range z.
Proof. unfold Int.in_range, Int.min_signed. lia. Qed.

(** ** Filtering a range of ranks *)

Lemma filter_all {A} (P : A -> Prop) `{!forall x, Decision (P x)} (l : list A) :
  Forall P l -> filter P l = l.
Proof.
  induction 1 as [|x l Hx _ IH]; [reflexivity|].
  rewrite filter_cons_True by assumption. now rewrite IH.
Qed.

Lemma filter_none {A} (P : A -> Prop) `{!forall x, Decision (P x)} (l : list A) :
  Forall (fun x => ~ P x) l -> filter P l = [].
Proof.
  induction 1 as [|x l Hx _ IH]; [reflexivity|].
  now rewrite filter_cons_False by assumption.
Qed.

Lemma filter_seqZ_interval (P : Z -> Prop) `{!forall x, Decision (P x)} (lo len n : Z) :
  0 <= lo -> 0 <= len -> lo + len <= n ->
  (forall r, 0 <= r < n -> (P r <-> lo <= r < lo + len)) ->
  filter P (seqZ 0 n) = seqZ lo len.
Proof.
  intros Hlo Hlen Hn HP.
  replace n with (lo + (len + (n - lo - len))) by lia.
  rewrite seqZ_app by lia. rewrite seqZ_app by lia.
  rewrite !filter_app. simpl.
  rewrite (filter_none P (seqZ 0 lo)).
  2:{ apply Forall_seqZ. intros r Hr HPr. apply HP in HPr; lia. }
  rewrite (filter_all P (seqZ lo len)).
  2:{ apply Forall_seqZ. intros r Hr. apply HP; lia. }
  rewrite (filter_none P (seqZ (lo + len) _)).
  2:{ apply Forall_seqZ. intros r Hr HPr. apply HP in HPr; lia. }
  now rewrite app_nil_r.
Qed.

Lemma MPI_Comm_rank_seqZ (lo len me : Z) :
  lo <= me < lo + len -> Comm.MPI_Comm_rank (seqZ lo len) me = me - lo.
Proof.
  remember (Z.to_nat (me - lo)) as k eqn:Hk.
  revert lo len Hk. induction k as [|k IH]; intros lo len Hk Hme.
  - assert (me = lo) by lia. subst me.
    rewrite seqZ_cons by lia. simpl. rewrite Z.eqb_refl. lia.
  - rewrite seqZ_cons by lia. simpl.
    destruct (Z.eqb_spec lo me); [lia|].
    rewrite IH by lia. lia.
Qed.

Lemma div_interval (r tp c : Z) : 0 < tp -> (r / tp = c <-> c * tp <= r < c * tp + tp).
Proof.
  intros Htp. split.
  - intros <-. pose proof (Z.mul_div_le r tp Htp).
    pose proof (Z.mul_succ_div_gt r tp Htp). lia.
  - intros H. symmetry. apply (Z.div_unique r tp c (r - c * tp)); lia.
Qed.

(** ** C3: the pipeline colour and the row communicator *)

(** C3. With [W] processes, world rank [R] and [P] pipeline stages, [init]
    returns the colour [R / (W / P)] and a row communicator made of exactly
    the world ranks of that colour, a contiguous block in which the process
    has rank [R - color * (W / P)]; for [W = 8], [P = 2] the row communicator
    has 4 members, ranks 0-3 have colour 0 and form one group, ranks 4-7 have
    colour 1 and form the other. *)
Theorem init_color_and_row_comm (W R P : Z) :
  0 < P -> P <= W -> 0 <= R < W ->
  exists out, Comm.init W R P = Some out
    /\ Comm.world_color out = R / (W / P)
    /\ (forall r, r ∈ Comm.row_comm out <-> 0 <= r < W /\ r / (W / P) = R / (W / P))
    /\ Comm.row_comm out
       = seqZ (R / (W / P) * (W / P)) (Z.min (W / P) (W - R / (W / P) * (W / P)))
    /\ Comm.world_size out = Z.of_nat (length (Comm.row_comm out))
    /\ Comm.world_rank out = R - R / (W / P) * (W / P)
    /\ (W = 8 -> P = 2 ->
        Comm.world_size out = 4
        /\ Comm.world_color out = (if R <? 4 then 0 else 1)
        /\ Comm.row_comm out = (if R <? 4 then [0; 1; 2; 3] else [4; 5; 6; 7])).
Proof.
  intros HP HW HR.
  assert (Htp : 0 < W / P) by (apply Z.div_str_pos; lia).
  set (tp := W / P) in *. set (c := R / tp).
  assert (Hc : c * tp <= R < c * tp + tp) by (apply div_interval; [lia|reflexivity]).
  assert (Hc0 : 0 <= c) by (apply Z.div_pos; lia).
  assert (Hrow : Comm.MPI_Comm_split W (fun r => default 0 (Int.div r tp)) c
                 = seqZ (c * tp) (Z.min tp (W - c * tp))).
  { unfold Comm.MPI_Comm_split.
    apply filter_seqZ_interval; [nia|lia|lia|].
    intros r Hr. rewrite div_pos by lia. simpl.
    rewrite div_interval by lia. lia. }
  unfold Comm.init. rewrite (div_pos W P) by lia. simpl.
  rewrite (div_pos R (W / P)) by lia. simpl. fold tp. fold c.
  eexists; split; [reflexivity|]. simpl. rewrite Hrow.
  split; [reflexivity|]. split.
  { intros r. rewrite elem_of_seqZ. rewrite (div_interval r tp c) by lia. nia. }
  split; [reflexivity|]. split; [reflexivity|]. split.
  { rewrite MPI_Comm_rank_seqZ by lia. reflexivity. }
  intros -> ->. subst tp c. change (8 / 2) with 4 in *.
  unfold Comm.MPI_Comm_size. rewrite length_seqZ.
  assert (HR4 : R / 4 = if R <? 4 then 0 else 1).
  { destruct (Z.ltb_spec R 4).
    - apply Z.div_small; lia.
    - symmetry. apply (Z.div_unique R 4 1 (R - 4)); lia. }
  rewrite HR4. destruct (R <? 4); split; try reflexivity; split; reflexivity.
Qed.

(** ** More on [init]: the coordinates of a process *)

(** What [init] returns whenever its two divisions are defined. *)
Lemma init_run (W R P : Z) :
  0 < P -> P <= W -> 0 <= R < W ->
  let tp := W / P in
  let c := R / tp in
  Comm.init W R P
  = Some (Comm.InitOut (Z.min tp (W - c * tp)) (R - c * tp) c
            (seqZ (c * tp) (Z.min tp (W - c * tp)))).
Proof.
  intros HP HW HR tp c.
  assert (Htp : 0 < tp) by (apply Z.div_str_pos; lia).
  assert (Hc : c * tp <= R < c * tp + tp) by (apply div_interval; [lia|reflexivity]).
  assert (Hc0 : 0 <= c) by (apply Z.div_pos; lia).
  assert (Hrow : Comm.MPI_Comm_split W (fun r => default 0 (Int.div r tp)) c
                 = seqZ (c * tp) (Z.min tp (W - c * tp))).
  { unfold Comm.MPI_Comm_split.
    apply filter_seqZ_interval; [nia|lia|lia|].
    intros r Hr. rewrite div_pos by lia. simpl.
    rewrite div_interval by lia. lia. }
  unfold Comm.init. rewrite (div_pos W P) by lia. simpl.
  rewrite (div_pos R (W / P)) by lia. simpl. fold tp. fold c.
  rewrite Hrow. unfold Comm.MPI_Comm_size. rewrite length_seqZ.
  rewrite MPI_Comm_rank_seqZ by lia.
  f_equal. f_equal. lia.
Qed.

(** X1. When the number of stages [P] divides the number of processes [W],
    [init] gives every process a stage [color] in [0, P) and a rank
    [world_rank] in [0, W / P) within a row communicator of exactly [W / P]
    members, and the world rank is recovered as
    [color * (W / P) + world_rank]: two processes never get the same pair. *)
Theorem init_coordinates (W R P : Z) :
  0 < P -> W mod P = 0 -> 0 <= R < W ->
  exists out, Comm.init W R P = Some out
    /\ 0 <= Comm.world_color out < P
    /\ Comm.world_size out = W / P
    /\ 0 <= Comm.world_rank out < W / P
    /\ R = Comm.world_color out * (W / P) + Comm.world_rank out
    /\ forall R' out', 0 <= R' < W -> Comm.init W R' P = Some out' ->
         Comm.world_color out' = Comm.world_color out ->
         Comm.world_rank out' = Comm.world_rank out -> R' = R.
Proof.
  intros HP Hdiv HR.
  assert (HWP : W = P * (W / P)) by (apply Z.div_exact; lia).
  assert (Htp : 0 < W / P) by nia.
  assert (HPW : P <= W) by nia.
  pose proof (init_run W R P HP HPW HR) as Hrun. cbv zeta in Hrun.
  set (tp := W / P) in *. set (c := R / tp) in *.
  assert (Hc : c * tp <= R < c * tp + tp) by (apply div_interval; [lia|reflexivity]).
  assert (Hc0 : 0 <= c) by (apply Z.div_pos; lia).
  assert (HcP : c < P) by nia.
  eexists. split; [exact Hrun|]. simpl.
  split; [lia|]. split; [nia|]. split; [lia|]. split; [lia|].
  intros R' out' HR' Hrun' Hcol Hrk.
  rewrite (init_run W R' P HP HPW HR') in Hrun'. cbv zeta in Hrun'.
  injection Hrun' as <-. simpl in Hcol, Hrk. fold tp in Hcol, Hrk.
  rewrite Hcol in Hrk. lia.
Qed.

(** X2. When [P] does not divide [W], the colours run past the stages: the
    process of the highest world rank gets a colour that is [P] or more, the
    index of a pipeline stage that does not exist. *)
Theorem init_color_beyond_stages (W P : Z) :
  0 < P -> P <= W -> W mod P <> 0 ->
  exists out, Comm.init W (W - 1) P = Some out /\ P <= Comm.world_color out.
Proof.
  intros HP HPW Hrem.
  assert (HR : 0 <= W - 1 < W) by lia.
  pose proof (init_run W (W - 1) P HP HPW HR) as Hrun. cbv zeta in Hrun.
  eexists. split; [exact Hrun|]. simpl.
  assert (Htp : 0 < W / P) by (apply Z.div_str_pos; lia).
  pose proof (Z.div_mod W P ltac:(lia)) as HW.
  pose proof (Z.mod_pos_bound W P HP) as Hb.
  apply Z.div_le_lower_bound; [lia|]. nia.
Qed.

(** X3. For a process count [W], a world rank below it and a stage count
    [P] that is not negative, [init] fails on an integer division by zero
    exactly when [P] is 0 or exceeds [W] (then [W / P] is 0). *)
Theorem init_division_by_zero (W R P : Z) :
  0 <= R < W -> 0 <= P ->
  (Comm.init W R P = None <-> P = 0 \/ W < P).
Proof.
  intros HR HP. split.
  - intros Hnone.
    destruct (Z.eq_dec P 0) as [|HP0]; [now left|]. right.
    destruct (Z.lt_ge_cases W P) as [|HPW]; [assumption|]. exfalso.
    rewrite (init_run W R P) in Hnone by lia. discriminate.
  - intros [-> | HWP].
    + reflexivity.
    + unfold Comm.init. rewrite (div_pos W P) by lia. simpl.
      rewrite Z.div_small by lia. reflexivity.
Qed.

(** ** Running the monad *)

Section Properties.
Context {elt cell : Type}.
Variable extern : list Event -> Heap elt cell -> Heap elt cell.
Variable ATTN_MLP_PARALLEL : bool.
Variable Env_getPipeline : Z.
Variable DecoderContext_new : CtxArgs -> Z -> Z -> DecoderContext.
Variables splitOffset splitSize : Z.

#[local] Existing Instances M_ret M_bind.

Local Abbreviation Mach := (Machine elt cell).
Local Abbreviation Mon := (M elt cell).

Lemma bind_Ok {A B} (c : Mon A) (k : A -> Mon B) (m m' : Mach) (a : A) :
  c m = Ok a m' -> (c ≫= k) m = k a m'.
Proof. intros H. unfold mbind, M_bind. now rewrite H. Qed.

Lemma bind_gets {A B} (f : Mach -> A) (k : A -> Mon B) (m : Mach) :
  (gets elt cell f ≫= k) m = k (f m) m.
Proof. reflexivity. Qed.

Lemma bind_modify {B} (f : Mach -> Mach) (k : unit -> Mon B) (m : Mach) :
  (modify elt cell f ≫= k) m = k tt (f m).
Proof. reflexivity. Qed.

Lemma bind_call {B} (e : Event) (k : unit -> Mon B) (m : Mach) :
  (call extern e ≫= k) m = k tt (after_call extern e m).
Proof. reflexivity. Qed.

Lemma bind_ret {A B} (a : A) (k : A -> Mon B) (m : Mach) :
  (mret a ≫= k) m = k a m.
Proof. reflexivity. Qed.

Lemma bind_lift {A B} (o : option A) (a : A) (k : A -> Mon B) (m : Mach) :
  o = Some a -> (lift elt cell o ≫= k) m = k a m.
Proof. intros ->. reflexivity. Qed.

Lemma bind_getContext {B} (k : DecoderContext -> Mon B) (m : Mach) (c : DecoderContext) :
  context m = Some c -> (getContext ≫= k) m = k c m.
Proof. intros H. unfold mbind, M_bind, getContext. now rewrite H. Qed.

Lemma bind_assoc {A B C} (c : Mon A) (f : A -> Mon B) (g : B -> Mon C) (m : Mach) :
  ((c ≫= f) ≫= g) m = (c ≫= fun x => f x ≫= g) m.
Proof. unfold mbind, M_bind. destruct (c m); reflexivity. Qed.

Lemma call_run (e : Event) (m : Mach) : call extern e m = Ok tt (after_call extern e m).
Proof. reflexivity. Qed.

Lemma ret_run {A} (a : A) (m : Mach) : (mret a : Mon A) m = Ok a m.
Proof. reflexivity. Qed.

Ltac mstep :=
  repeat (first [ rewrite bind_assoc | rewrite bind_gets | rewrite bind_modify
                | rewrite bind_call | rewrite bind_ret | rewrite call_run
                | rewrite ret_run ];
          cbv beta).

(** ** C9: asking for the context again *)

Lemma same_shape_spec c a s : same_shape c a s = true <-> shape_matches c a s.
Proof.
  unfold same_shape, shape_matches. rewrite !andb_true_iff, !Z.eqb_eq. tauto.
Qed.

(** C9. When a decoder context already exists, [getDecoderContext] does one
    of two things. If the five shape parameters it compares (hidden size,
    attention heads, KV heads, intermediate size, split index) match the
    existing context, it returns that context and leaves the [context] field
    as it was. Otherwise it exits the process with code -1. On neither path
    is the constructor of DecoderContext called. *)
Theorem getDecoderContext_existing (a : CtxArgs) (m : Mach) (c : DecoderContext) :
  context m = Some c ->
  exists m' es,
    context m' = Some c
    /\ map ev (log m') = map ev (log m) ++ es
    /\ Forall (fun e => ~ constructs e) es
    /\ ((shape_matches c a (getRank (messenger m))
         /\ getDecoderContext extern Env_getPipeline DecoderContext_new a m = Ok c m')
        \/ (~ shape_matches c a (getRank (messenger m))
            /\ getDecoderContext extern Env_getPipeline DecoderContext_new a m
               = Exit (-1) m')).
Proof.
  intros Hc. unfold getDecoderContext. mstep. cbn. rewrite Hc.
  destruct (same_shape c a (getRank (messenger m))) eqn:Hs.
  - eexists _, _. split; [|split; [|split; [|left; split; [|reflexivity]]]].
    + cbn. exact Hc.
    + cbn. rewrite map_app. reflexivity.
    + repeat constructor. cbn. tauto.
    + now apply same_shape_spec.
  - mstep. eexists _, _. split; [|split; [|split; [|right; split; [|reflexivity]]]].
    + cbn. exact Hc.
    + cbn. rewrite !map_app, <- app_assoc. reflexivity.
    + repeat constructor; cbn; tauto.
    + rewrite <- same_shape_spec. congruence.
Qed.

(** ** C4: the layers of a pipeline stage *)

Lemma new_decoders_run (l : list Z) (m : Mach) :
  exists m',
    forM_ elt cell l (fun i =>
      call extern (NewDecoder i);;
      call extern (SetDecoderWeights i);;
      modify elt cell (fun m => set_decoders elt cell (decoders m ++ [i]) m)) m = Ok tt m'
    /\ decoders m' = decoders m ++ l
    /\ messenger m' = messenger m /\ pp_size m' = pp_size m /\ pp_rank m' = pp_rank m.
Proof.
  revert m. induction l as [|i l IH]; intros m.
  - exists m. cbn. rewrite app_nil_r. auto.
  - cbn [forM_]. mstep.
    destruct (IH (set_decoders elt cell
                    (decoders (after_call extern (SetDecoderWeights i)
                                 (after_call extern (NewDecoder i) m)) ++ [i])
                    (after_call extern (SetDecoderWeights i)
                       (after_call extern (NewDecoder i) m))))
      as (m' & Hrun & Hd & Hm & Hs & Hr).
    exists m'. split; [exact Hrun|]. cbn in Hd, Hm, Hs, Hr.
    rewrite Hd, <- app_assoc. auto.
Qed.

Lemma stage_blocks (per : Z) (n : nat) :
  0 <= per ->
  concat (map (fun r => seqZ (r * per) per) (seqZ 0 (Z.of_nat n))) = seqZ 0 (Z.of_nat n * per).
Proof.
  intros Hper. induction n as [|n IH].
  - reflexivity.
  - rewrite seqZ_S, map_app, concat_app, IH. cbn [map concat]. rewrite app_nil_r.
    replace (Z.of_nat (S n) * per) with (Z.of_nat n * per + per) by lia.
    rewrite seqZ_app by lia. reflexivity.
Qed.

Lemma constructor_run (cfg : Config) (msgr : Messenger) (h : Heap elt cell)
    (l : list (Call elt cell)) :
  0 <= num_layer cfg <= Int.max_signed ->
  0 < Env_getPipeline ->
  0 <= getColor msgr < Env_getPipeline ->
  let L := num_layer cfg in
  let P := Env_getPipeline in
  (exists m',
      CommonDecoder_new extern Env_getPipeline DecoderContext_new cfg (fresh msgr h l)
      = Ok tt m'
      /\ pp_size m' = P /\ pp_rank m' = getColor msgr
      /\ decoders m' = seqZ (getColor msgr * (L / P)) (L / P)
      /\ forall i, i ∈ decoders m'
           <-> getColor msgr * (L / P) <= i < (getColor msgr + 1) * (L / P)).
Proof.
  intros HL HP Hr L P.
  assert (Hper : 0 <= L / P) by (apply Z.div_pos; lia).
  assert (HperL : P * (L / P) <= L) by (apply Z.mul_div_le; lia).
  assert (Hmul : Int.mul (getColor msgr) (L / P) = getColor msgr * (L / P)).
  { apply mul_small, in_range_nonneg. nia. }
  assert (Hadd : Int.add (getColor msgr * (L / P)) (L / P) = getColor msgr * (L / P) + L / P).
  { apply add_small, in_range_nonneg. nia. }
  unfold CommonDecoder_new, getDecoderContext. mstep. cbn. mstep. cbn.
  rewrite (bind_lift _ _ _ _ (rem_pos _ _ (proj1 HL) HP)).
  fold L P.
  destruct (negb (L mod P =? 0)); mstep;
    rewrite (bind_lift _ _ _ _ (div_pos _ _ (proj1 HL) HP)); fold L P;
    rewrite Hmul, Hadd;
    replace (getColor msgr * (L / P) + L / P - getColor msgr * (L / P)) with (L / P) by lia;
    match goal with
    | |- context [forM_ _ _ ?l ?f ≫= _] =>
        match goal with
        | |- exists m', mbind _ _ ?m0 = _ /\ _ =>
            destruct (new_decoders_run l m0) as (m3 & Hm3 & Hd3 & Hmsg3 & Hs3 & Hr3)
        end
    end;
    rewrite (bind_Ok _ _ _ _ _ Hm3); mstep;
    (eexists; split; [reflexivity|]); cbn; cbn in Hd3, Hs3, Hr3;
    rewrite Hd3, Hs3, Hr3; cbn;
    (split; [reflexivity|]); (split; [reflexivity|]); (split; [reflexivity|]);
    intros i; rewrite elem_of_seqZ; lia.
Qed.

(** C4. With [L] layers in the configuration and [P] pipeline stages, the
    constructor of a process whose pipeline rank is [r] (0 <= r < P) returns
    with its [decoders] built for exactly the layers
    [r * (L / P), ..., (r + 1) * (L / P) - 1], in this order. When [P]
    divides [L], every stage owns [L / P] layers and the stages' lists,
    taken in stage order, are the layers [0, ..., L - 1]: no gap, no overlap. *)
Theorem constructor_layer_range (cfg : Config) :
  0 <= num_layer cfg <= Int.max_signed ->
  0 < Env_getPipeline ->
  let L := num_layer cfg in
  let P := Env_getPipeline in
  let construct := fun msgr h l =>
    CommonDecoder_new extern Env_getPipeline DecoderContext_new cfg (fresh msgr h l) in
  (forall msgr h l, 0 <= getColor msgr < P ->
     exists m', construct msgr h l = Ok tt m'
       /\ pp_size m' = P /\ pp_rank m' = getColor msgr
       /\ decoders m' = seqZ (getColor msgr * (L / P)) (L / P)
       /\ forall i, i ∈ decoders m'
            <-> getColor msgr * (L / P) <= i < (getColor msgr + 1) * (L / P))
  /\ (L mod P = 0 ->
      forall tpSize tpRank h l,
        let stage := fun r =>
          construct {| getSize := tpSize; getRank := tpRank; getColor := r |} h l in
        (forall r, 0 <= r < P -> Z.of_nat (length (assigned_layers (stage r))) = L / P)
        /\ concat (map (fun r => assigned_layers (stage r)) (seqZ 0 P)) = seqZ 0 L).
Proof.
  intros HL HP L P construct. split.
  - intros msgr h l Hr. apply constructor_run; assumption.
  - intros Hdiv tpSize tpRank h l stage.
    assert (Hper : 0 <= L / P) by (apply Z.div_pos; lia).
    assert (Hstage : forall r, 0 <= r < P -> assigned_layers (stage r) = seqZ (r * (L / P)) (L / P)).
    { intros r Hr. unfold stage, construct.
      destruct (constructor_run cfg {| getSize := tpSize; getRank := tpRank; getColor := r |}
                  h l HL HP) as (m' & Hrun & _ & _ & Hd & _); [exact Hr|].
      rewrite Hrun. exact Hd. }
    split.
    + intros r Hr. rewrite Hstage by assumption. rewrite length_seqZ. lia.
    + rewrite (map_ext_in _ (fun r => seqZ (r * (L / P)) (L / P))).
      2:{ intros r Hr. apply Hstage. apply list_elem_of_In, elem_of_seqZ in Hr. lia. }
      replace P with (Z.of_nat (Z.to_nat P)) at 1 by lia.
      rewrite stage_blocks by assumption.
      f_equal. rewrite Z2Nat.id by lia.
      pose proof (Z.div_mod L P ltac:(lia)). lia.
Qed.


(** ** Runs of external calls *)

Lemma same_core_refl (m : Mach) : same_core m m.
Proof. repeat split. Qed.

Lemma same_core_trans (m1 m2 m3 : Mach) : same_core m1 m2 -> same_core m2 m3 -> same_core m1 m3.
Proof. unfold same_core. intuition congruence. Qed.

Lemma after_calls_app es1 es2 (m : Mach) :
  after_calls extern (es1 ++ es2) m = after_calls extern es2 (after_calls extern es1 m).
Proof. apply fold_left_app. Qed.

Lemma after_calls_core es (m : Mach) : same_core m (after_calls extern es m).
Proof.
  revert m. induction es as [|e es IH]; intros m; [apply same_core_refl|].
  cbn [after_calls fold_left]. eapply same_core_trans; [|apply IH].
  repeat split.
Qed.

Lemma after_call_events e (m : Mach) :
  map ev (log (after_call extern e m)) = map ev (log m) ++ [e].
Proof. cbn. now rewrite map_app. Qed.

Lemma after_calls_events es (m : Mach) :
  map ev (log (after_calls extern es m)) = map ev (log m) ++ es.
Proof.
  revert m. induction es as [|e es IH]; intros m; cbn [after_calls fold_left].
  - now rewrite app_nil_r.
  - unfold after_calls in IH. rewrite IH. cbn. rewrite map_app, <- app_assoc. reflexivity.
Qed.

Lemma after_call_synced e (m : Mach) : synced (after_call extern e m).
Proof. eexists _, _. split; reflexivity. Qed.

Lemma after_calls_synced es (m : Mach) : synced m -> synced (after_calls extern es m).
Proof.
  revert m. induction es as [|e es IH]; intros m Hm; [exact Hm|].
  cbn [after_calls fold_left]. apply IH, after_call_synced.
Qed.

Ltac reify_calls m0 t :=
  lazymatch t with
  | m0 => constr:(@nil Event)
  | after_call _ ?e ?t' => let es := reify_calls m0 t' in constr:(es ++ [e])
  end.

Lemma div_total a b : 0 < b -> exists q, Int.div a b = Some q.
Proof.
  intros Hb. unfold Int.div.
  destruct (Z.eqb_spec b 0); [lia|]. destruct (Z.eqb_spec b (-1)); [lia|].
  rewrite andb_false_r. simpl. eauto.
Qed.

Lemma forwardLayer_run (step u beam S emb out count S' past H i : Z) (m : Mach) (dec : Z) :
  decoders m !! Z.to_nat i = Some dec ->
  exists es,
    forwardLayer extern ATTN_MLP_PARALLEL step u beam S emb out count S' past H i m
    = Ok tt (after_calls extern es m)
    /\ Forall quiet es
    /\ ((step =? 0) && prefixSharing m = true ->
        exists rest,
          es = ExpandPrefixCache i u (prefixSeqLen m)
               :: ForwardAttention i dec false (act_ptr emb) (act_ptr out) (tmp_ptr 0)
                    S' past true true
               :: rest).
Proof.
  intros Hdec. unfold forwardLayer, decoderLayer.
  destruct (step =? 0) eqn:Hstep, (prefixSharing m) eqn:Hsh, (beam >? 1) eqn:Hbeam,
    ATTN_MLP_PARALLEL eqn:Hpar, (getSize (messenger m) >? 1) eqn:Hw;
    mstep; rewrite ?Hsh; cbn [andb negb]; mstep; cbn [decoders after_call set_log set_heap];
    rewrite (bind_lift _ _ _ _ Hdec); mstep; cbn [messenger after_call set_log set_heap];
    rewrite ?Hw; cbn [negb]; mstep;
    match goal with
    | |- exists es, Ok tt ?t = Ok tt (after_calls _ es ?m0) /\ _ =>
        let es := reify_calls m0 t in
        let es' := eval cbn [app] in es in
        exists es'
    end;
    (split; [reflexivity|]); (split; [repeat constructor|]);
    try discriminate; intros _; eexists; reflexivity.
Qed.

Lemma layers_run (step u beam S emb out count S' past H : Z) (idxs : list Z) (m : Mach) :
  Forall (fun i => is_Some (decoders m !! Z.to_nat i)) idxs ->
  exists es,
    forM_ elt cell idxs
      (forwardLayer extern ATTN_MLP_PARALLEL step u beam S emb out count S' past H) m
    = Ok tt (after_calls extern es m)
    /\ Forall quiet es
    /\ ((step =? 0) && prefixSharing m = true ->
        forall i, i ∈ idxs ->
          exists dec before rest,
            decoders m !! Z.to_nat i = Some dec
            /\ es = before
                    ++ ExpandPrefixCache i u (prefixSeqLen m)
                    :: ForwardAttention i dec false (act_ptr emb) (act_ptr out) (tmp_ptr 0)
                         S' past true true
                    :: rest).
Proof.
  revert m. induction idxs as [|i idxs IH]; intros m Hall.
  - exists []. split; [reflexivity|]. split; [constructor|].
    intros _ i Hi. inversion Hi.
  - inversion Hall as [|? ? [dec Hdec] Hrest]; subst.
    destruct (forwardLayer_run step u beam S emb out count S' past H i m dec Hdec)
      as (es1 & Hrun1 & Hq1 & Hfirst).
    destruct (after_calls_core es1 m) as (_ & _ & _ & _ & _ & _ & Hpsl & Hsh & Hd).
    destruct (IH (after_calls extern es1 m)) as (es2 & Hrun2 & Hq2 & Hothers).
    { rewrite Hd. exact Hrest. }
    exists (es1 ++ es2). cbn [forM_]. rewrite (bind_Ok _ _ _ _ _ Hrun1), Hrun2.
    rewrite after_calls_app. split; [reflexivity|].
    split; [apply Forall_app; auto|].
    intros Hcond j Hj. apply elem_of_cons in Hj as [->|Hj].
    + destruct (Hfirst Hcond) as (rest & ->).
      exists dec, [], (rest ++ es2). split; [exact Hdec|reflexivity].
    + rewrite Hsh, Hpsl, Hd in Hothers.
      destruct (Hothers Hcond j Hj) as (dec' & before & rest & Hdec' & ->).
      exists dec', (es1 ++ before), rest. split; [exact Hdec'|].
      now rewrite <- app_assoc.
Qed.

Lemma wrap_length_le (n : nat) : Int.wrap (Z.of_nat n) <= Z.of_nat n.
Proof.
  destruct (Z_le_gt_dec (Z.of_nat n) Int.max_signed) as [Hle|Hgt].
  - rewrite wrap_small; [lia|]. apply in_range_nonneg. lia.
  - pose proof (wrap_range (Z.of_nat n)) as [_ Hmax]. lia.
Qed.

Lemma local_layers_in_range (decs : list Z) :
  Forall (fun i => is_Some (decs !! Z.to_nat i)) (seqZ 0 (Int.wrap (Z.of_nat (length decs)))).
Proof.
  apply Forall_seqZ. intros i Hi. apply lookup_lt_is_Some.
  pose proof (wrap_length_le (length decs)). lia.
Qed.

Lemma ctx_resize_run (B S past : Z) (m : Mach) (c : DecoderContext) :
  context m = Some c ->
  ctx_resize extern B S past m
  = Ok tt (set_context elt cell (Some (DecoderContext_resize c B S past))
             (after_call extern (CtxResize B S past) m)).
Proof. intros Hc. unfold ctx_resize. rewrite (bind_getContext _ _ _ Hc). now mstep. Qed.

Lemma prepareBuffers_run (u beam : Z) (la pre : bool) (m : Mach) (c : DecoderContext) :
  context m = Some c -> 0 < ctx_hiddenSize c -> 0 < getSize (messenger m) ->
  exists m' es,
    prepareBuffers extern u beam la pre m = Ok tt m'
    /\ same_core m m'
    /\ map ev (log m') = map ev (log m) ++ es
    /\ Forall quiet es.
Proof.
  intros Hc HH Hw. unfold prepareBuffers. rewrite (bind_getContext _ _ _ Hc). mstep.
  set (a := Int.mul _ (ctx_vocabSize c)).
  destruct (div_total a (ctx_hiddenSize c) HH) as (q & Hq).
  destruct (div_total (Int.sub (Int.add (ctx_kvHeadNum c) (getSize (messenger m))) 1)
              (getSize (messenger m)) Hw) as (hps & Hhps).
  unfold getAttnMask.
  destruct (a >? _); rewrite ?bind_assoc, ?(bind_lift _ _ _ _ Hq); mstep;
    cbn [maskSize after_call set_log set_heap];
    (destruct (maskSize m <? _); mstep;
     cbn [messenger after_call set_log set_heap set_maskSize];
     rewrite (bind_lift _ _ _ _ Hhps); mstep;
     eexists _, _; (split; [reflexivity|]); (split; [repeat split|]);
     cbn; rewrite ?map_app; cbn; rewrite <- ?app_assoc;
     (split; [reflexivity|]); repeat constructor).
Qed.

Lemma firstStep_run (ids : IntArray) (u beam B S past0 S0 : Z) (la : bool)
    (m : Mach) (c : DecoderContext) :
  context m = Some c -> 0 < ctx_hiddenSize c -> 0 < getSize (messenger m) ->
  let psl := prefixSeqLen m in
  let split := splitPrefix ids u S psl (Int.sub S psl) in
  exists m' c' es,
    firstStep extern ids u beam B S past0 S0 la m
    = Ok (if prefixSharing m then (snd split, psl, Int.sub S psl) else (ids, past0, S0)) m'
    /\ kept m m'
    /\ initSeqLen m' = S /\ accSeqLen m' = 0
    /\ context m' = Some c' /\ ctx_hiddenSize c' = ctx_hiddenSize c
    /\ map ev (log m')
       = map ev (log m)
         ++ (if prefixSharing m
             then [GetPositionIds (fst split) B psl 0; CtxResize B (Int.sub S psl) psl]
             else [])
         ++ es
    /\ Forall quiet es.
Proof.
  intros Hc HH Hw psl split. unfold firstStep. mstep.
  cbn [prefixSharing prefixSeqLen set_accSeqLen set_initSeqLen].
  destruct (prefixSharing m) eqn:Hsh.
  - mstep. cbn [prefixSeqLen set_accSeqLen set_initSeqLen]. fold psl. fold split.
    destruct split as [prefixIDs newIDs] eqn:Hsplit. mstep.
    match goal with
    | |- exists m' c' es, mbind _ (ctx_resize _ ?b ?s ?p) ?m0 = _ /\ _ =>
        rewrite (bind_Ok _ _ _ _ _ (ctx_resize_run b s p m0 c Hc))
    end.
    mstep.
    match goal with
    | |- exists m' c' es, mbind _ _ ?m0 = _ /\ _ =>
        destruct (prepareBuffers_run u beam la false m0
                    (DecoderContext_resize c B (Int.sub S psl) psl))
          as (m' & es & Hrun & Hcore & Hlog & Hq); [reflexivity|exact HH|exact Hw|]
    end.
    rewrite (bind_Ok _ _ _ _ _ Hrun). mstep.
    destruct Hcore as (H1 & H2 & H3 & H4 & H5 & H6 & H7 & H8 & H9).
    exists m', (DecoderContext_resize c B (Int.sub S psl) psl), es.
    split; [reflexivity|]. cbn in *.
    split; [repeat split; congruence|].
    split; [congruence|]. split; [congruence|]. split; [congruence|].
    split; [reflexivity|]. split; [|exact Hq].
    rewrite Hlog, !map_app. cbn. rewrite <- !app_assoc. reflexivity.
  - mstep.
    match goal with
    | |- exists m' c' es, mbind _ _ ?m0 = _ /\ _ =>
        destruct (prepareBuffers_run u beam la false m0 c)
          as (m' & es & Hrun & Hcore & Hlog & Hq); [exact Hc|exact HH|exact Hw|]
    end.
    rewrite (bind_Ok _ _ _ _ _ Hrun). mstep.
    destruct Hcore as (H1 & H2 & H3 & H4 & H5 & H6 & H7 & H8 & H9).
    exists m', c, es.
    split; [reflexivity|]. cbn in *.
    split; [repeat split; congruence|].
    split; [congruence|]. split; [congruence|]. split; [congruence|].
    split; [reflexivity|]. split; [|exact Hq].
    rewrite Hlog. reflexivity.
Qed.

Lemma forwardRun_head (step : Z) (la : bool) (u beam B S : Z) (ids : IntArray)
    (past S' : Z) (m : Mach) (c : DecoderContext) :
  context m = Some c ->
  let H := ctx_hiddenSize c in
  let count := Int.mul (Int.mul B S') H in
  let stp := Int.add step (Int.of_bool (prefixSharing m)) in
  exists m2 es_loop,
    forwardRun extern ATTN_MLP_PARALLEL splitOffset splitSize step la u beam B S ids past S' m
    = forwardTail extern splitOffset splitSize step la u beam B S S' H 0 count count m2
    /\ kept m m2
    /\ context m2 = context m
    /\ initSeqLen m2 = initSeqLen m
    /\ accSeqLen m2 = Int.add (accSeqLen m) S
    /\ map ev (log m2)
       = map ev (log m)
         ++ [EmbeddingForward ids (act_ptr 0) B S'; PrepareAttnMask ids stp;
             GetPositionIds ids B S' stp]
         ++ (if pp_rank m >? 0
             then [MPI_Recv (act_ptr 0) count (Int.sub (pp_rank m) 1)
                     (Int.mul 100 (Int.sub (pp_rank m) 1))]
             else [])
         ++ es_loop
    /\ Forall quiet es_loop
    /\ ((step =? 0) && prefixSharing m = true ->
        forall i, 0 <= i < Int.wrap (Z.of_nat (length (decoders m))) ->
          exists dec before rest,
            decoders m !! Z.to_nat i = Some dec
            /\ es_loop
               = before
                 ++ ExpandPrefixCache i u (prefixSeqLen m)
                 :: ForwardAttention i dec false (act_ptr 0) (act_ptr count) (tmp_ptr 0)
                      S' past true true
                 :: rest)
    /\ synced m2.
Proof.
  intros Hc H count stp. unfold forwardRun. rewrite (bind_getContext _ _ _ Hc). mstep.
  cbn [prefixSharing pp_rank decoders set_accSeqLen after_call set_log set_heap].
  fold H count stp. change (0 + count) with count.
  set (m1 := after_call extern (GetPositionIds _ _ _ _) _).
  set (m1' := if pp_rank m >? 0
              then after_call extern (MPI_Recv (act_ptr 0) count (Int.sub (pp_rank m) 1)
                                        (Int.mul 100 (Int.sub (pp_rank m) 1))) m1
              else m1).
  assert (Hrecv : (if pp_rank m >? 0
                   then call extern (MPI_Recv (act_ptr 0) count (Int.sub (pp_rank m) 1)
                                       (Int.mul 100 (Int.sub (pp_rank m) 1)))
                   else mret tt) m1 = Ok tt m1').
  { subst m1'. destruct (pp_rank m >? 0); reflexivity. }
  rewrite (bind_Ok _ _ _ _ _ Hrecv). mstep.
  assert (Hk1 : kept m m1' /\ context m1' = context m /\ initSeqLen m1' = initSeqLen m
                /\ accSeqLen m1' = Int.add (accSeqLen m) S).
  { subst m1' m1. destruct (pp_rank m >? 0); repeat split. }
  destruct Hk1 as ((K1 & K2 & K3 & K4 & K5 & K6) & Kc & Ki & Ka).
  assert (Hs1 : synced m1').
  { subst m1'. destruct (pp_rank m >? 0); apply after_call_synced. }
  assert (Hl1 : map ev (log m1') = map ev (log m)
         ++ [EmbeddingForward ids (act_ptr 0) B S'; PrepareAttnMask ids stp;
             GetPositionIds ids B S' stp]
         ++ (if pp_rank m >? 0
             then [MPI_Recv (act_ptr 0) count (Int.sub (pp_rank m) 1)
                     (Int.mul 100 (Int.sub (pp_rank m) 1))]
             else [])).
  { subst m1' m1. destruct (pp_rank m >? 0); cbn; rewrite !map_app; cbn;
      rewrite <- !app_assoc; reflexivity. }
  replace (decoders m) with (decoders m1') by exact K6.
  destruct (layers_run step u beam S 0 count count S' past H
              (seqZ 0 (Int.wrap (Z.of_nat (length (decoders m1'))))) m1'
              (local_layers_in_range _))
    as (es & Hrun & Hq & Hpairs).
  rewrite (bind_Ok _ _ _ _ _ Hrun).
  destruct (after_calls_core es m1') as (C1 & C2 & C3 & C4 & C5 & C6 & C7 & C8 & C9).
  exists (after_calls extern es m1'), es.
  split; [reflexivity|].
  split; [repeat split; congruence|].
  split; [congruence|]. split; [congruence|]. split; [congruence|].
  split; [rewrite after_calls_events, Hl1, <- !app_assoc; reflexivity|].
  split; [exact Hq|].
  split; [|apply after_calls_synced, Hs1].
  rewrite K5, K4 in Hpairs. intros Hcond i Hi.
  apply (Hpairs Hcond). apply elem_of_seqZ. lia.
Qed.

Lemma forward_head (ids : IntArray) (d0 d1 d2 step : Z) (la : bool) (m : Mach)
    (c : DecoderContext) :
  context m = Some c -> 0 < ctx_hiddenSize c -> 0 < getSize (messenger m) ->
  let u := Int.of_int64 d0 in
  let beam := Int.of_int64 d1 in
  let B := if step =? 0 then u else Int.mul u beam in
  let S := Int.of_int64 d2 in
  let sharing := (step =? 0) && prefixSharing m in
  let psl := prefixSeqLen m in
  let split := splitPrefix ids u S psl (Int.sub S psl) in
  let past0 := if step =? 0 then 0 else accSeqLen m in
  let past := if sharing then psl else past0 in
  let S' := if sharing then Int.sub S psl else S in
  let ids' := if sharing then snd split else ids in
  let H := ctx_hiddenSize c in
  let count := Int.mul (Int.mul B S') H in
  let stp := Int.add step (Int.of_bool (prefixSharing m)) in
  exists m2 es_prep es_loop,
    forward extern ATTN_MLP_PARALLEL splitOffset splitSize ids (d0, d1, d2) step la m
    = forwardTail extern splitOffset splitSize step la u beam B S S' H 0 count count m2
    /\ kept m m2
    /\ (exists c2, context m2 = Some c2 /\ ctx_hiddenSize c2 = H)
    /\ initSeqLen m2 = (if step =? 0 then S else initSeqLen m)
    /\ accSeqLen m2 = Int.add (if step =? 0 then 0 else accSeqLen m) S
    /\ map ev (log m2)
       = map ev (log m)
         ++ [CtxResize B S past0]
         ++ (if sharing then [GetPositionIds (fst split) B psl 0; CtxResize B S' psl] else [])
         ++ es_prep
         ++ [EmbeddingForward ids' (act_ptr 0) B S'; PrepareAttnMask ids' stp;
             GetPositionIds ids' B S' stp]
         ++ (if pp_rank m >? 0
             then [MPI_Recv (act_ptr 0) count (Int.sub (pp_rank m) 1)
                     (Int.mul 100 (Int.sub (pp_rank m) 1))]
             else [])
         ++ es_loop
    /\ Forall quiet es_prep /\ Forall quiet es_loop
    /\ (sharing = true ->
        forall i, 0 <= i < Int.wrap (Z.of_nat (length (decoders m))) ->
          exists dec before rest,
            decoders m !! Z.to_nat i = Some dec
            /\ es_loop
               = before
                 ++ ExpandPrefixCache i u psl
                 :: ForwardAttention i dec false (act_ptr 0) (act_ptr count) (tmp_ptr 0)
                      S' past true true
                 :: rest)
    /\ synced m2.
Proof.
  intros Hc HH Hw u beam B S sharing psl split past0 past S' ids' H count stp.
  unfold forward. mstep. fold u beam S B past0.
  rewrite (bind_Ok _ _ _ _ _ (ctx_resize_run B S past0 m c Hc)).
  set (m0 := set_context _ _ _ _).
  destruct (step =? 0) eqn:Hstep.
  - destruct (firstStep_run ids u beam B S past0 S la m0 (DecoderContext_resize c B S past0))
      as (m1 & c1 & es & Hrun & Hkept & Hinit & Hacc & Hc1 & HH1 & Hlog & Hq);
      [reflexivity|exact HH|exact Hw|].
    rewrite (bind_Ok _ _ _ _ _ Hrun).
    destruct Hkept as (K1 & K2 & K3 & K4 & K5 & K6).
    change (prefixSharing m0) with (prefixSharing m) in *.
    change (prefixSeqLen m0) with psl in *. fold split in Hlog |- *.
    change (ctx_hiddenSize (DecoderContext_resize c B S past0)) with H in HH1.
    change (map ev (log m0)) with (map ev (log m ++ [{| ev := CtxResize B S past0;
               pre := heap m; post := extern (map ev (log m) ++ [CtxResize B S past0]) (heap m) |}]))
      in Hlog.
    rewrite map_app in Hlog. cbn [map ev] in Hlog.
    cbn in K1, K2, K3, K4, K5, K6. unfold psl in K4.
    destruct (forwardRun_head step la u beam B S ids' past S' m1 c1 Hc1)
      as (m2 & es_loop & Hrun2 & (L1 & L2 & L3 & L4 & L5 & L6) & Lc & Li & La & Hlog2
          & Hq2 & Hpairs & Hsync).
    rewrite HH1 in Hrun2, Hlog2, Hpairs. fold count in Hrun2, Hlog2, Hpairs.
    exists m2, es, es_loop.
    split.
    { subst ids' past S' sharing. cbn [andb]. destruct (prefixSharing m); exact Hrun2. }
    split; [repeat split; congruence|].
    split; [exists c1; split; [congruence|exact HH1]|].
    split; [congruence|]. split; [rewrite La, Hacc; reflexivity|].
    split.
    { rewrite Hlog2, Hlog, K3, K5. subst sharing. cbn [andb].
      rewrite <- !app_assoc. subst S'. cbn [andb].
      destruct (prefixSharing m); reflexivity. }
    split; [exact Hq|]. split; [exact Hq2|]. split; [|exact Hsync].
    subst sharing. cbn [andb]. rewrite K5, K4, K6, Hstep in Hpairs. exact Hpairs.
  - mstep.
    destruct (forwardRun_head step la u beam B S ids past0 S m0
                (DecoderContext_resize c B S past0) eq_refl)
      as (m2 & es_loop & Hrun2 & (L1 & L2 & L3 & L4 & L5 & L6) & Lc & Li & La & Hlog2
          & Hq2 & Hpairs & Hsync).
    exists m2, [], es_loop. subst sharing ids' past S'. cbn [andb] in *.
    rewrite Hstep in Hpairs. cbn [andb] in Hpairs.
    split; [exact Hrun2|].
    split; [repeat split; assumption|].
    split; [eexists; split; [exact Lc|reflexivity]|].
    split; [exact Li|]. split; [exact La|].
    split.
    { rewrite Hlog2. cbn. rewrite !map_app. cbn. rewrite <- !app_assoc. reflexivity. }
    split; [constructor|]. split; [exact Hq2|]. split; [discriminate|exact Hsync].
Qed.

(** The tail: a stage that is not the last sends and returns the sentinel. *)
Lemma forwardTail_send (step : Z) (la : bool) (u beam B S S' H emb out count : Z) (m : Mach) :
  (pp_rank m <? Int.sub (pp_size m) 1) = true ->
  forwardTail extern splitOffset splitSize step la u beam B S S' H emb out count m
  = Ok (nullptr, 0, 0)
       (after_call extern
          (MPI_Send (act_ptr emb) count (Int.add (pp_rank m) 1) (Int.mul 100 (pp_rank m))) m).
Proof. intros Hlt. unfold forwardTail. mstep. rewrite Hlt. now mstep. Qed.

(** The tail on the last stage. *)
Lemma forwardTail_last (step : Z) (la : bool) (u beam B S S' H emb out count : Z) (m : Mach) :
  (pp_rank m <? Int.sub (pp_size m) 1) = false ->
  let copies := (S' >? 1) && negb la in
  let rows := if negb la then B else Int.mul B S in
  let m1 := if copies
            then set_act elt cell (copyLastRows emb out B S' H (act (heap m))) m
            else m in
  let m2 := after_call extern (LastLayerNormForward (act_ptr (if copies then out else emb))
                                 (act_ptr emb) rows) m1 in
  let m3 := after_call extern (PredictorForward (act_ptr emb) (act_ptr out) rows) m2 in
  let m4 := if (step =? 0) && (beam >? 1)
            then set_act elt cell (expandLogits splitSize out u beam (act (heap m3))) m3
            else m3 in
  forwardTail extern splitOffset splitSize step la u beam B S S' H emb out count m
  = Ok (act_ptr out, splitOffset, splitSize) m4.
Proof.
  intros Hlt copies rows m1 m2 m3 m4. unfold forwardTail. mstep. rewrite Hlt.
  subst m4 m3 m2 m1 rows copies.
  destruct ((S' >? 1) && negb la), ((step =? 0) && (beam >? 1)); now mstep.
Qed.

Lemma forwardTail_core (step : Z) (la : bool) (u beam B S S' H emb out count : Z) (m : Mach) :
  exists r m' es,
    forwardTail extern splitOffset splitSize step la u beam B S S' H emb out count m = Ok r m'
    /\ same_core m m'
    /\ map ev (log m') = map ev (log m) ++ es
    /\ Forall quiet es.
Proof.
  destruct (pp_rank m <? Int.sub (pp_size m) 1) eqn:Hlt.
  - rewrite (forwardTail_send _ _ _ _ _ _ _ _ _ _ _ _ Hlt).
    eexists _, _, _. split; [reflexivity|]. split; [repeat split|].
    cbn. rewrite map_app. split; [reflexivity|]. repeat constructor.
  - rewrite (forwardTail_last _ _ _ _ _ _ _ _ _ _ _ _ Hlt).
    set (rows := if negb la then B else Int.mul B S).
    eexists _, _, [LastLayerNormForward (act_ptr (if (S' >? 1) && negb la then out else emb))
                     (act_ptr emb) rows;
                   PredictorForward (act_ptr emb) (act_ptr out) rows].
    split; [reflexivity|].
    destruct ((S' >? 1) && negb la), ((step =? 0) && (beam >? 1));
      (split; [repeat split|]); cbn [log set_act set_heap];
      rewrite !after_call_events; cbn [log set_act set_heap];
      rewrite <- app_assoc; (split; [reflexivity|]); repeat constructor.
Qed.

(** forward always returns, and what it leaves in the session state. *)
Lemma forward_total (ids : IntArray) (d0 d1 d2 step : Z) (la : bool) (m : Mach)
    (c : DecoderContext) :
  context m = Some c -> 0 < ctx_hiddenSize c -> 0 < getSize (messenger m) ->
  exists r m' c',
    forward extern ATTN_MLP_PARALLEL splitOffset splitSize ids (d0, d1, d2) step la m = Ok r m'
    /\ kept m m'
    /\ context m' = Some c' /\ ctx_hiddenSize c' = ctx_hiddenSize c
    /\ initSeqLen m' = (if step =? 0 then Int.of_int64 d2 else initSeqLen m)
    /\ accSeqLen m'
       = Int.add (if step =? 0 then 0 else accSeqLen m) (Int.of_int64 d2).
Proof.
  intros Hc HH Hw.
  destruct (forward_head ids d0 d1 d2 step la m c Hc HH Hw)
    as (m2 & es_prep & es_loop & Hrun & (K1 & K2 & K3 & K4 & K5 & K6) & (c2 & Hc2 & HH2)
        & Hi & Ha & _).
  match type of Hrun with
  | _ = forwardTail _ _ _ ?st ?la ?u ?bm ?B ?S ?S' ?H ?e ?o ?cnt _ =>
      destruct (forwardTail_core st la u bm B S S' H e o cnt m2)
        as (r & m' & es & Hrun' & (C1 & C2 & C3 & C4 & C5 & C6 & C7 & C8 & C9) & _)
  end.
  exists r, m', c2. rewrite Hrun, Hrun'.
  split; [reflexivity|]. split; [repeat split; congruence|].
  split; [congruence|]. split; [exact HH2|]. split; congruence.
Qed.

(** ** C8: a stage that is not the last *)


(** The destination of that send is a rank of MPI_COMM_WORLD. Where every
    stage is one process it is the process of stage [pp_rank + 1]; with 8
    processes in 2 stages [Comm.init] gives world rank 1, the destination
    passed by the processes of stage 0, the colour 0. *)
Remark init_color_of_world_rank_1 :
  exists out, Comm.init 8 1 2 = Some out /\ Comm.world_color out = 0.
Proof. eexists. split; reflexivity. Qed.

(** ** C1 and C10: the accumulated sequence length *)

Lemma session_cons (a : ForwardArgs) (rest : list ForwardArgs) (m : Mach) r m' :
  forward extern ATTN_MLP_PARALLEL splitOffset splitSize
    (f_ids a) (f_dims a) (f_step a) (f_logitsAll a) m = Ok r m' ->
  session extern ATTN_MLP_PARALLEL splitOffset splitSize (a :: rest) m
  = session extern ATTN_MLP_PARALLEL splitOffset splitSize rest m'.
Proof.
  intros Hrun. unfold session. cbn [forM_]. rewrite bind_assoc.
  rewrite (bind_Ok _ _ _ _ _ Hrun). now mstep.
Qed.

Lemma total_nonneg (l : list Z) : Forall (fun z => 0 <= z) l -> 0 <= total l.
Proof. unfold total. induction 1; cbn; lia. Qed.

Lemma total_take_le (l : list Z) (n : nat) :
  Forall (fun z => 0 <= z) l -> total (take n l) <= total l.
Proof.
  intros Hl. revert n. induction Hl as [|z l Hz Hl IH]; intros [|n]; cbn; try lia.
  - pose proof (total_nonneg l Hl). unfold total in *. lia.
  - specialize (IH n). unfold total in *. lia.
Qed.

Lemma session_later_steps (rest : list ForwardArgs) (m : Mach) (c : DecoderContext) :
  ready m c ->
  Forall (fun a => 0 < f_step a) rest ->
  Forall (fun z => 0 <= z) (map seqLen_of rest) ->
  0 <= accSeqLen m ->
  accSeqLen m + total (map seqLen_of rest) <= Int.max_signed ->
  exists m',
    session extern ATTN_MLP_PARALLEL splitOffset splitSize rest m = Ok tt m'
    /\ accSeqLen m' = accSeqLen m + total (map seqLen_of rest)
    /\ initSeqLen m' = initSeqLen m.
Proof.
  revert m c. induction rest as [|a rest IH]; intros m c Hready Hsteps Hlens Hacc Hsum.
  - exists m. cbn. split; [reflexivity|]. split; [lia|reflexivity].
  - inversion Hsteps as [|? ? Hstep Hsteps']; subst.
    cbn [map] in Hlens. inversion Hlens as [|? ? Hlen Hlens']; subst.
    pose proof (total_nonneg _ Hlens') as Hnn.
    destruct Hready as (Hc & HH & Hw).
    destruct a as [ids [[d0 d1] d2] step la].
    change (total (map seqLen_of (Build_ForwardArgs ids (d0, d1, d2) step la :: rest)))
      with (d2 + total (map seqLen_of rest)) in *.
    change (seqLen_of (Build_ForwardArgs ids (d0, d1, d2) step la)) with d2 in *.
    cbn [f_step] in Hstep.
    destruct (forward_total ids d0 d1 d2 step la m c Hc HH Hw)
      as (r & m1 & c1 & Hrun & (K1 & K2 & K3 & K4 & K5 & K6) & Hc1 & HH1 & Hi & Ha).
    rewrite (session_cons (Build_ForwardArgs ids (d0, d1, d2) step la) rest m r m1 Hrun).
    assert (Hne : (step =? 0) = false) by (apply Z.eqb_neq; lia).
    rewrite Hne in Hi, Ha.
    unfold Int.of_int64 in Ha. rewrite (wrap_small d2) in Ha
      by (unfold Int.in_range, Int.min_signed; lia).
    rewrite add_small in Ha by (unfold Int.in_range, Int.min_signed; lia).
    destruct (IH m1 c1) as (m' & Hrun' & Ha' & Hi'); try assumption.
    { repeat split; [exact Hc1|lia|rewrite K1; exact Hw]. }
    { lia. }
    { lia. }
    exists m'. split; [exact Hrun'|]. split; [lia|congruence].
Qed.

(** C1. A session is a forward call with [step = 0] followed by calls with
    [step > 0], with sequence lengths [s_1, ..., s_n] that are not negative
    and whose sum fits an [int]. Whatever [accSeqLen] and [initSeqLen] held
    before, after the first [i] calls [accSeqLen = s_1 + ... + s_i] and
    [initSeqLen = s_1]: the first call starts the count again from 0 and
    records its own length. *)
Theorem session_accSeqLen (first : ForwardArgs) (rest : list ForwardArgs)
    (m : Mach) (c : DecoderContext) :
  ready m c ->
  prefixSharing m = false ->
  f_step first = 0 ->
  Forall (fun a => 0 < f_step a) rest ->
  Forall (fun z => 0 <= z) (map seqLen_of (first :: rest)) ->
  total (map seqLen_of (first :: rest)) <= Int.max_signed ->
  forall i : nat, (0 < i <= length (first :: rest))%nat ->
    exists m',
      session extern ATTN_MLP_PARALLEL splitOffset splitSize (take i (first :: rest)) m
      = Ok tt m'
      /\ accSeqLen m' = total (map seqLen_of (take i (first :: rest)))
      /\ initSeqLen m' = seqLen_of first.
Proof.
  intros (Hc & HH & Hw) _ Hstep0 Hsteps Hlens Hsum i Hi.
  destruct i as [|i]; [lia|]. cbn [take].
  cbn [map] in Hlens. inversion Hlens as [|? ? Hlen Hlens']; subst.
  pose proof (total_nonneg _ Hlens') as Hnn.
  destruct first as [ids [[d0 d1] d2] step la].
  change (total (map seqLen_of (Build_ForwardArgs ids (d0, d1, d2) step la :: rest)))
    with (d2 + total (map seqLen_of rest)) in *.
  change (total (map seqLen_of (Build_ForwardArgs ids (d0, d1, d2) step la :: take i rest)))
    with (d2 + total (map seqLen_of (take i rest))).
  change (seqLen_of (Build_ForwardArgs ids (d0, d1, d2) step la)) with d2 in *.
  cbn [f_step] in Hstep0. subst step.
  destruct (forward_total ids d0 d1 d2 0 la m c Hc HH Hw)
    as (r & m1 & c1 & Hrun & (K1 & K2 & K3 & K4 & K5 & K6) & Hc1 & HH1 & Hi1 & Ha1).
  rewrite (session_cons (Build_ForwardArgs ids (d0, d1, d2) 0 la) (take i rest) m r m1 Hrun).
  cbn [Z.eqb] in Hi1, Ha1.
  unfold Int.of_int64 in Hi1, Ha1. rewrite (wrap_small d2) in Hi1, Ha1
    by (unfold Int.in_range, Int.min_signed; lia).
  rewrite add_small in Ha1 by (unfold Int.in_range, Int.min_signed; lia).
  pose proof (total_take_le _ i Hlens') as Hle.
  rewrite firstn_map in Hle.
  destruct (session_later_steps (take i rest) m1 c1) as (m' & Hrun' & Ha' & Hi').
  { repeat split; [exact Hc1|lia|rewrite K1; exact Hw]. }
  { apply Forall_take, Hsteps. }
  { rewrite <- firstn_map. apply Forall_take, Hlens'. }
  { lia. }
  { lia. }
  exists m'. split; [exact Hrun'|]. split; [lia|congruence].
Qed.

(** C10. With prefix sharing on, a forward call with [step = 0] and sequence
    length [seqLen] leaves [accSeqLen = seqLen] and [initSeqLen = seqLen], the
    full prompt length with the prefix included, while the tokens it embeds
    are [seqLen - prefixSeqLen] per row. *)
Theorem forward_prefix_accSeqLen (ids : IntArray) (d0 d1 d2 : Z) (la : bool)
    (m : Mach) (c : DecoderContext) :
  ready m c ->
  prefixSharing m = true ->
  0 <= prefixSeqLen m <= d2 -> d2 <= Int.max_signed ->
  exists r m' before newIDs rest,
    forward extern ATTN_MLP_PARALLEL splitOffset splitSize ids (d0, d1, d2) 0 la m = Ok r m'
    /\ accSeqLen m' = d2
    /\ initSeqLen m' = d2
    /\ map ev (log m')
       = map ev (log m) ++ before
         ++ EmbeddingForward newIDs (act_ptr 0) (Int.of_int64 d0) (d2 - prefixSeqLen m)
         :: rest.
Proof.
  intros (Hc & HH & Hw) Hsh Hpsl Hmax.
  destruct (forward_head ids d0 d1 d2 0 la m c Hc HH Hw)
    as (m2 & es_prep & es_loop & Hrun & _ & _ & Hi & Ha & Hlog & _).
  match type of Hrun with
  | _ = forwardTail _ _ _ ?st ?la ?u ?bm ?B ?S ?S' ?H ?e ?o ?cnt _ =>
      destruct (forwardTail_core st la u bm B S S' H e o cnt m2)
        as (r & m' & es & Hrun' & (C1 & C2 & C3 & C4 & C5 & C6 & C7 & C8 & C9) & Hlog' & _)
  end.
  rewrite Hsh in Hlog. cbn [Z.eqb andb] in Hi, Ha, Hlog.
  assert (HS : Int.of_int64 d2 = d2)
    by (apply wrap_small; unfold Int.in_range, Int.min_signed; lia).
  rewrite HS in Hi, Ha, Hlog.
  rewrite add_small in Ha by (unfold Int.in_range, Int.min_signed; lia).
  rewrite sub_small in Hlog by (unfold Int.in_range, Int.min_signed; lia).
  set (split := splitPrefix _ _ _ _ _) in Hlog.
  set (recv := if pp_rank m >? 0 then _ else _) in Hlog.
  exists r, m',
    ([CtxResize (Int.of_int64 d0) d2 0;
      GetPositionIds (fst split) (Int.of_int64 d0) (prefixSeqLen m) 0;
      CtxResize (Int.of_int64 d0) (d2 - prefixSeqLen m) (prefixSeqLen m)] ++ es_prep),
    (snd split),
    ([PrepareAttnMask (snd split) (Int.add 0 (Int.of_bool true));
      GetPositionIds (snd split) (Int.of_int64 d0) (d2 - prefixSeqLen m)
        (Int.add 0 (Int.of_bool true))] ++ recv ++ es_loop ++ es).
  rewrite Hrun, Hrun'.
  split; [reflexivity|]. split; [lia|]. split; [congruence|].
  rewrite Hlog', Hlog. rewrite <- !app_assoc. reflexivity.
Qed.

(** ** Copy loops *)

Lemma fold_left_ext_in {A B} (f g : A -> B -> A) (l : list B) (a : A) :
  (forall a x, x ∈ l -> f a x = g a x) -> fold_left f l a = fold_left g l a.
Proof.
  revert a. induction l as [|x l IH]; intros a Hfg; [reflexivity|].
  cbn. rewrite Hfg by (apply elem_of_cons; now left).
  apply IH. intros a' y Hy. apply Hfg. apply elem_of_cons; now right.
Qed.

Lemma fold_left_pair {A B C} (f : A -> C -> A) (g : B -> C -> B) (l : list C) (a : A) (b : B) :
  fold_left (fun '(x, y) c => (f x c, g y c)) l (a, b) = (fold_left f l a, fold_left g l b).
Proof. revert a b. induction l as [|c l IH]; intros a b; [reflexivity|]. cbn. apply IH. Qed.

Lemma memcpy_inside {T} (dst : Z -> T) d (src : Z -> T) s n a :
  d <= a < d + n -> memcpy dst d src s n a = src (s + (a - d)).
Proof.
  intros Ha. unfold memcpy.
  destruct (Z.leb_spec d a); [|lia]. destruct (Z.ltb_spec a (d + n)); [|lia]. reflexivity.
Qed.

Lemma memcpy_outside {T} (dst : Z -> T) d (src : Z -> T) s n a :
  ~ (d <= a < d + n) -> memcpy dst d src s n a = dst a.
Proof.
  intros Ha. unfold memcpy.
  destruct (Z.leb_spec d a); [|reflexivity].
  destruct (Z.ltb_spec a (d + n)); [lia|reflexivity].
Qed.

(** Rows of width [w] copied from another array: row [b] of the
    destination receives [w] elements of [src] from [g b] on. *)
Lemma copy_rows {T} (src : Z -> T) (w : Z) (g : Z -> Z) (l : list Z) (d0 : Z -> T) (r j : Z) :
  0 <= j < w ->
  fold_left (fun d b => memcpy d (w * b) src (g b) w) l d0 (w * r + j)
  = if decide (r ∈ l) then src (g r + j) else d0 (w * r + j).
Proof.
  intros Hj. revert d0. induction l as [|b l IH]; intros d0.
  - cbn. destruct (decide (r ∈ [])) as [Hin|_]; [now apply elem_of_nil in Hin|reflexivity].
  - cbn [fold_left]. rewrite IH.
    destruct (decide (r ∈ l)) as [Hin|Hnin].
    + destruct (decide (r ∈ b :: l)) as [_|Hn]; [reflexivity|].
      exfalso. apply Hn. apply elem_of_cons; now right.
    + destruct (Z.eq_dec r b) as [->|Hne].
      * destruct (decide (b ∈ b :: l)) as [_|Hn];
          [|exfalso; apply Hn; apply elem_of_cons; now left].
        rewrite memcpy_inside by lia. f_equal. lia.
      * destruct (decide (r ∈ b :: l)) as [Hin|_].
        { apply elem_of_cons in Hin as [?|?]; contradiction. }
        apply memcpy_outside. nia.
Qed.

Lemma splitPrefix_spec (ids : IntArray) (u S psl S' : Z) :
  0 <= u -> 0 <= psl <= S -> 0 <= S' <= S -> S * u <= Int.max_signed ->
  (forall b k, 0 <= b < u -> 0 <= k < psl ->
     fst (splitPrefix ids u S psl S') (psl * b + k) = ids (S * b + k))
  /\ (forall b k, 0 <= b < u -> 0 <= k < S' ->
        snd (splitPrefix ids u S psl S') (S' * b + k) = ids (S * b + psl + k)).
Proof.
  intros Hu Hpsl HS' Hmax. unfold splitPrefix.
  rewrite (fold_left_ext_in _
             (fun '(p, n) bs =>
                (memcpy p (psl * bs) ids (S * bs) psl,
                 memcpy n (S' * bs) ids (S * bs + psl) S'))).
  2:{ intros [p n] bs Hbs. apply elem_of_seqZ in Hbs.
      rewrite !mul_small by (apply in_range_nonneg; nia). reflexivity. }
  rewrite (fold_left_pair (fun p bs => memcpy p (psl * bs) ids (S * bs) psl)
             (fun n bs => memcpy n (S' * bs) ids (S * bs + psl) S')).
  cbn [fst snd]. split; intros b k Hb Hk.
  - rewrite (copy_rows ids psl (fun bs => S * bs)) by lia.
    destruct (decide (b ∈ seqZ 0 u)) as [_|Hn]; [reflexivity|].
    exfalso. apply Hn, elem_of_seqZ. lia.
  - rewrite (copy_rows ids S' (fun bs => S * bs + psl)) by lia.
    destruct (decide (b ∈ seqZ 0 u)) as [_|Hn]; [f_equal; lia|].
    exfalso. apply Hn, elem_of_seqZ. lia.
Qed.

Lemma filter_quiet (es : list Event) :
  Forall quiet es -> filter (fun e => is_Some (token_ids e)) es = [].
Proof.
  intros Hq. apply filter_none. eapply Forall_impl; [exact Hq|].
  intros e He [ids Hids]. unfold quiet in He. congruence.
Qed.

(** ** C6: the first step under prefix sharing *)

(** C6. With prefix sharing on, a forward call with [step = 0] splits every
    row of [ids] (length [seqLen]) into its first [prefixSeqLen] tokens and
    its remaining [inputSeqLen = seqLen - prefixSeqLen] tokens. The prefix
    tokens are handed to [getPositionIds] (with step 0) and to no other call;
    the embedding, the attention mask and the step's position ids receive the
    new tokens, with length [inputSeqLen]. For every local layer the log holds
    [expandPrefixCache(i, userSideBS, prefixSeqLen)] directly before that
    layer's attention call, which runs on [inputSeqLen] new and
    [prefixSeqLen] past tokens. *)
Theorem forward_prefix_split (ids : IntArray) (d0 d1 d2 : Z) (la : bool)
    (m : Mach) (c : DecoderContext) :
  ready m c ->
  prefixSharing m = true ->
  0 <= d0 <= Int.max_signed ->
  0 <= prefixSeqLen m <= d2 ->
  d2 <= Int.max_signed ->
  d0 * d2 <= Int.max_signed ->
  Z.of_nat (length (decoders m)) <= Int.max_signed ->
  let userSideBS := d0 in
  let seqLen := d2 in
  let prefixLen := prefixSeqLen m in
  let inputSeqLen := seqLen - prefixLen in
  let count := Int.mul (Int.mul userSideBS inputSeqLen) (ctx_hiddenSize c) in
  exists r m' prefixIDs newIDs es,
    forward extern ATTN_MLP_PARALLEL splitOffset splitSize ids (d0, d1, d2) 0 la m = Ok r m'
    /\ map ev (log m') = map ev (log m) ++ es
    /\ (forall b k, 0 <= b < userSideBS -> 0 <= k < prefixLen ->
          prefixIDs (prefixLen * b + k) = ids (seqLen * b + k))
    /\ (forall b k, 0 <= b < userSideBS -> 0 <= k < inputSeqLen ->
          newIDs (inputSeqLen * b + k) = ids (seqLen * b + prefixLen + k))
    /\ filter (fun e => is_Some (token_ids e)) es
       = [GetPositionIds prefixIDs userSideBS prefixLen 0;
          EmbeddingForward newIDs (act_ptr 0) userSideBS inputSeqLen;
          PrepareAttnMask newIDs 1;
          GetPositionIds newIDs userSideBS inputSeqLen 1]
    /\ (forall i : nat, (i < length (decoders m))%nat ->
          exists dec before rest,
            decoders m !! i = Some dec
            /\ es = before
                    ++ ExpandPrefixCache (Z.of_nat i) userSideBS prefixLen
                    :: ForwardAttention (Z.of_nat i) dec false (act_ptr 0) (act_ptr count)
                         (tmp_ptr 0) inputSeqLen prefixLen true true
                    :: rest).
Proof.
  intros (Hc & HH & Hw) Hsh Hd0 Hpsl Hd2 Hprod Hlen userSideBS seqLen prefixLen inputSeqLen count.
  destruct (forward_head ids d0 d1 d2 0 la m c Hc HH Hw)
    as (m2 & es_prep & es_loop & Hrun & _ & _ & _ & _ & Hlog & Hq1 & Hq2 & Hpairs & _).
  match type of Hrun with
  | _ = forwardTail _ _ _ ?st ?la ?u ?bm ?B ?S ?S' ?H ?e ?o ?cnt _ =>
      destruct (forwardTail_core st la u bm B S S' H e o cnt m2)
        as (r & m' & es & Hrun' & _ & Hlog' & Hq3)
  end.
  rewrite Hsh in Hlog, Hpairs. cbn [Z.eqb andb] in Hlog, Hpairs.
  assert (HU : Int.of_int64 d0 = d0)
    by (apply wrap_small; unfold Int.in_range, Int.min_signed; lia).
  assert (HS : Int.of_int64 d2 = d2)
    by (apply wrap_small; unfold Int.in_range, Int.min_signed; lia).
  rewrite HU, HS in Hlog, Hpairs.
  assert (HI : Int.sub d2 (prefixSeqLen m) = d2 - prefixSeqLen m)
    by (apply sub_small; unfold Int.in_range, Int.min_signed; lia).
  rewrite HI in Hlog, Hpairs.
  fold userSideBS seqLen prefixLen inputSeqLen count in Hlog, Hpairs.
  change (Int.add 0 (Int.of_bool true)) with 1 in Hlog.
  set (split := splitPrefix ids userSideBS seqLen prefixLen inputSeqLen) in Hlog.
  set (recv := if pp_rank m >? 0 then _ else _) in Hlog.
  destruct (splitPrefix_spec ids userSideBS seqLen prefixLen inputSeqLen)
    as (Hprefix & Hnew); [lia|lia|lia|lia|].
  fold split in Hprefix, Hnew.
  set (head := [CtxResize userSideBS seqLen 0;
                GetPositionIds (fst split) userSideBS prefixLen 0;
                CtxResize userSideBS inputSeqLen prefixLen]) in Hlog.
  set (emb := [EmbeddingForward (snd split) (act_ptr 0) userSideBS inputSeqLen;
               PrepareAttnMask (snd split) 1;
               GetPositionIds (snd split) userSideBS inputSeqLen 1]) in Hlog.
  exists r, m', (fst split), (snd split),
    (head ++ es_prep ++ emb ++ recv ++ es_loop ++ es).
  rewrite Hrun, Hrun'. split; [reflexivity|].
  split.
  { rewrite Hlog', Hlog. rewrite <- !app_assoc. reflexivity. }
  split; [exact Hprefix|]. split; [exact Hnew|]. split.
  - rewrite !filter_app. rewrite (filter_quiet es_prep Hq1), (filter_quiet es_loop Hq2),
      (filter_quiet es Hq3).
    assert (Hrecv : filter (fun e => is_Some (token_ids e)) recv = []).
    { subst recv. destruct (pp_rank m >? 0); [|reflexivity].
      apply filter_quiet. repeat constructor. }
    rewrite Hrecv. reflexivity.
  - intros i Hi.
    destruct (Hpairs eq_refl (Z.of_nat i)) as (dec & before & rest & Hdec & Hes).
    { rewrite wrap_small by (apply in_range_nonneg; lia). lia. }
    rewrite Nat2Z.id in Hdec. rewrite Hes.
    exists dec, (head ++ es_prep ++ emb ++ recv ++ before), (rest ++ es).
    split; [exact Hdec|].
    rewrite <- !app_assoc. reflexivity.
Qed.

(** ** C7: the rows handed to the final layer norm *)

(** Rows of width [w] written from [o] on, each copied from the same array
    below [o]. *)
Lemma copy_rows_inplace {T} (o w : Z) (g : Z -> Z) (l : list Z) (a0 : Z -> T) :
  0 <= w ->
  (forall b, b ∈ l -> 0 <= b /\ g b + w <= o) ->
  (forall x, x < o ->
     fold_left (fun a b => memcpy a (o + b * w) a (g b) w) l a0 x = a0 x)
  /\ (forall r j, 0 <= j < w ->
        fold_left (fun a b => memcpy a (o + b * w) a (g b) w) l a0 (o + r * w + j)
        = if decide (r ∈ l) then a0 (g r + j) else a0 (o + r * w + j)).
Proof.
  intros Hw. revert a0. induction l as [|b l IH]; intros a0 Hl.
  - split; [reflexivity|]. intros r j Hj. cbn.
    destruct (decide (r ∈ [])) as [Hin|_]; [now apply elem_of_nil in Hin|reflexivity].
  - assert (Hb : 0 <= b /\ g b + w <= o) by (apply Hl, elem_of_cons; now left).
    assert (Hl' : forall b', b' ∈ l -> 0 <= b' /\ g b' + w <= o)
      by (intros b' Hb'; apply Hl, elem_of_cons; now right).
    destruct (IH (memcpy a0 (o + b * w) a0 (g b) w) Hl') as (IH1 & IH2).
    cbn [fold_left]. split.
    + intros x Hx. rewrite IH1 by assumption. apply memcpy_outside. nia.
    + intros r j Hj. rewrite IH2 by assumption.
      destruct (decide (r ∈ l)) as [Hin|Hnin].
      * destruct (decide (r ∈ b :: l)) as [_|Hn];
          [|exfalso; apply Hn, elem_of_cons; now right].
        apply memcpy_outside. destruct (Hl' r Hin). nia.
      * destruct (Z.eq_dec r b) as [->|Hne].
        -- destruct (decide (b ∈ b :: l)) as [_|Hn];
             [|exfalso; apply Hn, elem_of_cons; now left].
           rewrite memcpy_inside by lia. f_equal. lia.
        -- destruct (decide (r ∈ b :: l)) as [Hin|_].
           { apply elem_of_cons in Hin as [?|?]; contradiction. }
           apply memcpy_outside. nia.
Qed.

Lemma copyLastRows_bounds (B S' H b : Z) :
  0 <= b < B -> 1 <= S' -> 0 < H -> B * S' * H <= Int.max_signed ->
  0 <= b * H <= Int.max_signed
  /\ b + 1 <= Int.max_signed
  /\ 1 <= (b + 1) * S' <= Int.max_signed
  /\ 0 <= ((b + 1) * S' - 1) * H <= Int.max_signed
  /\ ((b + 1) * S' - 1) * H + H <= B * S' * H.
Proof.
  intros Hb HS HH Hmax.
  assert (E1 : (b + 1) * S' <= B * S') by (apply Z.mul_le_mono_nonneg_r; lia).
  assert (E2 : 1 <= (b + 1) * S') by (change 1 with (1 * 1); apply Z.mul_le_mono_nonneg; lia).
  assert (E3 : (b + 1) * S' * H <= B * S' * H) by (apply Z.mul_le_mono_nonneg_r; lia).
  assert (E4 : b * H <= (b + 1) * S' * H).
  { apply Z.mul_le_mono_nonneg_r; [lia|].
    transitivity ((b + 1) * 1); [lia|]. apply Z.mul_le_mono_nonneg_l; lia. }
  assert (E5 : 0 <= b * H) by (apply Z.mul_nonneg_nonneg; lia).
  assert (E6 : ((b + 1) * S' - 1) * H = (b + 1) * S' * H - H) by ring.
  assert (E7 : H <= (b + 1) * S' * H).
  { transitivity (1 * H); [lia|]. apply Z.mul_le_mono_nonneg_r; lia. }
  assert (E8 : (b + 1) * S' <= (b + 1) * S' * H).
  { transitivity ((b + 1) * S' * 1); [lia|]. apply Z.mul_le_mono_nonneg_l; lia. }
  assert (E9 : b + 1 <= (b + 1) * S').
  { transitivity ((b + 1) * 1); [lia|]. apply Z.mul_le_mono_nonneg_l; lia. }
  lia.
Qed.

Lemma copyLastRows_spec (a : Z -> elt) (B S' H : Z) :
  0 <= B -> 1 <= S' -> 0 < H -> B * S' * H <= Int.max_signed ->
  let out := B * S' * H in
  (forall b j, 0 <= b < B -> 0 <= j < H ->
     copyLastRows 0 out B S' H a (out + b * H + j) = a (((b + 1) * S' - 1) * H + j))
  /\ (forall x, ~ (out <= x < out + B * H) -> copyLastRows 0 out B S' H a x = a x).
Proof.
  intros HB HS HH Hmax out. unfold copyLastRows.
  rewrite (fold_left_ext_in _
             (fun a b => memcpy a (out + b * H) a (((b + 1) * S' - 1) * H) H)).
  2:{ intros a' b Hb. apply elem_of_seqZ in Hb.
      destruct (copyLastRows_bounds B S' H b) as (P1 & P0 & P2 & P3 & P4); try lia.
      rewrite (mul_small b H) by (apply in_range_nonneg; lia).
      rewrite (add_small b 1) by (apply in_range_nonneg; lia).
      rewrite (mul_small (b + 1) S') by (apply in_range_nonneg; lia).
      rewrite (sub_small ((b + 1) * S') 1) by (apply in_range_nonneg; lia).
      rewrite (mul_small ((b + 1) * S' - 1) H) by (apply in_range_nonneg; lia).
      reflexivity. }
  destruct (copy_rows_inplace out H (fun b => ((b + 1) * S' - 1) * H) (seqZ 0 B) a)
    as (Hlow & Hrows); [lia| |].
  { intros b Hb. apply elem_of_seqZ in Hb. split; [lia|].
    destruct (copyLastRows_bounds B S' H b) as (_ & _ & _ & _ & P4); lia. }
  split.
  - intros b j Hb Hj. rewrite Hrows by assumption.
    destruct (decide (b ∈ seqZ 0 B)) as [_|Hn]; [reflexivity|].
    exfalso. apply Hn, elem_of_seqZ. lia.
  - intros x Hx. destruct (Z_lt_ge_dec x out) as [Hlt|Hge]; [now apply Hlow|].
    replace x with (out + (x - out) / H * H + (x - out) mod H)
      by (pose proof (Z.div_mod (x - out) H ltac:(lia)); lia).
    pose proof (Z.mod_pos_bound (x - out) H HH) as Hmod.
    rewrite Hrows by assumption.
    destruct (decide ((x - out) / H ∈ seqZ 0 B)) as [Hin|_]; [|reflexivity].
    exfalso. apply elem_of_seqZ in Hin.
    pose proof (Z.div_mod (x - out) H ltac:(lia)) as Hdm.
    assert (Hq : ((x - out) / H + 1) * H <= B * H)
      by (apply Z.mul_le_mono_nonneg_r; lia).
    apply Hx. lia.
Qed.

Lemma last_stage_cmp (m m2 : Mach) :
  last_stage m -> pp_size m2 = pp_size m -> pp_rank m2 = pp_rank m ->
  (pp_rank m2 <? Int.sub (pp_size m2) 1) = false.
Proof.
  intros ((Hpos & Hmax) & Hlast) -> ->.
  rewrite sub_small by (unfold Int.in_range, Int.min_signed; lia).
  apply Z.ltb_ge. lia.
Qed.


(** ** C2: the logits of a user row spread over its beams *)

Lemma row_hit (w idx r j : Z) :
  0 <= j < w -> (idx * w <= r * w + j < idx * w + w <-> idx = r).
Proof.
  intros Hj. split; [|intros ->; lia].
  intros Hin. destruct (Z.lt_trichotomy idx r) as [Hlt|[Heq|Hgt]]; [|exact Heq|].
  - assert ((idx + 1) * w <= r * w) by (apply Z.mul_le_mono_nonneg_r; lia). lia.
  - assert ((r + 1) * w <= idx * w) by (apply Z.mul_le_mono_nonneg_r; lia). lia.
Qed.

Lemma expand_inner (fo b : Z) (l : list Z) (a : Z -> elt) (r j : Z) :
  0 <= j < splitSize ->
  fold_left
    (fun a idx =>
       if idx =? b then a
       else memcpy a (fo + idx * splitSize) a (fo + b * splitSize) splitSize)
    l a (fo + r * splitSize + j)
  = if decide (r ∈ l /\ r <> b) then a (fo + b * splitSize + j)
    else a (fo + r * splitSize + j).
Proof.
  intros Hj. revert a. induction l as [|idx l IH]; intros a.
  - cbn. destruct (decide (r ∈ [] /\ r <> b)) as [[Hin _]|_];
      [now apply elem_of_nil in Hin|reflexivity].
  - cbn [fold_left]. rewrite IH.
    assert (F1 : (if idx =? b then a
                  else memcpy a (fo + idx * splitSize) a (fo + b * splitSize) splitSize)
                   (fo + b * splitSize + j) = a (fo + b * splitSize + j)).
    { destruct (Z.eqb_spec idx b) as [_|Hne]; [reflexivity|].
      apply memcpy_outside. intros Hin.
      apply Hne, (row_hit splitSize idx b j Hj). lia. }
    assert (F2 : (if idx =? b then a
                  else memcpy a (fo + idx * splitSize) a (fo + b * splitSize) splitSize)
                   (fo + r * splitSize + j)
                 = if decide (r = idx /\ r <> b) then a (fo + b * splitSize + j)
                   else a (fo + r * splitSize + j)).
    { destruct (Z.eqb_spec idx b) as [->|Hne].
      - destruct (decide (r = b /\ r <> b)) as [[Hr Hn]|_]; [contradiction|reflexivity].
      - destruct (decide (r = idx /\ r <> b)) as [[-> _]|Hn].
        + rewrite memcpy_inside by lia. f_equal. lia.
        + apply memcpy_outside. intros Hin.
          assert (idx = r) by (apply (row_hit splitSize idx r j Hj); lia).
          subst idx. apply Hn. split; [reflexivity|congruence]. }
    rewrite F1, F2.
    destruct (decide (r ∈ l /\ r <> b)) as [[Hin Hne]|Hn1].
    + destruct (decide (r ∈ idx :: l /\ r <> b)) as [_|Hn]; [reflexivity|].
      exfalso. apply Hn. split; [apply elem_of_cons; now right|exact Hne].
    + destruct (decide (r = idx /\ r <> b)) as [[-> Hne]|Hn2].
      * destruct (decide (idx ∈ idx :: l /\ idx <> b)) as [_|Hn]; [reflexivity|].
        exfalso. apply Hn. split; [apply elem_of_cons; now left|exact Hne].
      * destruct (decide (r ∈ idx :: l /\ r <> b)) as [[Hin Hne]|_]; [|reflexivity].
        exfalso. apply elem_of_cons in Hin as [->|Hin]; [apply Hn2|apply Hn1]; auto.
Qed.

Lemma expandRow_spec (fo beam b : Z) (a : Z -> elt) (r j : Z) :
  0 <= b -> 0 < beam -> (b + 1) * beam * splitSize <= Int.max_signed ->
  0 <= j < splitSize ->
  expandRow splitSize fo beam a b (fo + r * splitSize + j)
  = if decide (b * beam <= r < (b + 1) * beam /\ r <> b) then a (fo + b * splitSize + j)
    else a (fo + r * splitSize + j).
Proof.
  intros Hb Hbeam Hmax Hj.
  assert (E1 : 0 <= (b + 1) * beam) by (apply Z.mul_nonneg_nonneg; lia).
  assert (E2 : (b + 1) * beam <= (b + 1) * beam * splitSize).
  { transitivity ((b + 1) * beam * 1); [lia|]. apply Z.mul_le_mono_nonneg_l; lia. }
  assert (E3 : 0 <= b * beam <= (b + 1) * beam).
  { split; [apply Z.mul_nonneg_nonneg; lia|]. apply Z.mul_le_mono_nonneg_r; lia. }
  assert (E4 : b + 1 <= (b + 1) * beam).
  { transitivity ((b + 1) * 1); [lia|]. apply Z.mul_le_mono_nonneg_l; lia. }
  assert (E5 : forall idx, 0 <= idx < (b + 1) * beam -> 0 <= idx * splitSize <= Int.max_signed).
  { intros idx Hidx. split; [apply Z.mul_nonneg_nonneg; lia|].
    transitivity ((b + 1) * beam * splitSize); [|exact Hmax].
    apply Z.mul_le_mono_nonneg_r; lia. }
  unfold expandRow. cbv zeta.
  rewrite (mul_small b beam) by (apply in_range_nonneg; lia).
  rewrite (add_small b 1) by (apply in_range_nonneg; lia).
  rewrite (mul_small (b + 1) beam) by (apply in_range_nonneg; lia).
  rewrite (mul_small b splitSize) by (apply in_range_nonneg, E5; lia).
  rewrite (fold_left_ext_in _
             (fun a idx =>
                if idx =? b then a
                else memcpy a (fo + idx * splitSize) a (fo + b * splitSize) splitSize)).
  2:{ intros a' idx Hidx. apply elem_of_seqZ in Hidx.
      rewrite (mul_small idx splitSize) by (apply in_range_nonneg, E5; lia). reflexivity. }
  rewrite expand_inner by assumption.
  destruct (decide (r ∈ seqZ (b * beam) ((b + 1) * beam - b * beam) /\ r <> b))
    as [[Hin Hne]|Hn];
    destruct (decide (b * beam <= r < (b + 1) * beam /\ r <> b)) as [[Hr Hne']|Hn'];
    try reflexivity; exfalso.
  - apply Hn'. apply elem_of_seqZ in Hin. split; [lia|exact Hne].
  - apply Hn. split; [apply elem_of_seqZ; lia|exact Hne'].
Qed.

Lemma expand_outer (fo beam : Z) (n : nat) (a : Z -> elt) (r j : Z) :
  1 < beam -> Z.of_nat n * beam * splitSize <= Int.max_signed ->
  0 <= j < splitSize ->
  fold_left (expandRow splitSize fo beam) (reverse (seqZ 0 (Z.of_nat n))) a
    (fo + r * splitSize + j)
  = if decide (0 <= r < Z.of_nat n * beam) then a (fo + r / beam * splitSize + j)
    else a (fo + r * splitSize + j).
Proof.
  intros Hbeam Hmax Hj. revert a Hmax. induction n as [|n IH]; intros a Hmax.
  - change (Z.of_nat 0) with 0. rewrite seqZ_nil by lia.
    destruct (decide (0 <= r < 0 * beam)) as [Hr|_]; [lia|reflexivity].
  - rewrite seqZ_S, reverse_app, Z.add_0_l.
    change (reverse [Z.of_nat n]) with [Z.of_nat n]. cbn [app fold_left].
    set (N := Z.of_nat n) in *.
    assert (HN : Z.of_nat (S n) = N + 1) by lia. rewrite HN in *.
    assert (E0 : 0 <= N) by lia.
    assert (E1 : N * beam <= (N + 1) * beam) by (apply Z.mul_le_mono_nonneg_r; lia).
    assert (E2 : N * beam * splitSize <= (N + 1) * beam * splitSize).
    { apply Z.mul_le_mono_nonneg_r; lia. }
    assert (E3 : N <= N * beam).
    { transitivity (N * 1); [lia|]. apply Z.mul_le_mono_nonneg_l; lia. }
    rewrite IH by lia.
    destruct (decide (0 <= r < N * beam)) as [Hr|Hr].
    + rewrite expandRow_spec by (try assumption; lia).
      assert (Hq : 0 <= r / beam < N).
      { split; [apply Z.div_pos; lia|]. apply Z.div_lt_upper_bound; lia. }
      destruct (decide (N * beam <= r / beam < (N + 1) * beam /\ r / beam <> N))
        as [[Hc _]|_]; [lia|].
      destruct (decide (0 <= r < (N + 1) * beam)) as [_|Hn]; [reflexivity|lia].
    + rewrite expandRow_spec by (try assumption; lia).
      destruct (decide (N * beam <= r < (N + 1) * beam /\ r <> N)) as [[Hc Hne]|Hc].
      * destruct (decide (0 <= r < (N + 1) * beam)) as [_|Hn]; [|lia].
        replace (r / beam) with N; [reflexivity|].
        apply (Z.div_unique r beam N (r - N * beam)); lia.
      * destruct (decide (0 <= r < (N + 1) * beam)) as [Hin|_]; [|reflexivity].
        assert (r = N) by (destruct (Z.eq_dec r N); [assumption|exfalso; apply Hc; lia]).
        subst r. assert (E4 : N * 2 <= N * beam) by (apply Z.mul_le_mono_nonneg_l; lia).
        assert (N = 0) by lia.
        replace (N / beam) with N; [reflexivity|].
        rewrite H. symmetry. apply Z.div_small. lia.
Qed.



(** ** C5: reordering the cache *)

(** C5. [reorderCache(idx, size)], with every [idx[i]] among the rows
    [0, ..., size - 1], changes nothing but the KV cache, and there: at a time
    step outside [initSeqLen, accSeqLen) every key and value of every layer
    stays as it was; at a time step inside, row [b < size] receives what row
    [idx[b]] held; rows from [size] on stay as they were. With the identity
    for [idx] the whole cache stays as it was. *)
Theorem reorderCache_range (idx : IntArray) (size : Z) (m : Mach) :
  (forall i, 0 <= i < size -> 0 <= idx i < size) ->
  exists m',
    reorderCache idx size m = Ok tt m'
    /\ same_core m m' /\ act (heap m') = act (heap m) /\ log m' = log m
    /\ (forall layer seq b,
          ~ (initSeqLen m <= seq < accSeqLen m) ->
          KVCacheManager.cachedKeys (kvCacheMgr (heap m')) layer seq b
          = KVCacheManager.cachedKeys (kvCacheMgr (heap m)) layer seq b
          /\ KVCacheManager.cachedValues (kvCacheMgr (heap m')) layer seq b
             = KVCacheManager.cachedValues (kvCacheMgr (heap m)) layer seq b)
    /\ (forall layer seq b,
          initSeqLen m <= seq < accSeqLen m -> 0 <= b < size ->
          0 <= idx b < size
          /\ KVCacheManager.cachedKeys (kvCacheMgr (heap m')) layer seq b
             = KVCacheManager.cachedKeys (kvCacheMgr (heap m)) layer seq (idx b)
          /\ KVCacheManager.cachedValues (kvCacheMgr (heap m')) layer seq b
             = KVCacheManager.cachedValues (kvCacheMgr (heap m)) layer seq (idx b))
    /\ (forall layer seq b,
          ~ (0 <= b < size) ->
          KVCacheManager.cachedKeys (kvCacheMgr (heap m')) layer seq b
          = KVCacheManager.cachedKeys (kvCacheMgr (heap m)) layer seq b
          /\ KVCacheManager.cachedValues (kvCacheMgr (heap m')) layer seq b
             = KVCacheManager.cachedValues (kvCacheMgr (heap m)) layer seq b)
    /\ ((forall i, 0 <= i < size -> idx i = i) ->
        forall layer seq b,
          KVCacheManager.cachedKeys (kvCacheMgr (heap m')) layer seq b
          = KVCacheManager.cachedKeys (kvCacheMgr (heap m)) layer seq b
          /\ KVCacheManager.cachedValues (kvCacheMgr (heap m')) layer seq b
             = KVCacheManager.cachedValues (kvCacheMgr (heap m)) layer seq b).
Proof.
  intros Hidx. eexists. split; [reflexivity|].
  split; [repeat split|]. split; [reflexivity|]. split; [reflexivity|].
  cbn [heap set_kvCacheMgr set_heap kvCacheMgr KVCacheManager.reorderCache
       KVCacheManager.cachedKeys KVCacheManager.cachedValues].
  unfold KVCacheManager.reorder.
  split; [|split; [|split]].
  - intros layer seq b Hout.
    destruct (Z.leb_spec (initSeqLen m) seq), (Z.ltb_spec seq (accSeqLen m));
      cbn [andb]; try (split; reflexivity). lia.
  - intros layer seq b Hin Hb. split; [apply Hidx, Hb|].
    destruct (Z.leb_spec (initSeqLen m) seq); [|lia].
    destruct (Z.ltb_spec seq (accSeqLen m)); [|lia].
    destruct (Z.leb_spec 0 b); [|lia]. destruct (Z.ltb_spec b size); [|lia].
    split; reflexivity.
  - intros layer seq b Hout.
    destruct (Z.leb_spec 0 b), (Z.ltb_spec b size);
      rewrite ?andb_false_r; cbn [andb]; try (split; reflexivity). lia.
  - intros Hid layer seq b.
    destruct ((initSeqLen m <=? seq) && (seq <? accSeqLen m)); cbn [andb];
      [|split; reflexivity].
    destruct (Z.leb_spec 0 b), (Z.ltb_spec b size); cbn [andb]; try (split; reflexivity).
    rewrite Hid by lia. split; reflexivity.
Qed.

(** ** The context and the constructor, call by call *)

(** The arguments the constructor hands to [getDecoderContext]. *)
Local Abbreviation ctx_args cfg :=
  {| a_layers := num_layer cfg;
     a_hiddenSize := Int.mul (head_num cfg) (size_per_head cfg);
     a_attHeadNum := head_num cfg; a_kvHeadNum := kv_head_num cfg;
     a_imSize := inter_size cfg; a_act := activation_type cfg;
     a_vocabSize := vocab_size cfg;
     a_embeddingSize := Int.mul (head_num cfg) (size_per_head cfg);
     a_maxPositions := model_max_length cfg; a_maxPosEmbed := max_pos_seq_len cfg;
     a_maxSeqLength := seq_length cfg |}.

Lemma getDecoderContext_fresh (a : CtxArgs) (m : Mach) :
  context m = None ->
  let rank := getRank (messenger m) in
  let size := getSize (messenger m) in
  let c := DecoderContext_new a rank size in
  getDecoderContext extern Env_getPipeline DecoderContext_new a m
  = Ok c (set_context elt cell (Some c)
            (after_calls extern
               [Printf "pp_size: %d, pp_rank: %d, tp_size: %d, tp_rank: %d\n"; NewDecoderContext a rank size]
               (set_topology elt cell Env_getPipeline (getColor (messenger m)) size rank m))).
Proof.
  intros Hc rank size c. unfold getDecoderContext. mstep. cbn. rewrite Hc. mstep.
  reflexivity.
Qed.

(** X4. On a decoder without a context,
    [getDecoderContext] builds one from its arguments, the messenger's rank
    and size, with a single call of the context's constructor, stores it
    and sets pp_size, pp_rank, tp_size and tp_rank from the environment and
    the messenger. Where the context built keeps the shape it was given, a
    second call with the same arguments returns that same context and
    builds nothing. *)
Theorem getDecoderContext_creates_once (a : CtxArgs) (m : Mach) :
  context m = None ->
  let rank := getRank (messenger m) in
  let size := getSize (messenger m) in
  let c := DecoderContext_new a rank size in
  shape_matches c a rank ->
  exists m1 m2,
    getDecoderContext extern Env_getPipeline DecoderContext_new a m = Ok c m1
    /\ context m1 = Some c
    /\ filter constructs (events_since (log m) m1) = [NewDecoderContext a rank size]
    /\ pp_size m1 = Env_getPipeline /\ pp_rank m1 = getColor (messenger m)
    /\ tp_size m1 = size /\ tp_rank m1 = rank
    /\ getDecoderContext extern Env_getPipeline DecoderContext_new a m1 = Ok c m2
    /\ context m2 = Some c
    /\ filter constructs (events_since (log m1) m2) = [].
Proof.
  intros Hc rank size c Hshape.
  rewrite (getDecoderContext_fresh a m Hc). fold rank size c.
  eexists _, _. split; [reflexivity|]. split; [reflexivity|]. split.
  { unfold events_since. cbn. rewrite <- app_assoc, drop_app_length. reflexivity. }
  split; [reflexivity|]. split; [reflexivity|]. split; [reflexivity|].
  split; [reflexivity|].
  unfold getDecoderContext at 1. mstep. cbn.
  apply same_shape_spec in Hshape. fold rank. rewrite Hshape.
  split; [reflexivity|]. split; [reflexivity|].
  unfold events_since. cbn. rewrite drop_app_length. reflexivity.
Qed.

(** The calls of the constructor's loop over its layers. *)
Lemma new_decoders_trace (l : list Z) (m : Mach) :
  exists m',
    forM_ elt cell l (fun i =>
      call extern (NewDecoder i);;
      call extern (SetDecoderWeights i);;
      modify elt cell (fun m => set_decoders elt cell (decoders m ++ [i]) m)) m = Ok tt m'
    /\ decoders m' = decoders m ++ l
    /\ map ev (log m')
       = map ev (log m) ++ flat_map (fun i => [NewDecoder i; SetDecoderWeights i]) l
    /\ messenger m' = messenger m /\ pp_size m' = pp_size m /\ pp_rank m' = pp_rank m
    /\ tp_size m' = tp_size m /\ tp_rank m' = tp_rank m /\ context m' = context m
    /\ initSeqLen m' = initSeqLen m /\ accSeqLen m' = accSeqLen m
    /\ prefixSeqLen m' = prefixSeqLen m /\ prefixSharing m' = prefixSharing m
    /\ maskSize m' = maskSize m.
Proof.
  revert m. induction l as [|i l IH]; intros m.
  - exists m. cbn. rewrite !app_nil_r. repeat split.
  - cbn [forM_]. mstep.
    destruct (IH (set_decoders elt cell
                    (decoders (after_call extern (SetDecoderWeights i)
                                 (after_call extern (NewDecoder i) m)) ++ [i])
                    (after_call extern (SetDecoderWeights i)
                       (after_call extern (NewDecoder i) m))))
      as (m' & Hrun & Hd & Hlog & Hrest).
    exists m'. split; [exact Hrun|]. cbn in Hd, Hlog, Hrest.
    split; [rewrite Hd, <- app_assoc; reflexivity|]. split; [|exact Hrest].
    rewrite Hlog, !map_app. cbn. rewrite <- !app_assoc. reflexivity.
Qed.

(** The constructor at stage [getColor msgr] of [P]: state and calls. *)
Lemma constructor_trace (cfg : Config) (msgr : Messenger) (h : Heap elt cell)
    (l : list (Call elt cell)) :
  0 <= num_layer cfg <= Int.max_signed ->
  0 < Env_getPipeline ->
  0 <= getColor msgr < Env_getPipeline ->
  let L := num_layer cfg in
  let P := Env_getPipeline in
  let H := Int.mul (head_num cfg) (size_per_head cfg) in
  let own := seqZ (getColor msgr * (L / P)) (L / P) in
  exists m',
    CommonDecoder_new extern Env_getPipeline DecoderContext_new cfg (fresh msgr h l)
    = Ok tt m'
    /\ decoders m' = own
    /\ map ev (log m')
       = map ev l
         ++ [Printf "pp_size: %d, pp_rank: %d, tp_size: %d, tp_rank: %d\n";
             NewDecoderContext (ctx_args cfg) (getRank msgr) (getSize msgr)]
         ++ (if L mod P =? 0 then [] else [uneven_warning])
         ++ flat_map (fun i => [NewDecoder i; SetDecoderWeights i]) own
         ++ [NewPredictor H (vocab_size cfg) (getRank msgr) (getSize msgr);
             SetPredictorWeight; NewKVCacheManager L]
    /\ messenger m' = msgr /\ pp_size m' = P /\ pp_rank m' = getColor msgr
    /\ tp_size m' = getSize msgr /\ tp_rank m' = getRank msgr
    /\ context m'
       = Some (DecoderContext_new (ctx_args cfg) (getRank msgr) (getSize msgr))
    /\ initSeqLen m' = 0 /\ accSeqLen m' = 0
    /\ prefixSeqLen m' = 0 /\ prefixSharing m' = false
    /\ maskSize m' = 0.
Proof.
  intros HL HP Hr L P H own.
  assert (Hper : 0 <= L / P) by (apply Z.div_pos; lia).
  assert (HperL : P * (L / P) <= L) by (apply Z.mul_div_le; lia).
  assert (Hmul : Int.mul (getColor msgr) (L / P) = getColor msgr * (L / P)).
  { apply mul_small, in_range_nonneg. nia. }
  assert (Hadd : Int.add (getColor msgr * (L / P)) (L / P) = getColor msgr * (L / P) + L / P).
  { apply add_small, in_range_nonneg. nia. }
  unfold CommonDecoder_new. mstep.
  match goal with
  | |- context [getDecoderContext _ _ _ ?a ≫= _] =>
      match goal with
      | |- exists m', mbind _ _ ?m0 = _ /\ _ =>
          rewrite (bind_Ok _ _ _ _ _ (getDecoderContext_fresh a m0 eq_refl))
      end
  end.
  mstep. cbn [pp_size pp_rank set_context set_topology after_calls fold_left after_call
                set_log set_heap].
  rewrite (bind_lift _ _ _ _ (rem_pos _ _ (proj1 HL) HP)).
  fold L P.
  destruct (Z.eqb_spec (L mod P) 0) as [Hz|Hz]; cbn [negb]; mstep;
    rewrite (bind_lift _ _ _ _ (div_pos _ _ (proj1 HL) HP)); fold L P;
    cbn [pp_size pp_rank set_context set_topology after_calls fold_left after_call
           set_log set_heap messenger fresh set_maskSize set_prefixSharing
           set_prefixSeqLen set_accSeqLen set_initSeqLen];
    rewrite Hmul, Hadd;
    replace (getColor msgr * (L / P) + L / P - getColor msgr * (L / P)) with (L / P) by lia;
    fold own;
    match goal with
    | |- context [forM_ _ _ ?ll ?f ≫= _] =>
        match goal with
        | |- exists m', mbind _ _ ?m0 = _ /\ _ =>
            destruct (new_decoders_trace ll m0)
              as (m3 & Hm3 & Hd3 & Hlog3 & Hmsg3 & Hs3 & Hr3 & Hts3 & Htr3 & Hc3
                  & Hi3 & Ha3 & Hps3 & Hpf3 & Hmk3)
        end
    end;
    rewrite (bind_Ok _ _ _ _ _ Hm3); mstep;
    (eexists; split; [reflexivity|]); cbn; cbn in Hd3, Hlog3, Hmsg3, Hs3, Hr3, Hts3,
      Htr3, Hc3, Hi3, Ha3, Hps3, Hpf3, Hmk3;
    rewrite ?Hd3, ?Hmsg3, ?Hs3, ?Hr3, ?Hts3, ?Htr3, ?Hc3, ?Hi3, ?Ha3, ?Hps3, ?Hpf3, ?Hmk3;
    (split; [reflexivity|]);
    (split; [rewrite !map_app; cbn; rewrite Hlog3, !map_app; cbn;
             rewrite <- !app_assoc; cbn; reflexivity|]);
    repeat split.
Qed.

Lemma events_since_app (l : list (Call elt cell)) (m' : Mach) (es : list Event) :
  map ev (log m') = map ev l ++ es -> events_since l m' = es.
Proof.
  intros H. unfold events_since. rewrite <- skipn_map, H.
  rewrite <- (length_map ev l). apply drop_app_length.
Qed.


(** X6. For any number of layers [L] and of
    stages [P], the layers the [P] stages load, taken in stage order, are
    [0, ..., P * (L / P) - 1]: a layer from [P * (L / P)] on, one of the
    last [L mod P], is loaded by no stage. The constructor prints its
    warning exactly when [L mod P] is not 0, and goes on. *)
Theorem constructor_uneven_layers (cfg : Config) :
  0 <= num_layer cfg <= Int.max_signed ->
  0 < Env_getPipeline ->
  let L := num_layer cfg in
  let P := Env_getPipeline in
  forall tpSize tpRank h l,
    let stage := fun r =>
      CommonDecoder_new extern Env_getPipeline DecoderContext_new cfg
        (fresh {| getSize := tpSize; getRank := tpRank; getColor := r |} h l) in
    concat (map (fun r => assigned_layers (stage r)) (seqZ 0 P)) = seqZ 0 (P * (L / P))
    /\ (forall i r, P * (L / P) <= i -> 0 <= r < P -> i ∉ assigned_layers (stage r))
    /\ (forall r, 0 <= r < P ->
          exists m', stage r = Ok tt m'
            /\ (uneven_warning ∈ events_since l m' <-> L mod P <> 0)).
Proof.
  intros HL HP L P tpSize tpRank h l stage.
  assert (Hper : 0 <= L / P) by (apply Z.div_pos; lia).
  assert (Hstage : forall r, 0 <= r < P ->
            assigned_layers (stage r) = seqZ (r * (L / P)) (L / P)).
  { intros r Hr. unfold stage.
    destruct (constructor_trace cfg {| getSize := tpSize; getRank := tpRank; getColor := r |}
                h l HL HP) as (m' & Hrun & Hd & _); [exact Hr|].
    rewrite Hrun. exact Hd. }
  split; [|split].
  - rewrite (map_ext_in _ (fun r => seqZ (r * (L / P)) (L / P))).
    2:{ intros r Hr. apply Hstage. apply list_elem_of_In, elem_of_seqZ in Hr. lia. }
    replace P with (Z.of_nat (Z.to_nat P)) at 1 by lia.
    rewrite stage_blocks by assumption.
    f_equal. rewrite Z2Nat.id by lia. reflexivity.
  - intros i r Hi Hr. rewrite Hstage by assumption. rewrite elem_of_seqZ. nia.
  - intros r Hr. unfold stage.
    destruct (constructor_trace cfg {| getSize := tpSize; getRank := tpRank; getColor := r |}
                h l HL HP) as (m' & Hrun & _ & Hlog & _); [exact Hr|].
    exists m'. split; [exact Hrun|].
    rewrite (events_since_app _ _ _ Hlog). fold L P.
    rewrite !elem_of_app.
    destruct (Z.eqb_spec (L mod P) 0) as [Hz|Hz].
    + split; [|tauto].
      intros [Hw|[Hw|[Hw|Hw]]].
      * rewrite !elem_of_cons, elem_of_nil in Hw.
        destruct Hw as [Hw|[Hw|[]]]; discriminate Hw.
      * apply elem_of_nil in Hw. destruct Hw.
      * apply list_elem_of_In, in_flat_map in Hw.
        destruct Hw as (x & _ & [Hx|[Hx|[]]]); discriminate Hx.
      * rewrite !elem_of_cons, elem_of_nil in Hw.
        destruct Hw as [Hw|[Hw|[Hw|[]]]]; discriminate Hw.
    + split; [tauto|]. intros _. right. left. apply elem_of_cons. now left.
Qed.

(** X7. With a pipeline size of 0 the constructor
    does not return: [layers % pp_size] divides by zero. *)
Theorem constructor_no_stages (cfg : Config) (msgr : Messenger) (h : Heap elt cell)
    (l : list (Call elt cell)) :
  Env_getPipeline = 0 ->
  CommonDecoder_new extern Env_getPipeline DecoderContext_new cfg (fresh msgr h l) = Trap.
Proof.
  intros HP. unfold CommonDecoder_new. mstep.
  match goal with
  | |- context [getDecoderContext _ _ _ ?a ≫= _] =>
      match goal with
      | |- mbind _ _ ?m0 = _ =>
          rewrite (bind_Ok _ _ _ _ _ (getDecoderContext_fresh a m0 eq_refl))
      end
  end.
  mstep. cbn [pp_size set_context set_topology after_calls fold_left after_call
                set_log set_heap].
  rewrite HP. reflexivity.
Qed.

(** ** Buffers: the attention mask and [prepareBuffers] *)

Lemma getAttnMask_run (n : Z) (m : Mach) :
  getAttnMask extern n m
  = Ok tt (if maskSize m <? n
           then set_maskSize elt cell n (after_call extern (AllocAttnMask n) m)
           else m).
Proof. unfold getAttnMask. mstep. destruct (maskSize m <? n); now mstep. Qed.

Lemma max_foldr_le (l : list Z) (a : Z) : a <= foldr Z.max a l.
Proof. induction l as [|x l IH]; cbn; lia. Qed.

Lemma max_foldr_comm (l : list Z) (a b : Z) :
  foldr Z.max (Z.max a b) l = Z.max a (foldr Z.max b l).
Proof. induction l as [|x l IH]; cbn; [reflexivity|]. rewrite IH. lia. Qed.

Lemma masks_run (sizes : list Z) (m : Mach) :
  exists m',
    forM_ elt cell sizes (getAttnMask extern) m = Ok tt m'
    /\ maskSize m' = foldr Z.max (maskSize m) sizes
    /\ same_core m m'
    /\ exists ns,
         map ev (log m') = map ev (log m) ++ map AllocAttnMask ns
         /\ increasing_from (maskSize m) ns
         /\ (forall k, k ∈ ns -> k ∈ sizes).
Proof.
  revert m. induction sizes as [|n sizes IH]; intros m.
  - exists m. split; [reflexivity|]. split; [reflexivity|]. split; [apply same_core_refl|].
    exists []. cbn. rewrite app_nil_r. split; [reflexivity|].
    split; [exact I|]. intros k Hk. inversion Hk.
  - cbn [forM_]. rewrite (bind_Ok _ _ _ _ _ (getAttnMask_run n m)).
    destruct (Z.ltb_spec (maskSize m) n) as [Hlt|Hge].
    + destruct (IH (set_maskSize elt cell n (after_call extern (AllocAttnMask n) m)))
        as (m' & Hrun & Hmax & Hcore & ns & Hlog & Hsorted & Hsub).
      exists m'. split; [exact Hrun|]. cbn in Hmax, Hlog, Hsorted.
      split.
      { rewrite Hmax. cbn.
        replace n with (Z.max n (maskSize m)) at 1 by lia.
        apply max_foldr_comm. }
      split.
      { eapply same_core_trans; [|exact Hcore]. repeat split. }
      exists (n :: ns). split; [|split].
      * rewrite Hlog, map_app. cbn. rewrite <- app_assoc. reflexivity.
      * cbn. split; assumption.
      * intros k Hk. apply elem_of_cons in Hk as [->|Hk]; apply elem_of_cons;
          [now left|right; now apply Hsub].
    + destruct (IH m) as (m' & Hrun & Hmax & Hcore & ns & Hlog & Hsorted & Hsub).
      exists m'. split; [exact Hrun|]. split.
      { rewrite Hmax. cbn. pose proof (max_foldr_le sizes (maskSize m)). lia. }
      split; [exact Hcore|].
      exists ns. split; [exact Hlog|]. split; [exact Hsorted|].
      intros k Hk. apply elem_of_cons. right. now apply Hsub.
Qed.

(** X8. Over any series of requests, the
    attention mask is replaced by a newly allocated one only for a request
    larger than the size held: the sizes allocated increase strictly,
    starting above the size held before, each is one of the sizes
    requested, nothing else is called, and the size held in the end is the
    largest of the initial size and the requests. Requests that do not
    exceed the size held allocate nothing. *)
Theorem getAttnMask_grows_only (sizes : list Z) (m : Mach) :
  exists m',
    forM_ elt cell sizes (getAttnMask extern) m = Ok tt m'
    /\ maskSize m' = foldr Z.max (maskSize m) sizes
    /\ events_since (log m) m'
       = map AllocAttnMask (mask_allocations (events_since (log m) m'))
    /\ increasing_from (maskSize m) (mask_allocations (events_since (log m) m'))
    /\ (forall n, n ∈ mask_allocations (events_since (log m) m') -> n ∈ sizes)
    /\ (Forall (fun n => n <= maskSize m) sizes -> events_since (log m) m' = []).
Proof.
  destruct (masks_run sizes m) as (m' & Hrun & Hmax & _ & ns & Hlog & Hsorted & Hsub).
  exists m'. split; [exact Hrun|]. split; [exact Hmax|].
  rewrite (events_since_app _ _ _ Hlog).
  assert (Hns : mask_allocations (map AllocAttnMask ns) = ns).
  { unfold mask_allocations. clear. induction ns as [|n ns IHns]; [reflexivity|].
    cbn. f_equal. exact IHns. }
  rewrite Hns. split; [reflexivity|]. split; [exact Hsorted|]. split; [exact Hsub|].
  intros Hall. destruct ns as [|n ns]; [reflexivity|]. exfalso.
  destruct Hsorted as [Hlt _].
  assert (Hin : n ∈ sizes) by (apply Hsub, elem_of_cons; now left).
  rewrite Forall_forall in Hall. specialize (Hall n Hin). lia.
Qed.

Lemma prepareBuffers_trace (u beam : Z) (la pre : bool) (m : Mach) (c : DecoderContext) :
  context m = Some c -> 0 < ctx_hiddenSize c -> 0 < getSize (messenger m) ->
  exists m',
    prepareBuffers extern u beam la pre m = Ok tt m'
    /\ same_core m m'
    /\ map ev (log m')
       = map ev (log m)
         ++ prepare_calls c (getSize (messenger m)) (maskSize m) (prefixSeqLen m) u beam la pre
    /\ maskSize m'
       = Z.max (maskSize m)
           (Int.mul (Int.mul (ctx_batchSize c) (ctx_inputSeqLen c)) (ctx_inputSeqLen c))
    /\ synced m'.
Proof.
  intros Hc HH Hw. unfold prepareBuffers, prepare_calls.
  rewrite (bind_getContext _ _ _ Hc). mstep.
  set (a := Int.mul _ (ctx_vocabSize c)).
  destruct (div_total a (ctx_hiddenSize c) HH) as (q & Hq).
  destruct (div_total (Int.sub (Int.add (ctx_kvHeadNum c) (getSize (messenger m))) 1)
              (getSize (messenger m)) Hw) as (hps & Hhps).
  rewrite Hq, Hhps. cbn [default from_option id].
  destruct (a >? _); rewrite ?bind_assoc, ?(bind_lift (Some q) q _ _ eq_refl); mstep;
    (match goal with
     | |- exists m', mbind _ (getAttnMask _ ?n) ?m0 = _ /\ _ =>
         rewrite (bind_Ok _ _ _ _ _ (getAttnMask_run n m0))
     end);
    cbn [maskSize after_call set_log set_heap];
    (match goal with
     | |- context [maskSize m <? ?n] => destruct (Z.ltb_spec (maskSize m) n)
     end);
    rewrite (bind_lift (Some hps) hps _ _ eq_refl); mstep;
    (eexists; split; [reflexivity|]); (split; [repeat split|]);
    cbn; rewrite ?map_app; cbn; rewrite <- ?app_assoc;
    (split; [reflexivity|]); (split; [lia|]); eexists _, _; split; reflexivity.
Qed.

(** The rows [prepareBuffers] asks for, and what they hold. *)
Lemma prepare_act_rows (c : DecoderContext) (w ms psl u beam : Z) (la pre : bool) :
  let B := ctx_batchSize c in
  let S := ctx_inputSeqLen c in
  let H := ctx_hiddenSize c in
  let V := ctx_vocabSize c in
  let logitsLen := if la then B * S else u * beam in
  0 < H ->
  0 <= B * S -> B * S * H <= Int.max_signed ->
  0 <= logitsLen <= Int.max_signed -> 0 <= V -> logitsLen * V <= Int.max_signed ->
  B * S + Z.max (B * S) (logitsLen * V / H + 1) <= Int.max_signed ->
  exists rows,
    calls_to c_act_resize (prepare_calls c w ms psl u beam la pre) = [ActResize rows H]
    /\ B * S * H + Z.max (B * S * H) (logitsLen * V) <= rows * H.
Proof.
  intros B S H V logitsLen HH HBS HBSH Hll HV HllV Hrows.
  assert (HBSr : B * S <= Int.max_signed) by nia.
  assert (EBS : Int.mul B S = B * S) by (apply mul_small, in_range_nonneg; lia).
  assert (Ell : (if la then Int.mul B S else Int.mul u beam) = logitsLen).
  { unfold logitsLen. destruct la; [exact EBS|].
    apply mul_small, in_range_nonneg. exact Hll. }
  assert (HllV0 : 0 <= logitsLen * V) by (apply Z.mul_nonneg_nonneg; lia).
  assert (HBSH0 : 0 <= B * S * H) by (apply Z.mul_nonneg_nonneg; lia).
  assert (EllV : Int.mul logitsLen V = logitsLen * V).
  { apply mul_small, in_range_nonneg. lia. }
  assert (EBSH : Int.mul (B * S) H = B * S * H).
  { apply mul_small, in_range_nonneg. lia. }
  assert (Eq : Int.div (logitsLen * V) H = Some (logitsLen * V / H)).
  { apply div_pos; lia. }
  assert (Hq0 : 0 <= logitsLen * V / H) by (apply Z.div_pos; lia).
  assert (EqS : Int.add (logitsLen * V / H) 1 = logitsLen * V / H + 1).
  { apply add_small, in_range_nonneg. lia. }
  pose proof (Z.mul_succ_div_gt (logitsLen * V) H HH) as Hgt.
  set (outRows := if logitsLen * V >? B * S * H then logitsLen * V / H + 1 else B * S).
  assert (Hout : 0 <= outRows /\ B * S + outRows <= Int.max_signed
                 /\ B * S * H + Z.max (B * S * H) (logitsLen * V) <= (B * S + outRows) * H).
  { unfold outRows. destruct (Z.gtb_spec (logitsLen * V) (B * S * H)).
    - split; [lia|]. split; [lia|]. rewrite Z.max_r by lia.
      rewrite Z.mul_add_distr_r. unfold Z.succ in Hgt. lia.
    - split; [lia|]. split; [lia|]. rewrite Z.max_l by lia.
      rewrite Z.mul_add_distr_r. lia. }
  destruct Hout as (Hout0 & HoutM & Hcap).
  assert (Erows : Int.add (B * S) outRows = B * S + outRows).
  { apply add_small, in_range_nonneg. lia. }
  exists (B * S + outRows). split; [|exact Hcap].
  unfold prepare_calls. fold B S H V.
  rewrite Ell, EBS, EllV, EBSH, Eq. cbn [default from_option id].
  rewrite EqS. fold outRows. rewrite Erows.
  unfold calls_to. rewrite !filter_app.
  destruct (ms <? _); reflexivity.
Qed.

(** X9. [prepareBuffers] asks for an activation
    block of [rows] rows of [hiddenSize] elements that holds the step's
    activations ([batchSize * seqLen] rows) and, after them, as much again
    or [logitsLen * vocabSize] logits, whichever is more; and for a KV
    cache of [ceil(kvHeadNum / workers)] heads per split, over
    [maxPositions] time steps, or over [prefixSeqLen] for the prefix cache.
    The sizes are those of the context; no product or sum overflows. *)
Theorem prepareBuffers_capacity (u beam : Z) (la pre : bool) (m : Mach)
    (c : DecoderContext) :
  context m = Some c ->
  let B := ctx_batchSize c in
  let S := ctx_inputSeqLen c in
  let H := ctx_hiddenSize c in
  let V := ctx_vocabSize c in
  let workers := getSize (messenger m) in
  let kv := ctx_kvHeadNum c in
  let logitsLen := if la then B * S else u * beam in
  0 < H -> 0 < workers ->
  0 <= B * S -> B * S * H <= Int.max_signed ->
  0 <= logitsLen <= Int.max_signed -> 0 <= V -> logitsLen * V <= Int.max_signed ->
  B * S + Z.max (B * S) (logitsLen * V / H + 1) <= Int.max_signed ->
  0 <= kv -> kv + workers <= Int.max_signed ->
  exists m' rows heads,
    prepareBuffers extern u beam la pre m = Ok tt m'
    /\ calls_to c_act_resize (events_since (log m) m') = [ActResize rows H]
    /\ B * S * H + Z.max (B * S * H) (logitsLen * V) <= rows * H
    /\ calls_to c_kv_resize (events_since (log m) m')
       = [KVResize (if pre then prefixSeqLen m else ctx_maxPositions c) (Int.mul u beam)
            heads (ctx_attHeadSize c) pre]
    /\ (heads - 1) * workers < kv <= heads * workers.
Proof.
  intros Hc B S H V workers kv logitsLen HH Hw HBS HBSH Hll HV HllV Hrows Hkv Hkvw.
  destruct (prepareBuffers_trace u beam la pre m c Hc HH Hw)
    as (m' & Hrun & _ & Hlog & _ & _).
  apply events_since_app in Hlog.
  destruct (prepare_act_rows c workers (maskSize m) (prefixSeqLen m) u beam la pre
              HH HBS HBSH Hll HV HllV Hrows) as (rows & Hact & Hcap).
  assert (Ekw : Int.sub (Int.add kv workers) 1 = kv + workers - 1).
  { replace (Int.add kv workers) with (kv + workers).
    - apply sub_small, in_range_nonneg. clear - Hkv Hw Hkvw. lia.
    - symmetry. apply add_small, in_range_nonneg. clear - Hkv Hw Hkvw. lia. }
  assert (Eh : Int.div (kv + workers - 1) workers = Some ((kv + workers - 1) / workers)).
  { apply div_pos; lia. }
  pose proof (Z.mul_div_le (kv + workers - 1) workers Hw) as Hh1.
  pose proof (Z.mul_succ_div_gt (kv + workers - 1) workers Hw) as Hh2.
  exists m', rows, ((kv + workers - 1) / workers).
  split; [exact Hrun|]. rewrite Hlog. clear Hlog.
  split; [exact Hact|]. split; [exact Hcap|]. split.
  - unfold prepare_calls. fold kv workers. rewrite Ekw, Eh. cbn [default from_option id].
    unfold calls_to. rewrite !filter_app.
    destruct (maskSize m <? _); reflexivity.
  - split.
    + rewrite Z.mul_sub_distr_r. rewrite (Z.mul_comm _ workers). lia.
    + rewrite (Z.mul_comm _ workers). unfold Z.succ in Hh2.
      rewrite Z.mul_add_distr_l in Hh2. lia.
Qed.

(** ** forward, call by call *)

Lemma after_calls_mask es (m : Mach) : maskSize (after_calls extern es m) = maskSize m.
Proof.
  revert m. induction es as [|e es IH]; intros m; [reflexivity|].
  cbn [after_calls fold_left]. unfold after_calls in IH. now rewrite IH.
Qed.

Lemma decoderLayer_trace (i : Z) (pc : bool) (emb out count S' past : Z) (usa : bool)
    (H : Z) (expand : Mon unit) (ees : list Event) (m : Mach) (dec : Z) :
  decoders m !! Z.to_nat i = Some dec ->
  (forall m0, expand m0 = Ok tt (after_calls extern ees m0)) ->
  decoderLayer extern ATTN_MLP_PARALLEL i pc emb out count S' past usa H expand m
  = Ok tt (after_calls extern
             ([ForwardAttention i dec pc (act_ptr emb) (act_ptr out) (tmp_ptr 0)
                 S' past usa true]
              ++ ees
              ++ ffn_calls ATTN_MLP_PARALLEL (getSize (messenger m)) i dec emb out count H)
             m).
Proof.
  intros Hdec Hexp. unfold decoderLayer. mstep. rewrite (bind_lift _ _ _ _ Hdec). mstep.
  rewrite (bind_Ok _ _ _ _ _ (Hexp _)). mstep.
  match goal with
  | |- context [after_calls extern ees ?m0] =>
      assert (Hmsg : messenger (after_calls extern ees m0) = messenger m)
        by (destruct (after_calls_core ees m0) as (Hm & _); exact Hm)
  end.
  rewrite Hmsg. unfold ffn_calls.
  destruct ATTN_MLP_PARALLEL, (getSize (messenger m) >? 1); cbn [negb andb]; mstep;
    rewrite !after_calls_app; reflexivity.
Qed.

Lemma forwardLayer_trace (step u beam S emb out count S' past H i : Z) (m : Mach)
    (dec : Z) :
  decoders m !! Z.to_nat i = Some dec ->
  forwardLayer extern ATTN_MLP_PARALLEL step u beam S emb out count S' past H i m
  = Ok tt (after_calls extern
             (layer_calls ATTN_MLP_PARALLEL (getSize (messenger m)) step u beam S
                (prefixSharing m) (prefixSeqLen m) emb out count S' past H i dec) m).
Proof.
  intros Hdec. unfold forwardLayer, layer_calls. mstep.
  set (ees := if (step =? 0) && (beam >? 1) then [ExpandCache i u beam S] else []).
  assert (Hexp : forall m0 : Mach,
            (if (step =? 0) && (beam >? 1)
             then call extern (ExpandCache i u beam S) else mret tt) m0
            = Ok tt (after_calls extern ees m0)).
  { intros m0. subst ees. destruct ((step =? 0) && (beam >? 1)); reflexivity. }
  destruct ((step =? 0) && prefixSharing m); mstep.
  - cbn [prefixSeqLen].
    rewrite (decoderLayer_trace i false emb out count S' past (step =? 0) H _ ees
               (after_call extern (ExpandPrefixCache i u (prefixSeqLen m)) m) dec
               Hdec Hexp).
    cbn [messenger after_call set_log set_heap]. reflexivity.
  - rewrite (decoderLayer_trace i false emb out count S' past (step =? 0) H _ ees _ dec
               Hdec Hexp).
    reflexivity.
Qed.

Lemma loop_calls_cons (f : Z -> Z -> list Event) (k : Z) (d : Z) (ds : list Z) :
  loop_calls f k (d :: ds) = f k d ++ loop_calls f (k + 1) ds.
Proof.
  unfold loop_calls. rewrite imap_cons. cbn [concat]. rewrite Z.add_0_r. f_equal. f_equal.
  apply imap_ext. intros j x _. cbn. f_equal. lia.
Qed.

Lemma loop_trace (body : Z -> Mon unit) (f : Z -> Z -> list Event) (m : Mach) :
  (forall i dec m', same_core m m' -> decoders m !! Z.to_nat i = Some dec ->
     body i m' = Ok tt (after_calls extern (f i dec) m')) ->
  forall (suf pre : list Z) (m' : Mach),
    decoders m = pre ++ suf -> same_core m m' ->
    forM_ elt cell (seqZ (Z.of_nat (length pre)) (Z.of_nat (length suf))) body m'
    = Ok tt (after_calls extern (loop_calls f (Z.of_nat (length pre)) suf) m').
Proof.
  intros Hbody. induction suf as [|d suf IH]; intros pre m' Hd Hcore.
  - reflexivity.
  - cbn [length]. rewrite seqZ_cons by lia. cbn [forM_].
    assert (Hlook : decoders m !! Z.to_nat (Z.of_nat (length pre)) = Some d).
    { rewrite Nat2Z.id, Hd. apply list_lookup_middle. reflexivity. }
    rewrite (bind_Ok _ _ _ _ _ (Hbody _ _ _ Hcore Hlook)).
    rewrite loop_calls_cons, after_calls_app.
    replace (Z.succ (Z.of_nat (length pre))) with (Z.of_nat (length (pre ++ [d])))
      by (rewrite length_app; cbn; lia).
    replace (Z.of_nat (length pre) + 1) with (Z.of_nat (length (pre ++ [d])))
      by (rewrite length_app; cbn; lia).
    replace (Z.pred (Z.of_nat (S (length suf)))) with (Z.of_nat (length suf)) by lia.
    apply IH.
    + rewrite Hd, <- app_assoc. reflexivity.
    + eapply same_core_trans; [exact Hcore|apply after_calls_core].
Qed.

Lemma layers_trace (step u beam S emb out count S' past H : Z) (m : Mach) :
  forM_ elt cell (seqZ 0 (Z.of_nat (length (decoders m))))
    (forwardLayer extern ATTN_MLP_PARALLEL step u beam S emb out count S' past H) m
  = Ok tt (after_calls extern
             (loop_calls
                (layer_calls ATTN_MLP_PARALLEL (getSize (messenger m)) step u beam S
                   (prefixSharing m) (prefixSeqLen m) emb out count S' past H)
                0 (decoders m)) m).
Proof.
  apply (loop_trace _ _ m) with (pre := []); [|reflexivity|apply same_core_refl].
  intros i dec m' (C1 & C2 & C3 & C4 & C5 & C6 & C7 & C8 & C9) Hdec.
  rewrite <- C1, <- C7, <- C8. apply forwardLayer_trace. rewrite C9. exact Hdec.
Qed.

(** forward up to the tail, every call named. *)
Lemma forwardRun_trace (step : Z) (la : bool) (u beam B S : Z) (ids : IntArray)
    (past S' : Z) (m : Mach) (c : DecoderContext) :
  context m = Some c ->
  Z.of_nat (length (decoders m)) <= Int.max_signed ->
  let H := ctx_hiddenSize c in
  let count := Int.mul (Int.mul B S') H in
  let stp := Int.add step (Int.of_bool (prefixSharing m)) in
  exists m2,
    forwardRun extern ATTN_MLP_PARALLEL splitOffset splitSize step la u beam B S ids past S' m
    = forwardTail extern splitOffset splitSize step la u beam B S S' H 0 count count m2
    /\ kept m m2
    /\ context m2 = context m
    /\ initSeqLen m2 = initSeqLen m
    /\ accSeqLen m2 = Int.add (accSeqLen m) S
    /\ maskSize m2 = maskSize m
    /\ map ev (log m2)
       = map ev (log m)
         ++ [EmbeddingForward ids (act_ptr 0) B S'; PrepareAttnMask ids stp;
             GetPositionIds ids B S' stp]
         ++ (if pp_rank m >? 0
             then [MPI_Recv (act_ptr 0) count (Int.sub (pp_rank m) 1)
                     (Int.mul 100 (Int.sub (pp_rank m) 1))]
             else [])
         ++ loop_calls
              (layer_calls ATTN_MLP_PARALLEL (getSize (messenger m)) step u beam S
                 (prefixSharing m) (prefixSeqLen m) 0 count count S' past H)
              0 (decoders m)
    /\ synced m2.
Proof.
  intros Hc Hlen H count stp. unfold forwardRun. rewrite (bind_getContext _ _ _ Hc). mstep.
  cbn [prefixSharing pp_rank decoders set_accSeqLen after_call set_log set_heap].
  fold H count stp. change (0 + count) with count.
  set (m1 := after_call extern (GetPositionIds _ _ _ _) _).
  set (m1' := if pp_rank m >? 0
              then after_call extern (MPI_Recv (act_ptr 0) count (Int.sub (pp_rank m) 1)
                                        (Int.mul 100 (Int.sub (pp_rank m) 1))) m1
              else m1).
  assert (Hrecv : (if pp_rank m >? 0
                   then call extern (MPI_Recv (act_ptr 0) count (Int.sub (pp_rank m) 1)
                                       (Int.mul 100 (Int.sub (pp_rank m) 1)))
                   else mret tt) m1 = Ok tt m1').
  { subst m1'. destruct (pp_rank m >? 0); reflexivity. }
  rewrite (bind_Ok _ _ _ _ _ Hrecv). mstep.
  assert (Hk1 : kept m m1' /\ context m1' = context m /\ initSeqLen m1' = initSeqLen m
                /\ accSeqLen m1' = Int.add (accSeqLen m) S /\ maskSize m1' = maskSize m).
  { subst m1' m1. destruct (pp_rank m >? 0); repeat split. }
  destruct Hk1 as ((K1 & K2 & K3 & K4 & K5 & K6) & Kc & Ki & Ka & Km).
  assert (Hs1 : synced m1').
  { subst m1'. destruct (pp_rank m >? 0); apply after_call_synced. }
  assert (Hl1 : map ev (log m1') = map ev (log m)
         ++ [EmbeddingForward ids (act_ptr 0) B S'; PrepareAttnMask ids stp;
             GetPositionIds ids B S' stp]
         ++ (if pp_rank m >? 0
             then [MPI_Recv (act_ptr 0) count (Int.sub (pp_rank m) 1)
                     (Int.mul 100 (Int.sub (pp_rank m) 1))]
             else [])).
  { subst m1' m1. destruct (pp_rank m >? 0); cbn; rewrite !map_app; cbn;
      rewrite <- !app_assoc; reflexivity. }
  replace (decoders m) with (decoders m1') by exact K6.
  rewrite (wrap_small (Z.of_nat (length (decoders m1')))).
  2:{ apply in_range_nonneg. rewrite K6. lia. }
  rewrite (bind_Ok _ _ _ _ _ (layers_trace step u beam S 0 count count S' past H m1')).
  rewrite K1, K4, K5.
  set (es := loop_calls _ 0 (decoders m1')).
  destruct (after_calls_core es m1') as (C1 & C2 & C3 & C4 & C5 & C6 & C7 & C8 & C9).
  exists (after_calls extern es m1').
  split; [reflexivity|].
  split; [repeat split; congruence|].
  split; [congruence|]. split; [congruence|]. split; [congruence|].
  split; [rewrite after_calls_mask; exact Km|].
  split; [rewrite after_calls_events, Hl1, <- !app_assoc; reflexivity|].
  apply after_calls_synced, Hs1.
Qed.

Lemma firstStep_trace (ids : IntArray) (u beam B S past0 S0 : Z) (la : bool)
    (m : Mach) (c : DecoderContext) :
  context m = Some c -> 0 < ctx_hiddenSize c -> 0 < getSize (messenger m) ->
  let psl := prefixSeqLen m in
  let split := splitPrefix ids u S psl (Int.sub S psl) in
  let c' := if prefixSharing m then DecoderContext_resize c B (Int.sub S psl) psl else c in
  exists m',
    firstStep extern ids u beam B S past0 S0 la m
    = Ok (if prefixSharing m then (snd split, psl, Int.sub S psl) else (ids, past0, S0)) m'
    /\ kept m m'
    /\ initSeqLen m' = S /\ accSeqLen m' = 0
    /\ context m' = Some c'
    /\ maskSize m'
       = Z.max (maskSize m)
           (Int.mul (Int.mul (ctx_batchSize c') (ctx_inputSeqLen c')) (ctx_inputSeqLen c'))
    /\ map ev (log m')
       = map ev (log m)
         ++ (if prefixSharing m
             then [GetPositionIds (fst split) B psl 0; CtxResize B (Int.sub S psl) psl]
             else [])
         ++ prepare_calls c' (getSize (messenger m)) (maskSize m) psl u beam la false
    /\ synced m'.
Proof.
  intros Hc HH Hw psl split c'. unfold firstStep. mstep.
  cbn [prefixSharing prefixSeqLen set_accSeqLen set_initSeqLen].
  subst c'. destruct (prefixSharing m) eqn:Hsh.
  - mstep. cbn [prefixSeqLen set_accSeqLen set_initSeqLen]. fold psl. fold split.
    destruct split as [prefixIDs newIDs] eqn:Hsplit. mstep.
    match goal with
    | |- exists m', mbind _ (ctx_resize _ ?b ?s ?p) ?m0 = _ /\ _ =>
        rewrite (bind_Ok _ _ _ _ _ (ctx_resize_run b s p m0 c Hc))
    end.
    mstep.
    match goal with
    | |- exists m', mbind _ _ ?m0 = _ /\ _ =>
        destruct (prepareBuffers_trace u beam la false m0
                    (DecoderContext_resize c B (Int.sub S psl) psl))
          as (m' & Hrun & Hcore & Hlog & Hmask & Hsync); [reflexivity|exact HH|exact Hw|]
    end.
    rewrite (bind_Ok _ _ _ _ _ Hrun). mstep.
    destruct Hcore as (H1 & H2 & H3 & H4 & H5 & H6 & H7 & H8 & H9).
    exists m'.
    split; [reflexivity|]. cbn in *.
    split; [repeat split; congruence|].
    split; [congruence|]. split; [congruence|]. split; [congruence|].
    split; [exact Hmask|]. split; [|exact Hsync].
    rewrite Hlog, !map_app. cbn. rewrite <- !app_assoc. reflexivity.
  - mstep.
    match goal with
    | |- exists m', mbind _ _ ?m0 = _ /\ _ =>
        destruct (prepareBuffers_trace u beam la false m0 c)
          as (m' & Hrun & Hcore & Hlog & Hmask & Hsync); [exact Hc|exact HH|exact Hw|]
    end.
    rewrite (bind_Ok _ _ _ _ _ Hrun). mstep.
    destruct Hcore as (H1 & H2 & H3 & H4 & H5 & H6 & H7 & H8 & H9).
    exists m'.
    split; [reflexivity|]. cbn in *.
    split; [repeat split; congruence|].
    split; [congruence|]. split; [congruence|]. split; [congruence|].
    split; [exact Hmask|]. split; [|exact Hsync].
    rewrite Hlog. reflexivity.
Qed.

Lemma forward_trace (ids : IntArray) (d0 d1 d2 step : Z) (la : bool) (m : Mach)
    (c : DecoderContext) :
  context m = Some c -> 0 < ctx_hiddenSize c -> 0 < getSize (messenger m) ->
  Z.of_nat (length (decoders m)) <= Int.max_signed ->
  let u := Int.of_int64 d0 in
  let beam := Int.of_int64 d1 in
  let B := if step =? 0 then u else Int.mul u beam in
  let S := Int.of_int64 d2 in
  let sharing := (step =? 0) && prefixSharing m in
  let psl := prefixSeqLen m in
  let split := splitPrefix ids u S psl (Int.sub S psl) in
  let past0 := if step =? 0 then 0 else accSeqLen m in
  let past := if sharing then psl else past0 in
  let S' := if sharing then Int.sub S psl else S in
  let ids' := if sharing then snd split else ids in
  let H := ctx_hiddenSize c in
  let count := Int.mul (Int.mul B S') H in
  let stp := Int.add step (Int.of_bool (prefixSharing m)) in
  let c2 := DecoderContext_resize c B S' past in
  exists m2,
    forward extern ATTN_MLP_PARALLEL splitOffset splitSize ids (d0, d1, d2) step la m
    = forwardTail extern splitOffset splitSize step la u beam B S S' H 0 count count m2
    /\ kept m m2
    /\ context m2 = Some c2
    /\ initSeqLen m2 = (if step =? 0 then S else initSeqLen m)
    /\ accSeqLen m2 = Int.add (if step =? 0 then 0 else accSeqLen m) S
    /\ maskSize m2
       = (if step =? 0 then Z.max (maskSize m) (Int.mul (Int.mul B S') S') else maskSize m)
    /\ map ev (log m2)
       = map ev (log m)
         ++ [CtxResize B S past0]
         ++ (if sharing then [GetPositionIds (fst split) B psl 0; CtxResize B S' psl] else [])
         ++ (if step =? 0
             then prepare_calls c2 (getSize (messenger m)) (maskSize m) psl u beam la false
             else [])
         ++ [EmbeddingForward ids' (act_ptr 0) B S'; PrepareAttnMask ids' stp;
             GetPositionIds ids' B S' stp]
         ++ (if pp_rank m >? 0
             then [MPI_Recv (act_ptr 0) count (Int.sub (pp_rank m) 1)
                     (Int.mul 100 (Int.sub (pp_rank m) 1))]
             else [])
         ++ loop_calls
              (layer_calls ATTN_MLP_PARALLEL (getSize (messenger m)) step u beam S
                 (prefixSharing m) psl 0 count count S' past H)
              0 (decoders m)
    /\ synced m2.
Proof.
  intros Hc HH Hw Hlen u beam B S sharing psl split past0 past S' ids' H count stp c2.
  unfold forward. mstep. fold u beam S B past0.
  rewrite (bind_Ok _ _ _ _ _ (ctx_resize_run B S past0 m c Hc)).
  set (m0 := set_context _ _ _ _).
  destruct (step =? 0) eqn:Hstep.
  - destruct (firstStep_trace ids u beam B S past0 S la m0 (DecoderContext_resize c B S past0))
      as (m1 & Hrun & Hkept & Hinit & Hacc & Hc1 & Hmask & Hlog & Hsync1);
      [reflexivity|exact HH|exact Hw|].
    rewrite (bind_Ok _ _ _ _ _ Hrun).
    destruct Hkept as (K1 & K2 & K3 & K4 & K5 & K6).
    change (prefixSharing m0) with (prefixSharing m) in *.
    change (prefixSeqLen m0) with psl in *. fold split in Hlog |- *.
    change (maskSize m0) with (maskSize m) in *.
    change (messenger m0) with (messenger m) in *.
    change (map ev (log m0)) with (map ev (log m ++ [{| ev := CtxResize B S past0;
               pre := heap m; post := extern (map ev (log m) ++ [CtxResize B S past0]) (heap m) |}]))
      in Hlog.
    rewrite map_app in Hlog. cbn [map ev] in Hlog.
    cbn in K1, K2, K3, K4, K5, K6. unfold psl in K4.
    assert (Hlen1 : Z.of_nat (length (decoders m1)) <= Int.max_signed) by (rewrite K6; exact Hlen).
    destruct (forwardRun_trace step la u beam B S ids' past S' m1 _ Hc1 Hlen1)
      as (m2 & Hrun2 & (L1 & L2 & L3 & L4 & L5 & L6) & Lc & Li & La & Lm & Hlog2 & Hsync).
    assert (HH1 : ctx_hiddenSize
                    (if prefixSharing m
                     then DecoderContext_resize (DecoderContext_resize c B S past0) B
                            (Int.sub S psl) psl
                     else DecoderContext_resize c B S past0) = H).
    { destruct (prefixSharing m); reflexivity. }
    rewrite HH1 in Hrun2, Hlog2. fold count in Hrun2, Hlog2.
    exists m2.
    split.
    { subst ids' past S' sharing. cbn [andb]. destruct (prefixSharing m); exact Hrun2. }
    split; [repeat split; congruence|].
    split.
    { rewrite Lc, Hc1. subst c2 S' past sharing. cbn [andb].
      destruct (prefixSharing m); reflexivity. }
    split; [congruence|]. split; [rewrite La, Hacc; reflexivity|].
    split.
    { rewrite Lm, Hmask. subst S' sharing. cbn [andb].
      destruct (prefixSharing m); reflexivity. }
    split; [|exact Hsync].
    rewrite Hlog2, Hlog, K1, K3, K4, K5, K6. subst sharing c2 S' past. cbn [andb].
    rewrite <- !app_assoc. unfold psl.
    destruct (prefixSharing m); reflexivity.
  - mstep.
    assert (Hlen0 : Z.of_nat (length (decoders m0)) <= Int.max_signed) by exact Hlen.
    destruct (forwardRun_trace step la u beam B S ids past0 S m0
                (DecoderContext_resize c B S past0) eq_refl Hlen0)
      as (m2 & Hrun2 & (L1 & L2 & L3 & L4 & L5 & L6) & Lc & Li & La & Lm & Hlog2 & Hsync).
    exists m2. subst sharing ids' past S' c2. cbn [andb] in *.
    split; [exact Hrun2|].
    split; [repeat split; assumption|].
    split; [exact Lc|].
    split; [exact Li|]. split; [exact La|]. split; [exact Lm|].
    split; [|exact Hsync].
    rewrite Hlog2. cbn. rewrite !map_app. cbn. rewrite <- !app_assoc. reflexivity.
Qed.

(** ** What forward calls, and what it does not *)

Lemma calls_to_app (f : Callee) (a b : list Event) :
  calls_to f (a ++ b) = calls_to f a ++ calls_to f b.
Proof. apply filter_app. Qed.

Lemma calls_to_loop (f : Callee) (g : Z -> Z -> list Event) (k : Z) (decs : list Z) :
  calls_to f (loop_calls g k decs) = loop_calls (fun i d => calls_to f (g i d)) k decs.
Proof.
  revert k. induction decs as [|d decs IH]; intros k; [reflexivity|].
  rewrite !loop_calls_cons, calls_to_app, IH. reflexivity.
Qed.

Lemma loop_calls_ext (g g' : Z -> Z -> list Event) (k : Z) (decs : list Z) :
  (forall i d, g i d = g' i d) -> loop_calls g k decs = loop_calls g' k decs.
Proof.
  intros Hg. unfold loop_calls. f_equal. apply imap_ext. intros; apply Hg.
Qed.

Lemma loop_calls_nil (k : Z) (decs : list Z) : loop_calls (fun _ _ => []) k decs = [].
Proof.
  revert k. induction decs as [|d decs IH]; intros k; [reflexivity|].
  rewrite loop_calls_cons, IH. reflexivity.
Qed.

Lemma loop_calls_length (g : Z -> Z -> list Event) (n : nat) (k : Z) (decs : list Z) :
  (forall i d, length (g i d) = n) ->
  length (loop_calls g k decs) = (n * length decs)%nat.
Proof.
  intros Hg. revert k. induction decs as [|d decs IH]; intros k; cbn [length]; [cbn; lia|].
  rewrite loop_calls_cons, length_app, IH, Hg. lia.
Qed.

Lemma loop_calls_one (g : Z -> Z -> Event) (k : Z) (decs : list Z) :
  loop_calls (fun i d => [g i d]) k decs = imap (fun i d => g (k + Z.of_nat i) d) decs.
Proof.
  revert k. induction decs as [|d decs IH]; intros k; [reflexivity|].
  rewrite loop_calls_cons, IH, imap_cons. cbn. rewrite Z.add_0_r. f_equal.
  apply imap_ext. intros j x _. cbn. f_equal. lia.
Qed.

Lemma loop_calls_Forall (P : Event -> Prop) (g : Z -> Z -> list Event) (k : Z)
    (decs : list Z) :
  (forall i d, Forall P (g i d)) -> Forall P (loop_calls g k decs).
Proof.
  intros Hg. revert k. induction decs as [|d decs IH]; intros k; [constructor|].
  rewrite loop_calls_cons. apply Forall_app. split; [apply Hg|apply IH].
Qed.


(** Every call of forward, head and tail. *)
Lemma forward_events (ids : IntArray) (d0 d1 d2 step : Z) (la : bool) (m : Mach)
    (c : DecoderContext) :
  context m = Some c -> 0 < ctx_hiddenSize c -> 0 < getSize (messenger m) ->
  Z.of_nat (length (decoders m)) <= Int.max_signed ->
  let u := Int.of_int64 d0 in
  let beam := Int.of_int64 d1 in
  let B := if step =? 0 then u else Int.mul u beam in
  let S := Int.of_int64 d2 in
  let sharing := (step =? 0) && prefixSharing m in
  let psl := prefixSeqLen m in
  let split := splitPrefix ids u S psl (Int.sub S psl) in
  let past0 := if step =? 0 then 0 else accSeqLen m in
  let past := if sharing then psl else past0 in
  let S' := if sharing then Int.sub S psl else S in
  let ids' := if sharing then snd split else ids in
  let H := ctx_hiddenSize c in
  let count := Int.mul (Int.mul B S') H in
  let stp := Int.add step (Int.of_bool (prefixSharing m)) in
  let c2 := DecoderContext_resize c B S' past in
  let rows := if negb la then B else Int.mul B S in
  exists r m',
    forward extern ATTN_MLP_PARALLEL splitOffset splitSize ids (d0, d1, d2) step la m
    = Ok r m'
    /\ kept m m'
    /\ context m' = Some c2
    /\ initSeqLen m' = (if step =? 0 then S else initSeqLen m)
    /\ maskSize m'
       = (if step =? 0 then Z.max (maskSize m) (Int.mul (Int.mul B S') S') else maskSize m)
    /\ events_since (log m) m'
       = [CtxResize B S past0]
         ++ (if sharing then [GetPositionIds (fst split) B psl 0; CtxResize B S' psl] else [])
         ++ (if step =? 0
             then prepare_calls c2 (getSize (messenger m)) (maskSize m) psl u beam la false
             else [])
         ++ [EmbeddingForward ids' (act_ptr 0) B S'; PrepareAttnMask ids' stp;
             GetPositionIds ids' B S' stp]
         ++ (if pp_rank m >? 0
             then [MPI_Recv (act_ptr 0) count (Int.sub (pp_rank m) 1)
                     (Int.mul 100 (Int.sub (pp_rank m) 1))]
             else [])
         ++ loop_calls
              (layer_calls ATTN_MLP_PARALLEL (getSize (messenger m)) step u beam S
                 (prefixSharing m) psl 0 count count S' past H)
              0 (decoders m)
         ++ (if pp_rank m <? Int.sub (pp_size m) 1
             then [MPI_Send (act_ptr 0) count (Int.add (pp_rank m) 1)
                     (Int.mul 100 (pp_rank m))]
             else [LastLayerNormForward
                     (act_ptr (if (S' >? 1) && negb la then count else 0)) (act_ptr 0) rows;
                   PredictorForward (act_ptr 0) (act_ptr count) rows]).
Proof.
  intros Hc HH Hw Hlen u beam B S sharing psl split past0 past S' ids' H count stp c2 rows.
  destruct (forward_trace ids d0 d1 d2 step la m c Hc HH Hw Hlen)
    as (m2 & Hrun & (K1 & K2 & K3 & K4 & K5 & K6) & Hc2 & Hi & _ & Hm & Hlog & _).
  fold u beam B S sharing psl split past0 past S' ids' H count stp c2 in Hrun, Hc2, Hi, Hm, Hlog.
  rewrite Hrun.
  destruct (pp_rank m <? Int.sub (pp_size m) 1) eqn:Hlt.
  - rewrite forwardTail_send by (rewrite K2, K3; exact Hlt).
    eexists _, _. split; [reflexivity|].
    split; [repeat split; assumption|]. split; [exact Hc2|]. split; [exact Hi|].
    split; [exact Hm|].
    apply events_since_app. rewrite after_call_events, Hlog, K3.
    rewrite <- !app_assoc. reflexivity.
  - rewrite forwardTail_last by (rewrite K2, K3; exact Hlt).
    eexists _, _. split; [reflexivity|].
    fold rows.
    destruct ((S' >? 1) && negb la), ((step =? 0) && (beam >? 1));
      (split; [repeat split; assumption|]); (split; [exact Hc2|]); (split; [exact Hi|]);
      (split; [exact Hm|]);
      apply events_since_app; cbn [log set_act set_heap];
      rewrite !after_call_events; cbn [log set_act set_heap];
      rewrite Hlog, <- !app_assoc; reflexivity.
Qed.



Lemma calls_to_none (f : Callee) (es : list Event) :
  Forall (fun e => callee e <> f) es -> calls_to f es = [].
Proof. apply filter_none. Qed.

Lemma layer_attention (w step u beam S : Z) (sh : bool) (psl emb out count S' past H i d : Z) :
  calls_to c_forwardAttention
    (layer_calls ATTN_MLP_PARALLEL w step u beam S sh psl emb out count S' past H i d)
  = [ForwardAttention i d false (act_ptr emb) (act_ptr out) (tmp_ptr 0) S' past
       (step =? 0) true].
Proof.
  unfold layer_calls, ffn_calls.
  destruct ATTN_MLP_PARALLEL, (w >? 1), ((step =? 0) && sh), ((step =? 0) && (beam >? 1));
    reflexivity.
Qed.


Lemma layer_expand_prefix (w step u beam S : Z) (sh : bool)
    (psl emb out count S' past H i d : Z) :
  calls_to c_expandPrefixCache
    (layer_calls ATTN_MLP_PARALLEL w step u beam S sh psl emb out count S' past H i d)
  = if (step =? 0) && sh then [ExpandPrefixCache i u psl] else [].
Proof.
  unfold layer_calls, ffn_calls.
  destruct ATTN_MLP_PARALLEL, (w >? 1), ((step =? 0) && sh), ((step =? 0) && (beam >? 1));
    reflexivity.
Qed.

Lemma layer_others (f : Callee) (w step u beam S : Z) (sh : bool)
    (psl emb out count S' past H i d : Z) :
  f ∉ layer_callees ->
  calls_to f
    (layer_calls ATTN_MLP_PARALLEL w step u beam S sh psl emb out count S' past H i d)
  = [].
Proof.
  intros Hf. apply calls_to_none. unfold layer_calls, ffn_calls.
  assert (Hne : forall g, g ∈ layer_callees -> g <> f) by (intros g Hg ->; contradiction).
  destruct ATTN_MLP_PARALLEL, (w >? 1), ((step =? 0) && sh), ((step =? 0) && (beam >? 1));
    cbn [negb andb app]; repeat constructor; apply Hne; unfold layer_callees; cbn;
    rewrite !elem_of_cons; tauto.
Qed.


Lemma not_layer_callee (f : Callee) :
  f <> c_forwardAttention -> f <> c_forwardFFN -> f <> c_reduceAdd ->
  f <> c_expandCache -> f <> c_expandPrefixCache -> f ∉ layer_callees.
Proof.
  intros. unfold layer_callees. rewrite !elem_of_cons, elem_of_nil. tauto.
Qed.



Lemma getContext_none {B} (k : DecoderContext -> Mon B) (m : Mach) :
  context m = None -> (getContext ≫= k) m = Trap.
Proof. intros H. unfold mbind, M_bind, getContext. now rewrite H. Qed.

(** X14. A forward call with [step = 0] does
    not depend on [initSeqLen] and [accSeqLen]: whatever an earlier session
    left in them, the call runs the same and leaves the same state. *)
Theorem forward_first_step_fresh (ids : IntArray) (dims : Z * Z * Z) (la : bool)
    (m : Mach) (init acc : Z) :
  forward extern ATTN_MLP_PARALLEL splitOffset splitSize ids dims 0 la
    (set_accSeqLen elt cell acc (set_initSeqLen elt cell init m))
  = forward extern ATTN_MLP_PARALLEL splitOffset splitSize ids dims 0 la m.
Proof.
  destruct dims as [[d0 d1] d2]. unfold forward. mstep. cbn [Z.eqb].
  destruct (context m) as [c|] eqn:Hc.
  - rewrite (bind_Ok _ _ _ _ _ (ctx_resize_run _ _ _ m c Hc)).
    rewrite (bind_Ok _ _ _ _ _
               (ctx_resize_run _ _ _
                  (set_accSeqLen elt cell acc (set_initSeqLen elt cell init m)) c Hc)).
    unfold firstStep. mstep. reflexivity.
  - unfold ctx_resize. rewrite !bind_assoc.
    rewrite (getContext_none _ m Hc).
    rewrite (getContext_none _ (set_accSeqLen elt cell acc (set_initSeqLen elt cell init m)) Hc).
    reflexivity.
Qed.

(** The attention calls of a forward call, layer by layer. *)
Lemma forward_attention_calls (ids : IntArray) (d0 d1 d2 step : Z) (la : bool) (m : Mach)
    (c : DecoderContext) :
  context m = Some c -> 0 < ctx_hiddenSize c -> 0 < getSize (messenger m) ->
  Z.of_nat (length (decoders m)) <= Int.max_signed ->
  let u := Int.of_int64 d0 in
  let B := if step =? 0 then u else Int.mul u (Int.of_int64 d1) in
  let S := Int.of_int64 d2 in
  let sharing := (step =? 0) && prefixSharing m in
  let past := if sharing then prefixSeqLen m else if step =? 0 then 0 else accSeqLen m in
  let S' := if sharing then Int.sub S (prefixSeqLen m) else S in
  let count := Int.mul (Int.mul B S') (ctx_hiddenSize c) in
  exists r m',
    forward extern ATTN_MLP_PARALLEL splitOffset splitSize ids (d0, d1, d2) step la m
    = Ok r m'
    /\ calls_to c_forwardAttention (events_since (log m) m')
       = imap (fun i dec =>
                 ForwardAttention (Z.of_nat i) dec false (act_ptr 0) (act_ptr count)
                   (tmp_ptr 0) S' past (step =? 0) true)
           (decoders m).
Proof.
  intros Hc HH Hw Hlen u B S sharing past S' count.
  destruct (forward_events ids d0 d1 d2 step la m c Hc HH Hw Hlen)
    as (r & m' & Hrun & _ & _ & _ & _ & Hev).
  fold u B S sharing S' count in Hev. fold past in Hev.
  exists r, m'. split; [exact Hrun|]. rewrite Hev. clear Hev.
  rewrite !calls_to_app, calls_to_loop.
  rewrite (loop_calls_ext _ _ _ _ (layer_attention _ _ _ _ _ _ _ _ _ _ _ _ _)).
  rewrite loop_calls_one.
  subst sharing.
  destruct (step =? 0), (prefixSharing m), (pp_rank m >? 0),
    (pp_rank m <? Int.sub (pp_size m) 1); cbn [andb];
    unfold prepare_calls; try destruct (maskSize m <? _); cbn [app];
    rewrite ?app_nil_r; reflexivity.
Qed.

(** X15. A decoder constructed at stage [r]
    of [P] for a model of [L] layers, then run: forward makes [L / P]
    attention calls; the [i]-th, counting from 0, is for local layer [i],
    the index by which the KV cache is addressed, and goes to the decoder
    the constructor built for layer [r * (L / P) + i] of the model. *)
Theorem constructed_layers_in_forward (cfg : Config) (msgr : Messenger) (h : Heap elt cell)
    (l : list (Call elt cell)) (ids : IntArray) (d0 d1 d2 step : Z) (la : bool) :
  0 <= num_layer cfg <= Int.max_signed ->
  0 < Env_getPipeline ->
  0 <= getColor msgr < Env_getPipeline ->
  0 < getSize msgr ->
  (forall a, 0 < a_hiddenSize a ->
     0 < ctx_hiddenSize (DecoderContext_new a (getRank msgr) (getSize msgr))) ->
  0 < Int.mul (head_num cfg) (size_per_head cfg) ->
  let L := num_layer cfg in
  let P := Env_getPipeline in
  let r := getColor msgr in
  exists m1 res m2,
    CommonDecoder_new extern Env_getPipeline DecoderContext_new cfg (fresh msgr h l)
    = Ok tt m1
    /\ forward extern ATTN_MLP_PARALLEL splitOffset splitSize ids (d0, d1, d2) step la m1
       = Ok res m2
    /\ Z.of_nat (length (calls_to c_forwardAttention (events_since (log m1) m2))) = L / P
    /\ forall i, 0 <= i < L / P ->
         exists input imBuf output inputSeqLen pastSeqLen useSelfAttn,
           calls_to c_forwardAttention (events_since (log m1) m2) !! Z.to_nat i
           = Some (ForwardAttention i (r * (L / P) + i) false input imBuf output
                     inputSeqLen pastSeqLen useSelfAttn true).
Proof.
  intros HL HP Hr Hw Hnew HH L P r.
  destruct (constructor_trace cfg msgr h l HL HP Hr)
    as (m1 & Hrun & Hd & _ & Hmsg & _ & _ & _ & _ & Hc & _).
  assert (Hper : 0 <= L / P) by (apply Z.div_pos; lia).
  assert (HperL : L / P <= L).
  { apply Z.div_le_upper_bound; [lia|]. fold L in HL. nia. }
  assert (Hlen : Z.of_nat (length (decoders m1)) <= Int.max_signed).
  { rewrite Hd, length_seqZ. fold L P. lia. }
  destruct (forward_attention_calls ids d0 d1 d2 step la m1 _ Hc)
    as (res & m2 & Hrun2 & Hcalls).
  { apply Hnew. exact HH. }
  { rewrite Hmsg. exact Hw. }
  { exact Hlen. }
  exists m1, res, m2. split; [exact Hrun|]. split; [exact Hrun2|].
  rewrite Hcalls, Hd. fold L P r. split.
  - rewrite length_imap, length_seqZ. lia.
  - intros i Hi. eexists _, _, _, _, _, _.
    rewrite list_lookup_imap.
    rewrite (proj2 (lookup_seqZ (r * (L / P)) (L / P) (Z.to_nat i) (r * (L / P) + i))).
    2:{ split; lia. }
    cbn. rewrite Z2Nat.id by lia. reflexivity.
Qed.

Lemma expandLogits_outside (fo u beam : Z) (a : Z -> elt) (x : Z) :
  0 <= u -> 1 < beam -> 0 < splitSize -> u * beam * splitSize <= Int.max_signed ->
  ~ (fo <= x < fo + u * beam * splitSize) ->
  expandLogits splitSize fo u beam a x = a x.
Proof.
  intros Hu Hbeam Hw Hmax Hx. unfold expandLogits.
  assert (E1 : 0 <= u * beam) by (apply Z.mul_nonneg_nonneg; lia).
  assert (E2 : u <= u * beam).
  { transitivity (u * 1); [lia|]. apply Z.mul_le_mono_nonneg_l; lia. }
  assert (E3 : u * beam <= u * beam * splitSize).
  { transitivity (u * beam * 1); [lia|]. apply Z.mul_le_mono_nonneg_l; lia. }
  rewrite (sub_small u 1) by (unfold Int.in_range, Int.min_signed; lia).
  replace (u - 1 + 1) with (Z.of_nat (Z.to_nat u)) by lia.
  pose proof (Z.div_mod (x - fo) splitSize ltac:(lia)) as Hdm.
  pose proof (Z.mod_pos_bound (x - fo) splitSize Hw) as Hj.
  set (r := (x - fo) / splitSize) in *. set (j := (x - fo) mod splitSize) in *.
  replace x with (fo + r * splitSize + j) by lia.
  rewrite expand_outer by (try assumption; lia).
  rewrite Z2Nat.id by lia.
  destruct (decide (0 <= r < u * beam)) as [[Hr0 Hr1]|Hn]; [|reflexivity].
  exfalso. apply Hx.
  assert (0 <= r * splitSize) by (apply Z.mul_nonneg_nonneg; lia).
  assert ((r + 1) * splitSize <= u * beam * splitSize)
    by (apply Z.mul_le_mono_nonneg_r; lia).
  lia.
Qed.

(** X16. On the last stage, a forward call
    with [step = 0] and [logitsAll = false] asks [prepareBuffers] for an
    activation block of [rows * hiddenSize] elements and then itself
    writes, in the copy of the last tokens' rows and in the spreading of
    the logits over the beams, only inside that block, provided a row of
    logits is no longer than the vocabulary ([splitSize <= vocabSize]). *)
Theorem forward_writes_within_block (ids : IntArray) (d0 d1 d2 : Z) (m : Mach)
    (c : DecoderContext) :
  ready m c -> last_stage m ->
  Z.of_nat (length (decoders m)) <= Int.max_signed ->
  let u := d0 in
  let beam := d1 in
  let S' := if prefixSharing m then d2 - prefixSeqLen m else d2 in
  let H := ctx_hiddenSize c in
  let V := ctx_vocabSize c in
  0 <= u <= Int.max_signed -> 1 <= beam <= Int.max_signed -> d2 <= Int.max_signed ->
  0 <= prefixSeqLen m -> 1 <= S' ->
  u * S' * H <= Int.max_signed ->
  u * beam <= Int.max_signed -> u * beam * V <= Int.max_signed ->
  0 < splitSize <= V ->
  u * S' + Z.max (u * S') (u * beam * V / H + 1) <= Int.max_signed ->
  exists m' rows before c_prev c_ln c_pred,
    forward extern ATTN_MLP_PARALLEL splitOffset splitSize ids (d0, d1, d2) 0 false m
    = Ok (act_ptr (u * S' * H), splitOffset, splitSize) m'
    /\ calls_to c_act_resize (events_since (log m) m') = [ActResize rows H]
    /\ log m' = before ++ [c_prev; c_ln; c_pred]
    /\ forall a, ~ (0 <= a < rows * H) ->
         act (pre c_ln) a = act (post c_prev) a
         /\ act (heap m') a = act (post c_pred) a.
Proof.
  intros (Hc & HH & Hw) Hlast Hlen u beam S' H V Hu Hb Hd2 Hpsl HS' HuSH Hub HubV Hss Hrows.
  assert (HuS0 : 0 <= u * S') by (apply Z.mul_nonneg_nonneg; lia).
  assert (HuSH0 : 0 <= u * S' * H) by (apply Z.mul_nonneg_nonneg; lia).
  assert (HuS : u * S' <= Int.max_signed).
  { transitivity (u * S' * H); [|exact HuSH].
    transitivity (u * S' * 1); [lia|]. apply Z.mul_le_mono_nonneg_l; lia. }
  assert (Hub0 : 0 <= u * beam) by (apply Z.mul_nonneg_nonneg; lia).
  assert (HV : 0 <= V) by lia.
  assert (HubS : u * beam * splitSize <= u * beam * V)
    by (apply Z.mul_le_mono_nonneg_l; lia).
  assert (EU : Int.of_int64 d0 = u)
    by (apply wrap_small; unfold Int.in_range, Int.min_signed; lia).
  assert (EB : Int.of_int64 d1 = beam)
    by (apply wrap_small; unfold Int.in_range, Int.min_signed; lia).
  assert (Hd2lo : 1 <= d2) by (subst S'; destruct (prefixSharing m); lia).
  assert (ES : Int.of_int64 d2 = d2)
    by (apply wrap_small; unfold Int.in_range, Int.min_signed; lia).
  assert (ES' : (if prefixSharing m then Int.sub d2 (prefixSeqLen m) else d2) = S').
  { subst S'. destruct (prefixSharing m); [|reflexivity].
    apply sub_small. unfold Int.in_range, Int.min_signed. lia. }
  assert (EuS : Int.mul u S' = u * S') by (apply mul_small, in_range_nonneg; lia).
  assert (Ecount : Int.mul (u * S') H = u * S' * H)
    by (apply mul_small, in_range_nonneg; lia).
  (* the calls *)
  destruct (forward_events ids d0 d1 d2 0 false m c Hc HH Hw Hlen)
    as (r & m' & Hrun & _ & _ & _ & _ & Hev).
  cbn [Z.eqb andb] in Hev. fold H in Hev. rewrite EU, EB, ES, ES', EuS, Ecount in Hev.
  (* the memory *)
  destruct (forward_trace ids d0 d1 d2 0 false m c Hc HH Hw Hlen)
    as (m2 & Hrun2 & (K1 & K2 & K3 & K4 & K5 & K6) & _ & _ & _ & _ & _
        & (lg & cp & Hl & Hpost)).
  cbn [Z.eqb andb] in Hrun2. fold H in Hrun2. rewrite EU, EB, ES, ES', EuS, Ecount in Hrun2.
  rewrite (forwardTail_last _ _ _ _ _ _ _ _ _ _ _ _ (last_stage_cmp m m2 Hlast K2 K3))
    in Hrun2.
  cbn [negb Z.eqb andb] in Hrun2. rewrite andb_true_r in Hrun2.
  set (copies := S' >? 1) in Hrun2.
  set (m1 := if copies then _ else m2) in Hrun2.
  set (e_ln := LastLayerNormForward _ _ _) in Hrun2.
  set (e_pred := PredictorForward _ _ _) in Hrun2.
  set (m3 := after_call extern e_pred (after_call extern e_ln m1)) in Hrun2.
  assert (Hlog1 : log m1 = log m2) by (subst m1; destruct copies; reflexivity).
  rewrite Hrun2 in Hrun. injection Hrun as Hr Hm'. clear Hr.
  (* the block *)
  destruct (prepare_act_rows (DecoderContext_resize c u S'
                                (if prefixSharing m then prefixSeqLen m else 0))
              (getSize (messenger m)) (maskSize m) (prefixSeqLen m) u beam false false)
    as (rows & Hact & Hcap); cbn [ctx_batchSize ctx_inputSeqLen ctx_hiddenSize
                                    ctx_vocabSize DecoderContext_resize];
    fold H V; try assumption; try lia.
  cbn [ctx_batchSize ctx_inputSeqLen ctx_hiddenSize ctx_vocabSize DecoderContext_resize]
    in Hcap. fold H V in Hcap.
  exists m', rows, lg, cp,
    {| ev := e_ln; pre := heap m1;
       post := extern (map ev (log m1) ++ [e_ln]) (heap m1) |},
    {| ev := e_pred; pre := heap (after_call extern e_ln m1);
       post := extern (map ev (log (after_call extern e_ln m1)) ++ [e_pred])
                 (heap (after_call extern e_ln m1)) |}.
  split; [rewrite <- Hm'; exact Hrun2|].
  split.
  { rewrite Hev, !calls_to_app, calls_to_loop.
    rewrite (loop_calls_ext _ (fun _ _ => [])), loop_calls_nil.
    2:{ intros i d. apply layer_others, not_layer_callee; discriminate. }
    fold H. rewrite Hact.
    destruct (prefixSharing m), (pp_rank m >? 0), (pp_rank m <? Int.sub (pp_size m) 1),
      (S' >? 1); reflexivity. }
  split.
  { rewrite <- Hm'. destruct (beam >? 1); cbn [log set_act set_heap];
      subst m3; cbn [log after_call set_log set_heap];
      rewrite Hlog1, Hl, <- !app_assoc; reflexivity. }
  intros a Ha. cbn [pre post]. split.
  - subst m1. destruct copies eqn:Hcp; [|now rewrite Hpost].
    cbn [heap set_act set_heap act]. rewrite Hpost.
    destruct (copyLastRows_spec (act (heap m2)) u S' H) as (_ & Hrest);
      [lia|lia|exact HH|exact HuSH|].
    apply Hrest.
    assert (u * H <= u * S' * H).
    { rewrite <- (Z.mul_assoc u S' H). apply Z.mul_le_mono_nonneg_l; [lia|].
      transitivity (1 * H); [lia|]. apply Z.mul_le_mono_nonneg_r; lia. }
    lia.
  - rewrite <- Hm'. destruct (Z.gtb_spec beam 1) as [Hgt|Hle]; [|reflexivity].
    cbn [heap set_act set_heap act]. subst m3.
    cbn [heap after_call set_log set_heap].
    apply expandLogits_outside; try assumption; try lia.
Qed.

(** ** Prefix sharing and a skipped first step *)

Lemma prefix_layers_trace (emb out count n H : Z) (m : Mach) :
  forM_ elt cell (seqZ 0 (Z.of_nat (length (decoders m))))
    (fun i => decoderLayer extern ATTN_MLP_PARALLEL i true emb out count n 0 true H
                (mret tt)) m
  = Ok tt (after_calls extern
             (loop_calls
                (prefix_layer_calls ATTN_MLP_PARALLEL (getSize (messenger m)) emb out count n H)
                0 (decoders m)) m).
Proof.
  apply (loop_trace _ _ m) with (pre := []); [|reflexivity|apply same_core_refl].
  intros i dec m' (C1 & C2 & C3 & C4 & C5 & C6 & C7 & C8 & C9) Hdec.
  rewrite <- C1. unfold prefix_layer_calls.
  rewrite (decoderLayer_trace i true emb out count n 0 true H (mret tt) [] m' dec).
  - reflexivity.
  - rewrite C9. exact Hdec.
  - reflexivity.
Qed.

Lemma prefixForward_trace (ids : IntArray) (n : Z) (m : Mach) (c : DecoderContext) :
  context m = Some c -> 0 < ctx_hiddenSize c -> 0 < getSize (messenger m) ->
  let H := ctx_hiddenSize c in
  let c' := DecoderContext_resize c 1 n 0 in
  exists m',
    prefixForward extern ATTN_MLP_PARALLEL ids n m = Ok tt m'
    /\ same_core (set_context elt cell (Some c') m) m'
    /\ map ev (log m')
       = map ev (log m)
         ++ [CtxResize 1 n 0]
         ++ prepare_calls c' (getSize (messenger m)) (maskSize m) (prefixSeqLen m) 1 1
              false true
         ++ [EmbeddingForward ids (act_ptr 0) 1 n; PrepareAttnMask ids 0;
             GetPositionIds ids 1 n 0]
         ++ loop_calls
              (prefix_layer_calls ATTN_MLP_PARALLEL (getSize (messenger m)) 0
                 (Int.mul (Int.mul 1 n) H) (Int.mul n H) n H)
              0 (decoders m).
Proof.
  intros Hc HH Hw H c'. unfold prefixForward.
  rewrite (bind_Ok _ _ _ _ _ (ctx_resize_run 1 n 0 m c Hc)).
  set (m0 := set_context _ _ _ _).
  destruct (prepareBuffers_trace 1 1 false true m0 c')
    as (m1 & Hrun1 & (C1 & C2 & C3 & C4 & C5 & C6 & C7 & C8 & C9) & Hlog1 & _ & _);
    [reflexivity|exact HH|exact Hw|].
  rewrite (bind_Ok _ _ _ _ _ Hrun1).
  rewrite (bind_getContext _ _ _ C4). mstep.
  cbn [decoders after_call set_log set_heap].
  change (ctx_hiddenSize c') with H. change (0 + Int.mul (Int.mul 1 n) H)
    with (Int.mul (Int.mul 1 n) H).
  set (m2 := after_call extern (GetPositionIds ids 1 n 0) _).
  assert (Hd2 : decoders m2 = decoders m) by (subst m2 m0; cbn; rewrite C9; reflexivity).
  assert (Hm2 : messenger m2 = messenger m) by (subst m2 m0; cbn; rewrite C1; reflexivity).
  replace (decoders m1) with (decoders m2) by (subst m2; reflexivity).
  rewrite prefix_layers_trace. rewrite Hd2, Hm2.
  eexists. split; [reflexivity|]. split.
  - eapply same_core_trans; [|apply after_calls_core].
    subst m2 m0 c'. cbn in C1, C2, C3, C4, C5, C6, C7, C8, C9 |- *.
    unfold same_core. cbn. repeat split; congruence.
  - rewrite after_calls_events. subst m2. cbn [log after_call set_log set_heap].
    rewrite !map_app. cbn [map ev]. rewrite Hlog1. subst m0.
    cbn [log set_context after_call set_log set_heap messenger maskSize prefixSeqLen].
    rewrite !map_app. cbn [map ev]. rewrite <- !app_assoc. reflexivity.
Qed.

Lemma prefix_layer_attention (w emb out count n H i d : Z) :
  calls_to c_forwardAttention (prefix_layer_calls ATTN_MLP_PARALLEL w emb out count n H i d)
  = [ForwardAttention i d true (act_ptr emb) (act_ptr out) (tmp_ptr 0) n 0 true true].
Proof.
  unfold prefix_layer_calls, ffn_calls.
  destruct ATTN_MLP_PARALLEL, (w >? 1); reflexivity.
Qed.

Lemma prefix_layer_others (f : Callee) (w emb out count n H i d : Z) :
  f ∉ layer_callees ->
  calls_to f (prefix_layer_calls ATTN_MLP_PARALLEL w emb out count n H i d) = [].
Proof.
  intros Hf. apply calls_to_none. unfold prefix_layer_calls, ffn_calls.
  assert (Hne : forall g, g ∈ layer_callees -> g <> f) by (intros g Hg ->; contradiction).
  destruct ATTN_MLP_PARALLEL, (w >? 1);
    cbn [negb andb app]; repeat constructor; apply Hne; unfold layer_callees; cbn;
    rewrite !elem_of_cons; tauto.
Qed.

(** X17. [setPrefix(ids, n)] turns prefix
    sharing on with prefix length [n] and runs the [n] prefix tokens, as
    one sequence, through every local layer: the KV cache is sized as a
    prefix cache over [n] time steps for one row, the embedding is of one
    row of [n] tokens, and the attention of every local layer writes to
    the prefix cache, with self-attention and no past tokens. It leaves
    [initSeqLen] and [accSeqLen] as they were. It neither receives from the
    previous pipeline stage nor sends to the next: every stage starts from
    its own embedding of the prefix. *)
Theorem setPrefix_builds_prefix_cache (ids : IntArray) (n : Z) (m : Mach)
    (c : DecoderContext) :
  ready m c ->
  let H := ctx_hiddenSize c in
  let out := Int.mul (Int.mul 1 n) H in
  exists m',
    setPrefix extern ATTN_MLP_PARALLEL ids n m = Ok tt m'
    /\ prefixSharing m' = true /\ prefixSeqLen m' = n
    /\ accSeqLen m' = accSeqLen m /\ initSeqLen m' = initSeqLen m
    /\ context m' = Some (DecoderContext_resize c 1 n 0)
    /\ (exists heads,
          calls_to c_kv_resize (events_since (log m) m')
          = [KVResize n (Int.mul 1 1) heads (ctx_attHeadSize c) true])
    /\ calls_to c_embeddingForward (events_since (log m) m')
       = [EmbeddingForward ids (act_ptr 0) 1 n]
    /\ calls_to c_forwardAttention (events_since (log m) m')
       = imap (fun i dec =>
                 ForwardAttention (Z.of_nat i) dec true (act_ptr 0) (act_ptr out)
                   (tmp_ptr 0) n 0 true true)
           (decoders m)
    /\ calls_to c_MPI_Recv (events_since (log m) m') = []
    /\ calls_to c_MPI_Send (events_since (log m) m') = [].
Proof.
  intros (Hc & HH & Hw) H out. unfold setPrefix. mstep.
  set (m0 := set_prefixSeqLen elt cell n (set_prefixSharing elt cell true m)).
  destruct (prefixForward_trace ids n m0 c Hc HH Hw)
    as (m' & Hrun & (C1 & C2 & C3 & C4 & C5 & C6 & C7 & C8 & C9) & Hlog).
  exists m'. split; [exact Hrun|].
  cbn in C1, C2, C3, C4, C5, C6, C7, C8, C9.
  split; [exact C8|]. split; [exact C7|]. split; [exact C6|]. split; [exact C5|].
  split; [exact C4|].
  change (map ev (log m0)) with (map ev (log m)) in Hlog.
  apply events_since_app in Hlog. rewrite Hlog. clear Hlog.
  cbn [messenger maskSize prefixSeqLen decoders m0 set_prefixSeqLen set_prefixSharing].
  fold H out.
  split; [|split; [|split; [|split]]].
  - eexists. rewrite !calls_to_app, calls_to_loop.
    rewrite (loop_calls_ext _ (fun _ _ => [])), loop_calls_nil.
    2:{ intros i d. apply prefix_layer_others, not_layer_callee; discriminate. }
    unfold prepare_calls. destruct (maskSize m <? _); reflexivity.
  - rewrite !calls_to_app, calls_to_loop.
    rewrite (loop_calls_ext _ (fun _ _ => [])), loop_calls_nil.
    2:{ intros i d. apply prefix_layer_others, not_layer_callee; discriminate. }
    unfold prepare_calls. destruct (maskSize m <? _); reflexivity.
  - rewrite !calls_to_app, calls_to_loop.
    rewrite (loop_calls_ext _ _ _ _ (prefix_layer_attention _ _ _ _ _ _)).
    rewrite loop_calls_one.
    unfold prepare_calls. destruct (maskSize m <? _); reflexivity.
  - rewrite !calls_to_app, calls_to_loop.
    rewrite (loop_calls_ext _ (fun _ _ => [])), loop_calls_nil.
    2:{ intros i d. apply prefix_layer_others, not_layer_callee; discriminate. }
    unfold prepare_calls. destruct (maskSize m <? _); reflexivity.
  - rewrite !calls_to_app, calls_to_loop.
    rewrite (loop_calls_ext _ (fun _ _ => [])), loop_calls_nil.
    2:{ intros i d. apply prefix_layer_others, not_layer_callee; discriminate. }
    unfold prepare_calls. destruct (maskSize m <? _); reflexivity.
Qed.

(** X18. After [skipFirstStep(n)], decoding
    steps of lengths [s_1, ..., s_k] leave [initSeqLen = n] and
    [accSeqLen = n + s_1 + ... + s_k]: the time steps a later reordering of
    the cache goes over are those of the tokens decoded since. *)
Theorem skipFirstStep_then_steps (n : Z) (rest : list ForwardArgs) (m : Mach)
    (c : DecoderContext) :
  ready m c ->
  Forall (fun a => 0 < f_step a) rest ->
  Forall (fun z => 0 <= z) (map seqLen_of rest) ->
  0 <= n -> n + total (map seqLen_of rest) <= Int.max_signed ->
  exists m1 m',
    skipFirstStep n m = Ok tt m1
    /\ initSeqLen m1 = n /\ accSeqLen m1 = n
    /\ session extern ATTN_MLP_PARALLEL splitOffset splitSize rest m1 = Ok tt m'
    /\ initSeqLen m' = n
    /\ accSeqLen m' = n + total (map seqLen_of rest).
Proof.
  intros Hready Hsteps Hlens Hn Hsum.
  set (m1 := set_accSeqLen elt cell n (set_initSeqLen elt cell n m)).
  destruct (session_later_steps rest m1 c) as (m' & Hrun & Ha & Hi);
    [exact Hready|exact Hsteps|exact Hlens|exact Hn|exact Hsum|].
  exists m1, m'. split; [reflexivity|]. split; [reflexivity|]. split; [reflexivity|].
  split; [exact Hrun|]. split; [exact Hi|exact Ha].
Qed.

(** The embedding call and the prefix cache expansions of a forward call. *)
Lemma forward_embedding_calls (ids : IntArray) (d0 d1 d2 step : Z) (la : bool) (m : Mach)
    (c : DecoderContext) :
  context m = Some c -> 0 < ctx_hiddenSize c -> 0 < getSize (messenger m) ->
  Z.of_nat (length (decoders m)) <= Int.max_signed ->
  let u := Int.of_int64 d0 in
  let B := if step =? 0 then u else Int.mul u (Int.of_int64 d1) in
  let S := Int.of_int64 d2 in
  let sharing := (step =? 0) && prefixSharing m in
  let psl := prefixSeqLen m in
  let S' := if sharing then Int.sub S psl else S in
  let ids' := if sharing then snd (splitPrefix ids u S psl (Int.sub S psl)) else ids in
  exists r m',
    forward extern ATTN_MLP_PARALLEL splitOffset splitSize ids (d0, d1, d2) step la m
    = Ok r m'
    /\ calls_to c_embeddingForward (events_since (log m) m')
       = [EmbeddingForward ids' (act_ptr 0) B S']
    /\ calls_to c_expandPrefixCache (events_since (log m) m')
       = (if sharing
          then imap (fun i _ => ExpandPrefixCache (Z.of_nat i) u psl) (decoders m)
          else []).
Proof.
  intros Hc HH Hw Hlen u B S sharing psl S' ids'.
  destruct (forward_events ids d0 d1 d2 step la m c Hc HH Hw Hlen)
    as (r & m' & Hrun & _ & _ & _ & _ & Hev).
  fold u B S sharing psl S' in Hev. fold ids' in Hev.
  exists r, m'. split; [exact Hrun|]. rewrite Hev. clear Hev. split.
  - rewrite !calls_to_app, calls_to_loop.
    rewrite (loop_calls_ext _ (fun _ _ => [])), loop_calls_nil.
    2:{ intros i d. apply layer_others, not_layer_callee; discriminate. }
    subst sharing.
    destruct (step =? 0), (prefixSharing m), (pp_rank m >? 0),
      (pp_rank m <? Int.sub (pp_size m) 1); cbn [andb];
      unfold prepare_calls; try destruct (maskSize m <? _); reflexivity.
  - rewrite !calls_to_app, calls_to_loop.
    rewrite (loop_calls_ext _ _ _ _ (layer_expand_prefix _ _ _ _ _ _ _ _ _ _ _ _ _)).
    assert (Eloop : loop_calls
              (fun i _ => if (step =? 0) && prefixSharing m
                          then [ExpandPrefixCache i u psl] else [])
              0 (decoders m)
            = if sharing
              then imap (fun i _ => ExpandPrefixCache (Z.of_nat i) u psl) (decoders m)
              else []).
    { subst sharing. destruct ((step =? 0) && prefixSharing m); [|apply loop_calls_nil].
      rewrite (loop_calls_one (fun i _ => ExpandPrefixCache i u psl)). reflexivity. }
    rewrite Eloop. subst sharing.
    destruct (step =? 0), (prefixSharing m), (pp_rank m >? 0),
      (pp_rank m <? Int.sub (pp_size m) 1); cbn [andb];
      unfold prepare_calls; try destruct (maskSize m <? _); cbn [app];
      rewrite ?app_nil_r; reflexivity.
Qed.

(** X19. After [setPrefix(ids0, n)], a forward
    call with [step = 0] on a prompt of [seqLen] tokens per row embeds the
    [seqLen - n] tokens after the prefix, and every attention call is for
    [seqLen - n] new tokens after [n] past ones; [accSeqLen] ends at
    [seqLen]. After [unsetPrefix()] the same call embeds all [seqLen]
    tokens, with no past tokens, and expands no prefix cache, although
    [prefixSeqLen] still holds [n]. *)
Theorem prefix_sharing_switch (ids0 : IntArray) (n : Z) (ids : IntArray) (d0 d1 d2 : Z)
    (la : bool) (m : Mach) (c : DecoderContext) :
  ready m c ->
  Z.of_nat (length (decoders m)) <= Int.max_signed ->
  0 <= n <= d2 -> d2 <= Int.max_signed ->
  let u := Int.of_int64 d0 in
  let H := ctx_hiddenSize c in
  let run := forward extern ATTN_MLP_PARALLEL splitOffset splitSize ids (d0, d1, d2) 0 la in
  exists m1 r m2 m1' r' m2',
    setPrefix extern ATTN_MLP_PARALLEL ids0 n m = Ok tt m1
    /\ run m1 = Ok r m2
    /\ accSeqLen m2 = d2
    /\ calls_to c_embeddingForward (events_since (log m1) m2)
       = [EmbeddingForward (snd (splitPrefix ids u d2 n (d2 - n))) (act_ptr 0) u (d2 - n)]
    /\ calls_to c_forwardAttention (events_since (log m1) m2)
       = imap (fun i dec =>
                 ForwardAttention (Z.of_nat i) dec false (act_ptr 0)
                   (act_ptr (Int.mul (Int.mul u (d2 - n)) H)) (tmp_ptr 0)
                   (d2 - n) n true true)
           (decoders m)
    /\ unsetPrefix m1 = Ok tt m1'
    /\ prefixSeqLen m1' = n
    /\ run m1' = Ok r' m2'
    /\ accSeqLen m2' = d2
    /\ calls_to c_embeddingForward (events_since (log m1') m2')
       = [EmbeddingForward ids (act_ptr 0) u d2]
    /\ calls_to c_forwardAttention (events_since (log m1') m2')
       = imap (fun i dec =>
                 ForwardAttention (Z.of_nat i) dec false (act_ptr 0)
                   (act_ptr (Int.mul (Int.mul u d2) H)) (tmp_ptr 0) d2 0 true true)
           (decoders m)
    /\ calls_to c_expandPrefixCache (events_since (log m1') m2') = [].
Proof.
  intros (Hc & HH & Hw) Hlen Hn Hd2 u H run.
  assert (ES : Int.of_int64 d2 = d2)
    by (apply wrap_small; unfold Int.in_range, Int.min_signed; lia).
  assert (ES' : Int.sub d2 n = d2 - n)
    by (apply sub_small; unfold Int.in_range, Int.min_signed; lia).
  assert (EA : Int.add 0 d2 = d2)
    by (apply add_small; unfold Int.in_range, Int.min_signed; lia).
  unfold setPrefix. mstep.
  set (m0 := set_prefixSeqLen elt cell n (set_prefixSharing elt cell true m)).
  destruct (prefixForward_trace ids0 n m0 c Hc HH Hw)
    as (m1 & Hrun1 & (C1 & C2 & C3 & C4 & C5 & C6 & C7 & C8 & C9) & _).
  cbn in C1, C2, C3, C4, C5, C6, C7, C8, C9.
  set (c1 := DecoderContext_resize c 1 n 0) in *.
  assert (Hw1 : 0 < getSize (messenger m1)) by (rewrite C1; exact Hw).
  assert (Hlen1 : Z.of_nat (length (decoders m1)) <= Int.max_signed)
    by (rewrite C9; exact Hlen).
  (* with the prefix *)
  destruct (forward_embedding_calls ids d0 d1 d2 0 la m1 c1 C4 HH Hw1 Hlen1)
    as (r & m2 & Hrun2 & Hemb & _).
  destruct (forward_attention_calls ids d0 d1 d2 0 la m1 c1 C4 HH Hw1 Hlen1)
    as (rx1 & mx1 & Hrun2_ & Hatt).
  rewrite Hrun2 in Hrun2_. injection Hrun2_ as _ <-.
  destruct (forward_total ids d0 d1 d2 0 la m1 c1 C4 HH Hw1)
    as (rx2 & mx2 & cx2 & Hrun2_ & _ & _ & _ & _ & Hacc).
  rewrite Hrun2 in Hrun2_. injection Hrun2_ as _ <-.
  cbn [Z.eqb andb] in Hemb, Hatt, Hacc. rewrite C8, C7, ES, ES' in Hemb, Hatt.
  rewrite C9 in Hatt.
  rewrite ES, EA in Hacc.
  (* without it *)
  set (m1' := set_prefixSharing elt cell false m1).
  assert (Hc1' : context m1' = Some c1) by exact C4.
  assert (Hw1' : 0 < getSize (messenger m1')) by exact Hw1.
  assert (Hlen1' : Z.of_nat (length (decoders m1')) <= Int.max_signed) by exact Hlen1.
  destruct (forward_embedding_calls ids d0 d1 d2 0 la m1' c1 Hc1' HH Hw1' Hlen1')
    as (r' & m2' & Hrun3 & Hemb' & Hexp').
  destruct (forward_attention_calls ids d0 d1 d2 0 la m1' c1 Hc1' HH Hw1' Hlen1')
    as (rx3 & mx3 & Hrun3_ & Hatt').
  rewrite Hrun3 in Hrun3_. injection Hrun3_ as _ <-.
  destruct (forward_total ids d0 d1 d2 0 la m1' c1 Hc1' HH Hw1')
    as (rx4 & mx4 & cx4 & Hrun3_ & _ & _ & _ & _ & Hacc').
  rewrite Hrun3 in Hrun3_. injection Hrun3_ as _ <-.
  cbn [Z.eqb andb prefixSharing decoders m1' set_prefixSharing] in Hemb', Hatt', Hexp', Hacc'.
  rewrite C9, ES in Hatt'. rewrite ES in Hemb'. rewrite ES, EA in Hacc'.
  exists m1, r, m2, m1', r', m2'.
  split; [exact Hrun1|]. split; [exact Hrun2|]. split; [exact Hacc|].
  split; [exact Hemb|]. split; [exact Hatt|]. split; [reflexivity|].
  split; [exact C7|]. split; [exact Hrun3|]. split; [exact Hacc'|].
  split; [exact Hemb'|]. split; [exact Hatt'|exact Hexp'].
Qed.

End Properties.

(** * Loading the weights of a layer *)

Section WeightsProperties.
Import Weights.

(** The paths through [setDecoderWeights]: which MLP files there are, and
    for each optional file whether it is absent, complete or cut short. *)
Ltac weight_tests host sz :=
  destruct sz as [h im kvn ahs sw];
  unfold exit_code, steps, setDecoderWeights, optional_files, partial_read, ALLOC,
    READ_OPTIONAL, qkvSize, kvSize;
  cbn [hiddenSize imSize kvHeadNum attHeadSize swiglu find]; cbv zeta;
  generalize (Int.mul ahs kvn); intros kv;
  generalize (Int.add (Int.add h kv) kv); intros qkv;
  generalize (Int.mul h qkv); intros n_qkv;
  generalize (Int.mul h h); intros n_hh;
  generalize (Int.mul (Int.mul h im) (if sw then 2 else 1)); intros n_fc1;
  generalize (Int.mul h im); intros n_him;
  generalize (loadWeight host qkv_bias qkv); intros r1;
  generalize (loadWeight host attn_dense_bias h); intros r2;
  generalize (loadWeight host input_layernorm_bias h); intros r3;
  generalize (loadWeight host post_attention_layernorm_bias h); intros r4;
  generalize (loadWeight host dense_h_to_4h_bias im); intros r5;
  generalize (loadWeight host dense_4h_to_h_bias h); intros r6;
  generalize (fileExists host dense_h_to_4h_weight); intros ex;
  generalize (r1 =? 0), (r1 =? qkv), (r2 =? 0), (r2 =? h), (r3 =? 0), (r3 =? h),
    (r4 =? 0), (r4 =? h), (r5 =? 0), (r5 =? im), (r6 =? 0), (r6 =? h);
  intros a1 b1 a2 b2 a3 b3 a4 b4 a5 b5 a6 b6.

Ltac optional_file a b leaf k := destruct a; [ k | destruct b; [ k | leaf ] ].

Ltac weight_paths ex a1 b1 a2 b2 a3 b3 a4 b4 a5 b5 a6 b6 leaf :=
  destruct ex;
  (optional_file a1 b1 leaf ltac:(optional_file a2 b2 leaf ltac:(
     optional_file a3 b3 leaf ltac:(optional_file a4 b4 leaf ltac:(
       optional_file a5 b5 leaf ltac:(optional_file a6 b6 leaf leaf)))))).

Ltac all_weight_paths leaf :=
  match goal with
  | ex : bool, a1 : bool, b1 : bool, a2 : bool, b2 : bool, a3 : bool, b3 : bool,
    a4 : bool, b4 : bool, a5 : bool, b5 : bool, a6 : bool, b6 : bool |- _ =>
      weight_paths ex a1 b1 a2 b2 a3 b3 a4 b4 a5 b5 a6 b6 leaf
  end.

Lemma released_counts (tr : list Step) (b : Buf) :
  released tr = true ->
  frees b tr = allocations b tr /\ (allocations b tr <= 1)%nat.
Proof.
  unfold released. rewrite forallb_forall. intros H.
  assert (Hin : In b all_bufs) by (destruct b; cbn; tauto).
  apply H in Hin. apply andb_true_iff in Hin as [H1 H2].
  apply Nat.eqb_eq in H1. apply Nat.leb_le in H2. auto.
Qed.

Lemma released_when_returning (host : Host) (sz : Sizes) :
  (forall b, allocates host b = true) ->
  exit_code host sz = None ->
  released (steps host sz) = true /\ frees_valid [] (steps host sz) = true.
Proof.
  intros Hok. weight_tests host sz. rewrite !Hok.
  all_weight_paths ltac:(vm_compute; first [ discriminate | auto ]).
Qed.

(** X20. When every allocation succeeds
    and [setDecoderWeights] returns, each block was handed out at most once
    and freed exactly as often, and every [free] was given null or the start
    of a block that was handed out and not freed before. *)
Theorem setDecoderWeights_frees_every_block (host : Host) (sz : Sizes) :
  (forall b, allocates host b = true) ->
  exit_code host sz = None ->
  (forall b, frees b (steps host sz) = allocations b (steps host sz)
             /\ (allocations b (steps host sz) <= 1)%nat)
  /\ frees_valid [] (steps host sz) = true.
Proof.
  intros Hok Hret.
  destruct (released_when_returning host sz Hok Hret) as [H1 H2].
  split; [ | exact H2 ].
  intros b. apply released_counts, H1.
Qed.

(** X21. When an optional file gives
    some elements but not as many as asked for, the function prints the
    message of the first such file as its last step and exits with status
    -1; it does not call [setWeights]. *)
Theorem setDecoderWeights_partial_file_exits (host : Host) (sz : Sizes)
    (f : WeightFile) (b : Buf) (size : Z) (msg : string) (i : nat) :
  find (partial_read host) (optional_files sz) = Some (f, b, size, msg, i) ->
  exit_code host sz = Some (-1)
  /\ last (steps host sz) = Some (Print msg)
  /\ params_of (steps host sz) = None.
Proof.
  weight_tests host sz.
  all_weight_paths ltac:(
    let H := fresh "H" in
    intros H; vm_compute in H;
    first [ discriminate H
          | injection H as <- <- <- <- <-; vm_compute; auto ]).
Qed.

Lemma parameters_explicit (host : Host) (sz : Sizes) :
  (forall b, allocates host b = true) ->
  find (partial_read host) (optional_files sz) = None ->
  exit_code host sz = None
  /\ exists ps, params_of (steps host sz) = Some ps /\ length ps = 17%nat
     /\ ps !! 1%nat = Some (if loadWeight host qkv_bias (qkvSize sz) =? 0
                            then null else FPtr (Some qkvBias) 0)
     /\ ps !! 7%nat = Some (if loadWeight host attn_dense_bias (hiddenSize sz) =? 0
                            then null else FPtr (Some attnOutBias) 0)
     /\ ps !! 9%nat = Some (if loadWeight host input_layernorm_bias (hiddenSize sz) =? 0
                            then null else FPtr (Some ln1Beta) 0)
     /\ ps !! 15%nat = Some (if loadWeight host post_attention_layernorm_bias (hiddenSize sz) =? 0
                             then null else FPtr (Some ln2Beta) 0)
     /\ ps !! 11%nat = Some (if loadWeight host dense_h_to_4h_bias (imSize sz) =? 0
                             then null else FPtr (Some fc1Bias) 0)
     /\ ps !! 13%nat = Some (if loadWeight host dense_4h_to_h_bias (hiddenSize sz) =? 0
                             then null else FPtr (Some fc2Bias) 0)
     /\ ps !! 16%nat = Some (if fileExists host dense_h_to_4h_weight
                             then null else FPtr (Some fc3Weight) 0).
Proof.
  intros Hok. weight_tests host sz. rewrite !Hok.
  all_weight_paths ltac:(
    let H := fresh "H" in
    intros H; vm_compute in H;
    first [ discriminate H
          | clear H; split; [ vm_compute; reflexivity | ];
            eexists; split; [ vm_compute; reflexivity | ];
            repeat split; reflexivity ]).
Qed.

(** X22. When every allocation succeeds and no
    optional file is cut short, the function returns after one call of
    [setWeights] with 17 parameters, in which the pointer of each optional
    file is null when [loadWeight] returned 0 for it and the start of its
    buffer otherwise, and the last one is null exactly when the file
    dense_h_to_4h exists. *)
Theorem setDecoderWeights_parameters (host : Host) (sz : Sizes) :
  (forall b, allocates host b = true) ->
  find (partial_read host) (optional_files sz) = None ->
  exit_code host sz = None
  /\ exists ps, params_of (steps host sz) = Some ps /\ length ps = 17%nat
     /\ (forall f b size msg i, In (f, b, size, msg, i) (optional_files sz) ->
           ps !! i = Some (if loadWeight host f size =? 0
                           then null else FPtr (Some b) 0))
     /\ ps !! 16%nat = Some (if fileExists host dense_h_to_4h_weight
                             then null else FPtr (Some fc3Weight) 0).
Proof.
  intros Hok Hfind.
  destruct (parameters_explicit host sz Hok Hfind)
    as (Hret & ps & Hps & Hlen & H1 & H7 & H9 & H15 & H11 & H13 & H16).
  split; [ exact Hret | ].
  exists ps. repeat split; try assumption.
  intros f b size msg i Hin. unfold optional_files in Hin. cbn [In] in Hin.
  repeat destruct Hin as [Hin | Hin]; try contradiction;
    injection Hin as <- <- <- <- <-; assumption.
Qed.

(** X23. When [loadWeight] returns 0 for
    the QKV bias file, the function frees the bias buffer and passes null as
    the Q bias, but the K and V bias parameters are [qkvBias + qSize] and
    [qkvBias + qSize + kvSize] taken from that null pointer: offsets from
    null, not null. *)
Theorem setDecoderWeights_absent_qkv_bias (host : Host) (sz : Sizes) :
  (forall b, allocates host b = true) ->
  loadWeight host qkv_bias (qkvSize sz) = 0 ->
  exit_code host sz = None ->
  exists ps, params_of (steps host sz) = Some ps
    /\ ps !! 1%nat = Some null
    /\ ps !! 3%nat = Some (FPtr None (hiddenSize sz))
    /\ ps !! 5%nat = Some (FPtr None (hiddenSize sz + kvSize sz)).
Proof.
  intros Hok Hzero. apply Z.eqb_eq in Hzero. revert Hzero.
  weight_tests host sz. rewrite !Hok.
  all_weight_paths ltac:(
    let H := fresh "H" in let H' := fresh "H" in
    intros H H'; vm_compute in H';
    first [ discriminate H | discriminate H'
          | eexists; split; [ vm_compute; reflexivity | ];
            repeat split; reflexivity ]).
Qed.

Lemma parameters_held (host : Host) (sz : Sizes) :
  (forall b, allocates host b = true) ->
  exit_code host sz = None ->
  exists pre ps, upto_setWeights (steps host sz) = Some (pre, ps)
    /\ forallb (held pre) ps = true.
Proof.
  intros Hok. weight_tests host sz. rewrite !Hok.
  all_weight_paths ltac:(
    let H := fresh "H" in
    intros H; vm_compute in H;
    first [ discriminate H
          | eexists _, _; split; [ vm_compute; reflexivity | ];
            vm_compute; reflexivity ]).
Qed.

(** X24. When every allocation succeeds
    and the function returns, every parameter of [setWeights] that points
    into a block points into one that was handed out and is not freed
    before the call: no buffer is passed after its [free]. *)
Theorem setDecoderWeights_parameters_held (host : Host) (sz : Sizes) :
  (forall b, allocates host b = true) ->
  exit_code host sz = None ->
  exists pre ps, upto_setWeights (steps host sz) = Some (pre, ps)
    /\ forall p b, In p ps -> base p = Some b ->
         allocations b pre = 1%nat /\ frees b pre = 0%nat.
Proof.
  intros Hok Hret.
  destruct (parameters_held host sz Hok Hret) as (pre & ps & Hup & Hall).
  exists pre, ps. split; [ exact Hup | ].
  intros p b Hin Hb. rewrite forallb_forall in Hall.
  apply Hall in Hin. unfold held in Hin. rewrite Hb in Hin.
  apply andb_true_iff in Hin as [H1 H2].
  apply Nat.eqb_eq in H1. apply Nat.eqb_eq in H2. auto.
Qed.

End WeightsProperties.

(** * Concatenating the gate and up weights *)

Section MlpElements.
Import Mlp.

Context {A : Type}.

Lemma cat_memcpy_defined (dst : list A) (d : Z) (src : list A) (s n : Z) :
  0 <= d -> 0 <= s -> 0 <= n ->
  d + n <= Z.of_nat (length dst) -> s + n <= Z.of_nat (length src) ->
  memcpy dst d src s n
  = Some (take (Z.to_nat d) dst ++ take (Z.to_nat n) (drop (Z.to_nat s) src)
          ++ drop (Z.to_nat (d + n)) dst).
Proof.
  intros Hd Hs Hn Hdst Hsrc. unfold memcpy.
  rewrite !(proj2 (Z.leb_le _ _)) by assumption. reflexivity.
Qed.

Lemma cat_memcpy_Some (dst : list A) (d : Z) (src : list A) (s n : Z) (r : list A) :
  memcpy dst d src s n = Some r ->
  (0 <= d /\ 0 <= s /\ 0 <= n
   /\ d + n <= Z.of_nat (length dst) /\ s + n <= Z.of_nat (length src))
  /\ r = take (Z.to_nat d) dst ++ take (Z.to_nat n) (drop (Z.to_nat s) src)
         ++ drop (Z.to_nat (d + n)) dst.
Proof.
  unfold memcpy. intros H.
  destruct (_ && _) eqn:E in H; [|discriminate].
  injection H as <-.
  rewrite !andb_true_iff, !Z.leb_le in E. split; [tauto | reflexivity].
Qed.

Lemma cat_memcpy_length (dst : list A) (d : Z) (src : list A) (s n : Z) (r : list A) :
  memcpy dst d src s n = Some r -> length r = length dst.
Proof.
  intros H. apply cat_memcpy_Some in H as [(Hd & Hs & Hn & Hdst & Hsrc) ->].
  rewrite !length_app, !length_take, !length_drop. lia.
Qed.

Lemma cat_memcpy_inside (dst : list A) (d : Z) (src : list A) (s n : Z) (r : list A) (j : Z) :
  memcpy dst d src s n = Some r -> 0 <= j < n ->
  r !! Z.to_nat (d + j) = src !! Z.to_nat (s + j).
Proof.
  intros H Hj. apply cat_memcpy_Some in H as [(Hd & Hs & Hn & Hdst & Hsrc) ->].
  rewrite lookup_app_r by (rewrite length_take; lia).
  rewrite length_take.
  replace (Z.to_nat (d + j) - Z.to_nat d `min` length dst)%nat with (Z.to_nat j) by lia.
  rewrite lookup_app_l by (rewrite length_take, length_drop; lia).
  rewrite lookup_take_lt by lia. rewrite lookup_drop. f_equal. lia.
Qed.

Lemma cat_memcpy_outside (dst : list A) (d : Z) (src : list A) (s n : Z) (r : list A) (k : Z) :
  memcpy dst d src s n = Some r -> 0 <= k -> k < d \/ d + n <= k ->
  r !! Z.to_nat k = dst !! Z.to_nat k.
Proof.
  intros H Hk Hout. apply cat_memcpy_Some in H as [(Hd & Hs & Hn & Hdst & Hsrc) ->].
  destruct Hout as [Hlt | Hge].
  - rewrite lookup_app_l by (rewrite length_take; lia).
    apply lookup_take_lt. lia.
  - rewrite lookup_app_r by (rewrite length_take; lia).
    rewrite lookup_app_r by (rewrite !length_take, length_drop; lia).
    rewrite !length_take, length_drop, lookup_drop. f_equal. lia.
Qed.

End MlpElements.

Section MlpRows.
Import Mlp.

Context {WeiT : Type}.

Lemma copyRow_spec (N : Z) (gate up cat : list WeiT) (i : Z) :
  0 <= i -> 0 <= N ->
  i * N + N <= Z.of_nat (length gate) -> i * N + N <= Z.of_nat (length up) ->
  i * (2 * N) + 2 * N <= Z.of_nat (length cat) ->
  exists r,
    copyRow (2 * N) N gate up cat i = Some r
    /\ length r = length cat
    /\ (forall j, 0 <= j < N ->
          r !! Z.to_nat (i * (2 * N) + j) = gate !! Z.to_nat (i * N + j)
          /\ r !! Z.to_nat (i * (2 * N) + N + j) = up !! Z.to_nat (i * N + j))
    /\ (forall k, 0 <= k -> k < i * (2 * N) \/ i * (2 * N) + 2 * N <= k ->
          r !! Z.to_nat k = cat !! Z.to_nat k).
Proof.
  intros Hi HN Hg Hu Hc.
  assert (HiN : 0 <= i * N) by (apply Z.mul_nonneg_nonneg; assumption).
  assert (Hi2N : 0 <= i * (2 * N)) by (apply Z.mul_nonneg_nonneg; lia).
  unfold copyRow.
  destruct (memcpy cat (i * (2 * N)) gate (i * N) N) as [c1|] eqn:H1.
  2:{ rewrite cat_memcpy_defined in H1 by lia. discriminate H1. }
  pose proof (cat_memcpy_length _ _ _ _ _ _ H1) as L1.
  cbn [mbind option_bind].
  destruct (memcpy c1 (i * (2 * N) + N) up (i * N) N) as [c2|] eqn:H2.
  2:{ rewrite cat_memcpy_defined in H2 by lia. discriminate H2. }
  pose proof (cat_memcpy_length _ _ _ _ _ _ H2) as L2.
  exists c2. split; [reflexivity|]. split; [lia|]. split.
  - intros j Hj. split.
    + rewrite (cat_memcpy_outside _ _ _ _ _ _ (i * (2 * N) + j) H2) by lia.
      apply (cat_memcpy_inside _ _ _ _ _ _ j H1 Hj).
    + replace (i * (2 * N) + N + j) with ((i * (2 * N) + N) + j) by lia.
      apply (cat_memcpy_inside _ _ _ _ _ _ j H2 Hj).
  - intros k Hk Hout.
    rewrite (cat_memcpy_outside _ _ _ _ _ _ k H2) by lia.
    apply (cat_memcpy_outside _ _ _ _ _ _ k H1); lia.
Qed.

Lemma copyRows_spec (N : Z) (gate up cat : list WeiT) (n : nat) :
  0 <= N ->
  Z.of_nat n * N <= Z.of_nat (length gate) -> Z.of_nat n * N <= Z.of_nat (length up) ->
  Z.of_nat n * (2 * N) <= Z.of_nat (length cat) ->
  exists r,
    copyRows (Z.of_nat n) (2 * N) N gate up cat = Some r
    /\ length r = length cat
    /\ (forall i j, 0 <= i < Z.of_nat n -> 0 <= j < N ->
          r !! Z.to_nat (i * (2 * N) + j) = gate !! Z.to_nat (i * N + j)
          /\ r !! Z.to_nat (i * (2 * N) + N + j) = up !! Z.to_nat (i * N + j))
    /\ (forall k, Z.of_nat n * (2 * N) <= k -> r !! Z.to_nat k = cat !! Z.to_nat k).
Proof.
  intros HN. induction n as [|n IH]; intros Hg Hu Hc.
  - exists cat. split; [reflexivity|]. split; [reflexivity|]. split.
    + intros i j Hi. lia.
    + reflexivity.
  - assert (Hstep : Z.of_nat (S n) = Z.of_nat n + 1) by lia.
    rewrite Hstep in Hg, Hu, Hc |- *.
    rewrite Z.mul_add_distr_r, Z.mul_1_l in Hg, Hu, Hc.
    assert (HnN : 0 <= Z.of_nat n * N) by (apply Z.mul_nonneg_nonneg; lia).
    destruct IH as (r & Hrun & Hlen & Hrows & Hrest); [lia | lia | lia |].
    destruct (copyRow_spec N gate up r (Z.of_nat n))
      as (r' & Hrow & Hlen' & Hnew & Hold); [lia | lia | lia | lia | lia |].
    exists r'. split; [|split; [lia|split]].
    + unfold copyRows in *. rewrite seqZ_app by lia.
      rewrite foldl_app, Hrun.
      replace (seqZ (0 + Z.of_nat n) 1) with [Z.of_nat n]
        by (unfold seqZ; cbn; f_equal; lia).
      cbn. exact Hrow.
    + intros i j Hi Hj.
      destruct (Z.eq_dec i (Z.of_nat n)) as [-> | Hne].
      * apply Hnew. exact Hj.
      * assert (Hlt : i + 1 <= Z.of_nat n) by lia.
        assert (Hb : (i + 1) * (2 * N) <= Z.of_nat n * (2 * N))
          by (apply Z.mul_le_mono_nonneg_r; lia).
        assert (Hi0 : 0 <= i * (2 * N)) by (apply Z.mul_nonneg_nonneg; lia).
        rewrite !Hold by lia. apply Hrows; lia.
    + intros k Hk. rewrite Z.mul_add_distr_r, Z.mul_1_l in Hk.
      rewrite Hold by lia. apply Hrest. lia.
Qed.

End MlpRows.

Section MlpCat.
Import Mlp.

Context {WeiT float : Type}.

(** Two vectors copied one after the other into the start of [store]. *)
Lemma cat_two (g u store : list float) (M N : Z) (r1 r2 : list float) :
  memcpy store 0 g 0 M = Some r1 ->
  memcpy r1 M u 0 N = Some r2 ->
  r2 = take (Z.to_nat M) g ++ take (Z.to_nat N) u ++ drop (Z.to_nat (M + N)) store.
Proof.
  intros H1 H2.
  pose proof (cat_memcpy_length _ _ _ _ _ _ H1) as L1.
  apply cat_memcpy_Some in H1 as [(_ & _ & HM & Hst & Hg) E1].
  apply cat_memcpy_Some in H2 as [(_ & _ & HN & Hr1 & Hu) ->].
  rewrite Z.add_0_l in E1, Hst, Hg, Hu.
  change (Z.to_nat 0) with 0%nat in E1. rewrite take_0, drop_0, app_nil_l in E1.
  assert (Ht : take (Z.to_nat M) r1 = take (Z.to_nat M) g).
  { rewrite E1. rewrite take_app_le by (rewrite length_take; lia).
    apply take_ge. rewrite length_take. lia. }
  assert (Hd : drop (Z.to_nat (M + N)) r1 = drop (Z.to_nat (M + N)) store).
  { rewrite E1. rewrite drop_app_ge by (rewrite length_take; lia).
    rewrite length_take, drop_drop. f_equal. lia. }
  rewrite Ht, Hd. reflexivity.
Qed.

Lemma cat_two_defined (g u store : list float) (M N : Z) :
  0 <= M -> 0 <= N ->
  M <= Z.of_nat (length g) -> N <= Z.of_nat (length u) ->
  M + N <= Z.of_nat (length store) ->
  exists r1 r2, memcpy store 0 g 0 M = Some r1 /\ memcpy r1 M u 0 N = Some r2.
Proof.
  intros HM HN Hg Hu Hst.
  destruct (memcpy store 0 g 0 M) as [r1|] eqn:H1.
  2:{ rewrite cat_memcpy_defined in H1 by lia. discriminate H1. }
  pose proof (cat_memcpy_length _ _ _ _ _ _ H1) as L1.
  destruct (memcpy r1 M u 0 N) as [r2|] eqn:H2.
  2:{ rewrite cat_memcpy_defined in H2 by lia. discriminate H2. }
  exists r1, r2. split; [reflexivity | exact H2].
Qed.

Lemma take_cat_two (g u rest : list float) (M N : Z) :
  0 <= M -> 0 <= N -> M <= Z.of_nat (length g) -> N <= Z.of_nat (length u) ->
  take (Z.to_nat (M + N)) (take (Z.to_nat M) g ++ take (Z.to_nat N) u ++ rest)
  = take (Z.to_nat M) g ++ take (Z.to_nat N) u.
Proof.
  intros HM HN Hg Hu. rewrite app_assoc.
  rewrite take_app_le by (rewrite length_app, !length_take; lia).
  apply take_ge. rewrite length_app, !length_take. lia.
Qed.

(** What [catGateUpWeights] returns on arrays that fit. *)
Lemma catGateUpWeights_run (packed : bool) (gate up : Matrix WeiT)
    (gs gz gu us uz uu : Vector float) (wstore : list WeiT)
    (sstore zstore ustore : list float) :
  weights_fit packed gate up wstore ->
  vectors_fit gs gz gu us uz uu sstore zstore ustore ->
  let w := row_elements packed (Cols gate) in
  exists data,
    catGateUpWeights packed gate up gs gz gu us uz uu wstore sstore zstore ustore
    = Some ({| Rows := Rows gate; Cols := 2 * Cols gate; Data := data |},
            {| Size := Size gs + Size us;
               VData := take (Z.to_nat (Size gs)) (VData gs)
                        ++ take (Z.to_nat (Size us)) (VData us)
                        ++ drop (Z.to_nat (Size gs + Size us)) sstore |},
            {| Size := Size gz + Size uz;
               VData := take (Z.to_nat (Size gs)) (VData gz)
                        ++ take (Z.to_nat (Size us)) (VData uz)
                        ++ drop (Z.to_nat (Size gs + Size us)) zstore |},
            {| Size := Size gu + Size uu;
               VData := take (Z.to_nat (Size gu)) (VData gu)
                        ++ take (Z.to_nat (Size uu)) (VData uu)
                        ++ drop (Z.to_nat (Size gu + Size uu)) ustore |})
    /\ length data = length wstore
    /\ forall i j, 0 <= i < Rows gate -> 0 <= j < w ->
         data !! Z.to_nat (i * (2 * w) + j) = Data gate !! Z.to_nat (i * w + j)
         /\ data !! Z.to_nat (i * (2 * w) + w + j) = Data up !! Z.to_nat (i * w + j).
Proof.
  intros (HR & HC & Hup & Hmax & Heven & Hg & Hu & Hw)
         ((Hs1 & Hs2 & Hs3) & (Hz1 & Hz2 & Hz3) & (Hu1 & Hu2 & Hu3)
          & Lgs & Lus & Lgz & Luz & Lgu & Luu & Lss & Lzs & Lus') w.
  fold w in Hg, Hu, Hw.
  assert (Hw0 : 0 <= w).
  { unfold w, row_elements. destruct packed; [apply Z.quot_pos; lia | exact HC]. }
  assert (Hcols : Int.add (Cols gate) (Cols up) = 2 * Cols gate).
  { rewrite Hup. unfold Int.add. rewrite wrap_small; [lia|].
    unfold Int.in_range, Int.min_signed. lia. }
  assert (Hstride : (if packed then (2 * Cols gate) ÷ 2 else 2 * Cols gate) = 2 * w).
  { unfold w, row_elements. destruct packed; [|reflexivity].
    specialize (Heven eq_refl). apply Z.even_spec in Heven as [k Hk].
    clear - HC Hk. rewrite !Z.quot_div_nonneg by lia. rewrite Hk.
    rewrite (Z.mul_comm 2 k). rewrite Z.div_mul by lia.
    rewrite Z.mul_assoc. rewrite Z.div_mul by lia. lia. }
  destruct (copyRows_spec w (Data gate) (Data up) wstore (Z.to_nat (Rows gate)) Hw0)
    as (data & Hrun & Hlen & Hrows & _); try (rewrite Z2Nat.id by lia; assumption).
  rewrite Z2Nat.id in Hrun, Hrows by lia.
  destruct (cat_two_defined (VData gs) (VData us) sstore (Size gs) (Size us))
    as (s1 & s2 & Hs1' & Hs2'); try assumption.
  destruct (cat_two_defined (VData gz) (VData uz) zstore (Size gs) (Size us))
    as (z1 & z2 & Hz1' & Hz2'); try assumption.
  destruct (cat_two_defined (VData gu) (VData uu) ustore (Size gu) (Size uu))
    as (u1 & u2 & Hu1' & Hu2'); try assumption.
  exists data. split; [|split; [exact Hlen | exact Hrows]].
  unfold catGateUpWeights. rewrite Hcols.
  rewrite (proj2 (Z.ltb_ge _ _)) by lia.
  fold (row_elements packed (Cols gate)). fold w. rewrite Hstride, Hrun.
  cbn [mbind option_bind]. rewrite Hs1'. cbn [mbind option_bind]. rewrite Hs2'.
  cbn [mbind option_bind]. rewrite Hz1'. cbn [mbind option_bind]. rewrite Hz2'.
  cbn [mbind option_bind]. rewrite Hu1'. cbn [mbind option_bind]. rewrite Hu2'.
  cbn [mbind option_bind].
  rewrite (cat_two _ _ _ _ _ _ _ Hs1' Hs2'), (cat_two _ _ _ _ _ _ _ Hz1' Hz2'),
    (cat_two _ _ _ _ _ _ _ Hu1' Hu2').
  unfold Int.add. rewrite !wrap_small by (unfold Int.in_range, Int.min_signed; lia).
  reflexivity.
Qed.

(** X25. For gate and up weights of the same shape,
    stored row after row, and arrays that fit, [catGateUpWeights] returns a
    matrix with the rows of the gate weights and the columns of both, in
    which row [i] holds row [i] of the gate weights followed by row [i] of
    the up weights. With a packed element type a row of [C] values takes
    [C / 2] elements, and [C] has to be even. *)
Theorem catGateUpWeights_rows (packed : bool) (gate up : Matrix WeiT)
    (gs gz gu us uz uu : Vector float) (wstore : list WeiT)
    (sstore zstore ustore : list float) :
  weights_fit packed gate up wstore ->
  vectors_fit gs gz gu us uz uu sstore zstore ustore ->
  let w := row_elements packed (Cols gate) in
  exists cat s z u,
    catGateUpWeights packed gate up gs gz gu us uz uu wstore sstore zstore ustore
    = Some (cat, s, z, u)
    /\ Rows cat = Rows gate /\ Cols cat = Cols gate + Cols up
    /\ forall i j, 0 <= i < Rows gate -> 0 <= j < w ->
         Data cat !! Z.to_nat (i * (2 * w) + j) = Data gate !! Z.to_nat (i * w + j)
         /\ Data cat !! Z.to_nat (i * (2 * w) + w + j) = Data up !! Z.to_nat (i * w + j).
Proof.
  intros Hw Hv w.
  destruct (catGateUpWeights_run packed gate up gs gz gu us uz uu wstore sstore zstore
              ustore Hw Hv) as (data & Hrun & _ & Hrows).
  destruct Hw as (_ & _ & Hup & _).
  eexists _, _, _, _. split; [exact Hrun|]. cbn [Rows Cols Data].
  split; [reflexivity|]. split; [lia|]. exact Hrows.
Qed.

(** X26. On arrays that fit, [catGateUpWeights]
    returns scale and sum vectors that are the gate vector followed by the
    up vector, each as long as the two together. The zero vector is as long
    as the two zero vectors together, but is filled with the sizes of the
    scale vectors: it starts with as many elements of the gate zero vector
    as the gate scale vector has, followed by as many of the up zero vector
    as the up scale vector has, which is the gate zero vector followed by
    the up zero vector when the zero vectors have the sizes of the scale
    vectors. *)
Theorem catGateUpWeights_vectors (packed : bool) (gate up : Matrix WeiT)
    (gs gz gu us uz uu : Vector float) (wstore : list WeiT)
    (sstore zstore ustore : list float) :
  weights_fit packed gate up wstore ->
  vectors_fit gs gz gu us uz uu sstore zstore ustore ->
  exists cat s z u,
    catGateUpWeights packed gate up gs gz gu us uz uu wstore sstore zstore ustore
    = Some (cat, s, z, u)
    /\ Size s = Size gs + Size us
    /\ take (Z.to_nat (Size s)) (VData s)
       = take (Z.to_nat (Size gs)) (VData gs) ++ take (Z.to_nat (Size us)) (VData us)
    /\ Size u = Size gu + Size uu
    /\ take (Z.to_nat (Size u)) (VData u)
       = take (Z.to_nat (Size gu)) (VData gu) ++ take (Z.to_nat (Size uu)) (VData uu)
    /\ Size z = Size gz + Size uz
    /\ take (Z.to_nat (Size gs + Size us)) (VData z)
       = take (Z.to_nat (Size gs)) (VData gz) ++ take (Z.to_nat (Size us)) (VData uz)
    /\ (Size gz = Size gs -> Size uz = Size us ->
        take (Z.to_nat (Size z)) (VData z)
        = take (Z.to_nat (Size gz)) (VData gz) ++ take (Z.to_nat (Size uz)) (VData uz)).
Proof.
  intros Hw Hv.
  destruct (catGateUpWeights_run packed gate up gs gz gu us uz uu wstore sstore zstore
              ustore Hw Hv) as (data & Hrun & _ & _).
  destruct Hv as ((Hs1 & Hs2 & _) & _ & (Hu1 & Hu2 & _)
                  & Lgs & Lus & Lgz & Luz & Lgu & Luu & _).
  eexists _, _, _, _. split; [exact Hrun|]. cbn [Size VData].
  split; [reflexivity|]. split; [apply take_cat_two; assumption|].
  split; [reflexivity|]. split; [apply take_cat_two; assumption|].
  split; [reflexivity|]. split; [apply take_cat_two; assumption|].
  intros -> ->. apply take_cat_two; assumption.
Qed.

End MlpCat.

(** * [init] with USE_SHM *)

Lemma sameHostnames_spec (hostname : Z -> string) (me : string) (n : nat) (i : Z) :
  (Shm.sameHostnames hostname me i n = 1 \/ Shm.sameHostnames hostname me i n = 0)
  /\ (Shm.sameHostnames hostname me i n = 1
      <-> forall k, i <= k < i + Z.of_nat n -> hostname k = me).
Proof.
  revert i. induction n as [|n IH]; intros i.
  - cbn. split; [now left|]. split; [intros _ k Hk; lia | reflexivity].
  - cbn [Shm.sameHostnames].
    destruct (String.eqb_spec me (hostname i)) as [Heq | Hne]; cbn [negb].
    + destruct (IH (i + 1)) as [Hv Hiff]. split; [exact Hv|].
      rewrite Hiff. split.
      * intros H k Hk. destruct (Z.eq_dec k i) as [-> | Hki]; [now symmetry|].
        apply H. lia.
      * intros H k Hk. apply H. lia.
    + split; [now right|]. split; [discriminate|].
      intros H. exfalso. apply Hne. symmetry. apply H. lia.
Qed.

(** X27. Built with USE_SHM, for at most
    [MPI_MAX_PROCESSOR_NAME] processes, [init] returns 1 when the processes
    of world ranks 1 to [n - 1] have the host name of the calling process,
    and 0 otherwise, where [n] is the size of the caller's row communicator:
    the loop runs over the rows of [all_hostnames], gathered from all
    processes, up to the size that [init] has by then replaced [*world_size]
    with. For a process of colour 1 or more, none of the ranks compared is a
    member of its own row. *)
Theorem init_shm_compares_first_row (MAX : Z) (hostname : Z -> string) (W R P : Z) :
  0 < P -> P <= W -> 0 <= R < W -> W <= MAX ->
  exists out v,
    Comm.init W R P = Some out
    /\ Shm.init MAX hostname W R P = Some v
    /\ (v = 1 \/ v = 0)
    /\ (v = 1 <-> forall i, 1 <= i < Comm.world_size out -> hostname i = hostname R)
    /\ (1 <= Comm.world_color out ->
        forall i, 1 <= i < Comm.world_size out -> i ∉ Comm.row_comm out).
Proof.
  intros HP HPW HR HMAX.
  pose proof (init_run W R P HP HPW HR) as Hrun. cbv zeta in Hrun.
  set (tp := W / P) in *. set (c := R / tp) in *.
  assert (Htp : 0 < tp) by (apply Z.div_str_pos; lia).
  assert (Hc : c * tp <= R < c * tp + tp) by (apply div_interval; [lia|reflexivity]).
  set (n := Z.min tp (W - c * tp)) in *.
  assert (Hn : 1 <= n) by lia.
  eexists _, _. split; [exact Hrun|].
  unfold Shm.init. rewrite Hrun. cbn [mbind option_bind Comm.world_size].
  rewrite (proj2 (Z.ltb_ge _ _)) by lia.
  split; [reflexivity|].
  destruct (sameHostnames_spec hostname (hostname R) (Z.to_nat (n - 1)) 1) as [Hv Hiff].
  split; [exact Hv|]. split.
  - rewrite Hiff. split; intros H i Hi; apply H; lia.
  - cbn [Comm.world_color Comm.row_comm]. intros Hc1 i Hi.
    rewrite elem_of_seqZ.
    assert (tp <= c * tp) by nia. lia.
Qed.

(** * The statements on the small decoder *)

Lemma demo_ready (ppSize ppRank : Z) (sharing : bool) (prefixLen : Z) :
  ready (demo_decoder ppSize ppRank sharing prefixLen) demo_context.
Proof. repeat split. Defined.

Lemma demo_last_stage (sharing : bool) (prefixLen : Z) :
  last_stage (demo_decoder 1 0 sharing prefixLen).
Proof. repeat split. vm_compute. discriminate. Defined.

Lemma session_accSeqLen_witness :
  exists m',
    session demo_extern false 0 3 (demo_first :: demo_rest) (demo_decoder 1 0 false 0)
    = Ok tt m'
    /\ accSeqLen m' = 7 /\ initSeqLen m' = 5.
Proof.
  assert (Hlens : Forall (fun z => 0 <= z) (map seqLen_of (demo_first :: demo_rest))).
  { repeat constructor; vm_compute; discriminate. }
  assert (Hsteps : Forall (fun a => 0 < f_step a) demo_rest).
  { repeat constructor. }
  assert (Hsum : total (map seqLen_of (demo_first :: demo_rest)) <= Int.max_signed).
  { vm_compute. discriminate. }
  destruct (session_accSeqLen demo_extern false 0 3 demo_first demo_rest
              (demo_decoder 1 0 false 0) demo_context (demo_ready 1 0 false 0)
              eq_refl eq_refl Hsteps Hlens Hsum 3%nat) as (m' & Hrun & Hacc & Hinit).
  { cbn. lia. }
  exists m'. split; [exact Hrun|]. split; [exact Hacc|exact Hinit].
Defined.


Lemma init_color_and_row_comm_witness :
  exists out,
    Comm.init 8 5 2 = Some out
    /\ Comm.world_color out = 1
    /\ Comm.row_comm out = [4; 5; 6; 7]
    /\ Comm.world_size out = 4
    /\ Comm.world_rank out = 1.
Proof.
  destruct (init_color_and_row_comm 8 5 2) as (out & Hi & Hc & _ & _ & _ & Hrk & Hex);
    [lia | lia | lia |].
  destruct (Hex eq_refl eq_refl) as (Hsz & _ & Hrow).
  exists out. split; [exact Hi|]. split; [exact Hc|]. split; [exact Hrow|].
  split; [exact Hsz | exact Hrk].
Defined.

Lemma constructor_layer_range_witness :
  (exists m',
     CommonDecoder_new demo_extern 4 demo_new demo_config
       (fresh {| getSize := 2; getRank := 0; getColor := 1 |} demo_heap [])
     = Ok tt m'
     /\ pp_size m' = 4 /\ pp_rank m' = 1
     /\ decoders m' = [8; 9; 10; 11; 12; 13; 14; 15])
  /\ concat
       (map (fun r => assigned_layers
                        (CommonDecoder_new demo_extern 4 demo_new demo_config
                           (fresh {| getSize := 2; getRank := 0; getColor := r |}
                              demo_heap [])))
          (seqZ 0 4))
     = seqZ 0 32.
Proof.
  assert (HL : 0 <= num_layer demo_config <= Int.max_signed).
  { split; vm_compute; discriminate. }
  destruct (constructor_layer_range demo_extern 4 demo_new demo_config HL ltac:(lia))
    as [Hone Hall].
  split.
  - destruct (Hone {| getSize := 2; getRank := 0; getColor := 1 |} demo_heap [])
      as (m' & Hrun & Hsz & Hrk & Hdec & _).
    { cbn. lia. }
    exists m'. split; [exact Hrun|]. split; [exact Hsz|]. split; [exact Hrk|exact Hdec].
  - destruct (Hall eq_refl 2 0 demo_heap []) as [_ Htile]. exact Htile.
Defined.

Lemma reorderCache_range_witness :
  exists m',
    reorderCache demo_swap 2 (demo_decoder 1 0 false 0) = Ok tt m'
    /\ KVCacheManager.cachedKeys (kvCacheMgr (heap m')) 0 7 0 = 701
    /\ KVCacheManager.cachedValues (kvCacheMgr (heap m')) 0 8 1 = 1800
    /\ KVCacheManager.cachedKeys (kvCacheMgr (heap m')) 0 6 0 = 600
    /\ KVCacheManager.cachedKeys (kvCacheMgr (heap m')) 0 9 0 = 900
    /\ KVCacheManager.cachedKeys (kvCacheMgr (heap m')) 0 7 2 = 702.
Proof.
  destruct (@reorderCache_range Z Z demo_swap 2 (demo_decoder 1 0 false 0))
    as (m' & Hrun & _ & _ & _ & Hout & Hin & Hrow & _).
  { intros i Hi. unfold demo_swap. lia. }
  exists m'. split; [exact Hrun|].
  split; [|split; [|split; [|split]]].
  - destruct (Hin 0 7 0) as (_ & Hk & _); [cbn; lia | lia |]. exact Hk.
  - destruct (Hin 0 8 1) as (_ & _ & Hv); [cbn; lia | lia |]. exact Hv.
  - destruct (Hout 0 6 0) as (Hk & _); [cbn; lia |]. exact Hk.
  - destruct (Hout 0 9 0) as (Hk & _); [cbn; lia |]. exact Hk.
  - destruct (Hrow 0 7 2) as (Hk & _); [lia |]. exact Hk.
Defined.

Lemma forward_prefix_split_witness :
  exists r m' prefixIDs newIDs es,
    forward demo_extern false 0 3 demo_ids (2, 1, 20) 0 false (demo_decoder 1 0 true 16)
    = Ok r m'
    /\ map ev (log m') = es
    /\ prefixIDs 17 = demo_ids 21
    /\ newIDs 5 = demo_ids 37
    /\ filter (fun e => is_Some (token_ids e)) es
       = [ GetPositionIds prefixIDs 2 16 0;
           EmbeddingForward newIDs (act_ptr 0) 2 4;
           PrepareAttnMask newIDs 1;
           GetPositionIds newIDs 2 4 1 ]
    /\ exists before rest,
         es = before
              ++ ExpandPrefixCache 1 2 16
              :: ForwardAttention 1 1 false (act_ptr 0) (act_ptr 32) (tmp_ptr 0) 4 16
                   true true
              :: rest.
Proof.
  destruct (forward_prefix_split demo_extern false 0 3 demo_ids 2 1 20 false
              (demo_decoder 1 0 true 16) demo_context (demo_ready 1 0 true 16) eq_refl)
    as (r & m' & prefixIDs & newIDs & es & Hrun & Hlog & Hpre & Hnew & Hids & Hlayers).
  - split; [lia | vm_compute; discriminate].
  - cbn. lia.
  - vm_compute. discriminate.
  - vm_compute. discriminate.
  - vm_compute. discriminate.
  - exists r, m', prefixIDs, newIDs, es.
    split; [exact Hrun|]. split; [exact Hlog|]. split; [|split; [|split]].
    + apply (Hpre 1 1); cbn; lia.
    + apply (Hnew 1 1); cbn; lia.
    + exact Hids.
    + destruct (Hlayers 1%nat) as (dec & before & rest & Hdec & Hes); [cbn; lia|].
      exists before, rest. injection Hdec as <-. exact Hes.
Defined.



Lemma getDecoderContext_existing_witness :
  exists m',
    getDecoderContext demo_extern 1 demo_new demo_args (demo_decoder 1 0 false 0)
    = Ok demo_context m'
    /\ context m' = Some demo_context.
Proof.
  destruct (getDecoderContext_existing demo_extern 1 demo_new demo_args
              (demo_decoder 1 0 false 0) demo_context eq_refl)
    as (m' & es & Hctx & _ & _ & [[_ Hrun] | [Hno _]]).
  - exists m'. split; [exact Hrun | exact Hctx].
  - exfalso. apply Hno. repeat split.
Defined.

Lemma forward_prefix_accSeqLen_witness :
  exists r m',
    forward demo_extern false 0 3 demo_ids (2, 1, 20) 0 false (demo_decoder 1 0 true 16)
    = Ok r m'
    /\ accSeqLen m' = 20 /\ initSeqLen m' = 20
    /\ exists before newIDs rest,
         map ev (log m') = before ++ EmbeddingForward newIDs (act_ptr 0) 2 4 :: rest.
Proof.
  destruct (forward_prefix_accSeqLen demo_extern false 0 3 demo_ids 2 1 20 false
              (demo_decoder 1 0 true 16) demo_context (demo_ready 1 0 true 16) eq_refl)
    as (r & m' & before & newIDs & rest & Hrun & Hacc & Hinit & Hlog).
  - cbn. lia.
  - vm_compute. discriminate.
  - exists r, m'. split; [exact Hrun|]. split; [exact Hacc|]. split; [exact Hinit|].
    exists before, newIDs, rest. exact Hlog.
Defined.

(** * Further statements on the small decoder and on a small layer *)

Lemma init_coordinates_witness :
  exists out,
    Comm.init 8 5 2 = Some out
    /\ Comm.world_color out = 1 /\ Comm.world_size out = 4 /\ Comm.world_rank out = 1.
Proof.
  destruct (init_coordinates 8 5 2) as (out & Hi & Hc & Hs & Hr & Heq & _);
    [lia | reflexivity | lia |].
  change (8 / 2) with 4 in *.
  exists out. split; [exact Hi|]. split; [lia|]. split; [exact Hs|lia].
Defined.

Lemma init_color_beyond_stages_witness :
  exists out, Comm.init 8 7 3 = Some out /\ 3 <= Comm.world_color out.
Proof.
  apply (init_color_beyond_stages 8 3); [lia | lia | vm_compute; discriminate].
Defined.

Lemma init_division_by_zero_witness :
  Comm.init 2 1 3 = None /\ Comm.init 2 1 0 = None.
Proof.
  split.
  - apply (init_division_by_zero 2 1 3); [lia | lia | right; lia].
  - apply (init_division_by_zero 2 1 0); [lia | lia | left; reflexivity].
Defined.

Lemma getDecoderContext_creates_once_witness :
  exists m1 m2,
    getDecoderContext demo_extern 4 demo_new demo_args
      (fresh {| getSize := 2; getRank := 1; getColor := 3 |} demo_heap [])
    = Ok (demo_new demo_args 1 2) m1
    /\ filter constructs (events_since [] m1) = [NewDecoderContext demo_args 1 2]
    /\ pp_size m1 = 4 /\ pp_rank m1 = 3 /\ tp_size m1 = 2 /\ tp_rank m1 = 1
    /\ getDecoderContext demo_extern 4 demo_new demo_args m1 = Ok (demo_new demo_args 1 2) m2
    /\ filter constructs (events_since (log m1) m2) = [].
Proof.
  destruct (getDecoderContext_creates_once demo_extern 4 demo_new demo_args
              (fresh {| getSize := 2; getRank := 1; getColor := 3 |} demo_heap []) eq_refl)
    as (m1 & m2 & H1 & _ & H2 & H3 & H4 & H5 & H6 & H7 & _ & H8).
  { repeat split. }
  exists m1, m2. repeat split; assumption.
Defined.


Lemma constructor_uneven_layers_witness :
  concat
    (map (fun r => assigned_layers
                     (CommonDecoder_new demo_extern 5 demo_new demo_config
                        (fresh {| getSize := 2; getRank := 0; getColor := r |} demo_heap [])))
       (seqZ 0 5))
  = seqZ 0 30
  /\ exists m',
       CommonDecoder_new demo_extern 5 demo_new demo_config
         (fresh {| getSize := 2; getRank := 0; getColor := 4 |} demo_heap [])
       = Ok tt m'
       /\ uneven_warning ∈ events_since [] m'
       /\ 31 ∉ decoders m'.
Proof.
  assert (HL : 0 <= num_layer demo_config <= Int.max_signed).
  { split; vm_compute; discriminate. }
  destruct (constructor_uneven_layers demo_extern 5 demo_new demo_config HL ltac:(lia)
              2 0 demo_heap []) as (Hall & Hnone & Hwarn).
  split; [exact Hall|].
  destruct (Hwarn 4 ltac:(lia)) as (m' & Hrun & Hw).
  exists m'. split; [exact Hrun|]. split.
  - apply Hw. vm_compute. discriminate.
  - specialize (Hnone 31 4). rewrite Hrun in Hnone. apply Hnone; [vm_compute; discriminate | lia].
Defined.

Lemma constructor_no_stages_witness :
  CommonDecoder_new demo_extern 0 demo_new demo_config
    (fresh {| getSize := 2; getRank := 0; getColor := 0 |} demo_heap [])
  = Trap.
Proof.
  apply (constructor_no_stages demo_extern 0 demo_new demo_config). reflexivity.
Defined.

Lemma prepareBuffers_capacity_witness :
  exists m' rows heads,
    prepareBuffers demo_extern 2 3 false false demo_sized_decoder = Ok tt m'
    /\ calls_to c_act_resize (events_since [] m') = [ActResize rows 4]
    /\ 40 + 60 <= rows * 4
    /\ calls_to c_kv_resize (events_since [] m') = [KVResize 64 6 heads 2 false]
    /\ heads = 2.
Proof.
  destruct (prepareBuffers_capacity demo_extern 2 3 false false demo_sized_decoder
              (DecoderContext_resize demo_context 2 5 0) eq_refl)
    as (m' & rows & heads & Hrun & Hact & Hrows & Hkv & Hheads);
    try (cbn; lia); try (vm_compute; discriminate);
    try (split; vm_compute; discriminate).
  exists m', rows, heads. split; [exact Hrun|]. split; [exact Hact|].
  split; [exact Hrows|]. split; [exact Hkv|]. cbn in Hheads. lia.
Defined.





Lemma constructed_layers_in_forward_witness :
  exists m1 res m2,
    CommonDecoder_new demo_extern 4 demo_new demo_config
      (fresh {| getSize := 2; getRank := 0; getColor := 1 |} demo_heap [])
    = Ok tt m1
    /\ forward demo_extern false 0 3 demo_ids (2, 3, 5) 0 false m1 = Ok res m2
    /\ length (calls_to c_forwardAttention (events_since (log m1) m2)) = 8%nat
    /\ exists input imBuf output inputSeqLen pastSeqLen useSelfAttn,
         calls_to c_forwardAttention (events_since (log m1) m2) !! 3%nat
         = Some (ForwardAttention 3 11 false input imBuf output inputSeqLen pastSeqLen
                   useSelfAttn true).
Proof.
  assert (HL : 0 <= num_layer demo_config <= Int.max_signed).
  { split; vm_compute; discriminate. }
  destruct (constructed_layers_in_forward demo_extern false 4 demo_new 0 3 demo_config
              {| getSize := 2; getRank := 0; getColor := 1 |} demo_heap [] demo_ids 2 3 5 0
              false HL)
    as (m1 & res & m2 & Hnew & Hrun & Hlen & Hith).
  - lia.
  - cbn. lia.
  - cbn. lia.
  - intros a Ha. exact Ha.
  - reflexivity.
  - exists m1, res, m2. split; [exact Hnew|]. split; [exact Hrun|]. split.
    + change (num_layer demo_config / 4) with 8 in Hlen. lia.
    + apply (Hith 3). change (num_layer demo_config / 4) with 8. lia.
Defined.

Lemma forward_writes_within_block_witness :
  exists m' rows before c_prev c_ln c_pred,
    forward demo_extern false 0 3 demo_ids (2, 3, 5) 0 false (demo_decoder 1 0 false 0)
    = Ok (act_ptr 40, 0, 3) m'
    /\ calls_to c_act_resize (events_since [] m') = [ActResize rows 4]
    /\ log m' = before ++ [c_prev; c_ln; c_pred]
    /\ act (pre c_ln) (rows * 4) = act (post c_prev) (rows * 4)
    /\ act (heap m') (-1) = act (post c_pred) (-1).
Proof.
  destruct (forward_writes_within_block demo_extern false 0 3 demo_ids 2 3 5
              (demo_decoder 1 0 false 0) demo_context (demo_ready 1 0 false 0)
              (demo_last_stage false 0))
    as (m' & rows & before & c_prev & c_ln & c_pred & Hrun & Hact & Hlog & Hout);
    try (cbn; lia); try (vm_compute; discriminate); try (split; vm_compute; discriminate).
  exists m', rows, before, c_prev, c_ln, c_pred.
  split; [exact Hrun|]. split; [exact Hact|]. split; [exact Hlog|]. split.
  - apply (Hout (rows * 4)). cbn. lia.
  - apply (Hout (-1)). lia.
Defined.

Lemma setPrefix_builds_prefix_cache_witness :
  exists m',
    setPrefix demo_extern false demo_ids 16 (demo_decoder 2 0 false 0) = Ok tt m'
    /\ prefixSharing m' = true /\ prefixSeqLen m' = 16
    /\ accSeqLen m' = 9 /\ initSeqLen m' = 7
    /\ calls_to c_embeddingForward (events_since [] m') = [EmbeddingForward demo_ids (act_ptr 0) 1 16]
    /\ calls_to c_forwardAttention (events_since [] m')
       = [ForwardAttention 0 0 true (act_ptr 0) (act_ptr 64) (tmp_ptr 0) 16 0 true true;
          ForwardAttention 1 1 true (act_ptr 0) (act_ptr 64) (tmp_ptr 0) 16 0 true true]
    /\ calls_to c_MPI_Send (events_since [] m') = [].
Proof.
  destruct (setPrefix_builds_prefix_cache demo_extern false demo_ids 16
              (demo_decoder 2 0 false 0) demo_context (demo_ready 2 0 false 0))
    as (m' & Hrun & Hs & Hn & Hacc & Hinit & _ & _ & Hemb & Hatt & _ & Hsend).
  exists m'. repeat split; assumption.
Defined.

Lemma skipFirstStep_then_steps_witness :
  exists m1 m',
    skipFirstStep 4 (demo_decoder 1 0 false 0) = Ok tt m1
    /\ session demo_extern false 0 3 demo_rest m1 = Ok tt m'
    /\ initSeqLen m' = 4 /\ accSeqLen m' = 6.
Proof.
  destruct (skipFirstStep_then_steps demo_extern false 0 3 4 demo_rest
              (demo_decoder 1 0 false 0) demo_context (demo_ready 1 0 false 0))
    as (m1 & m' & Hskip & _ & _ & Hrun & Hinit & Hacc).
  - repeat constructor.
  - repeat constructor; vm_compute; discriminate.
  - lia.
  - vm_compute. discriminate.
  - exists m1, m'. split; [exact Hskip|]. split; [exact Hrun|]. split; [exact Hinit|exact Hacc].
Defined.

Lemma prefix_sharing_switch_witness :
  exists m1 r m2 m1' r' m2',
    setPrefix demo_extern false demo_ids 16 (demo_decoder 1 0 false 0) = Ok tt m1
    /\ forward demo_extern false 0 3 demo_ids (2, 1, 20) 0 false m1 = Ok r m2
    /\ accSeqLen m2 = 20
    /\ calls_to c_forwardAttention (events_since (log m1) m2)
       = [ForwardAttention 0 0 false (act_ptr 0) (act_ptr 32) (tmp_ptr 0) 4 16 true true;
          ForwardAttention 1 1 false (act_ptr 0) (act_ptr 32) (tmp_ptr 0) 4 16 true true]
    /\ unsetPrefix m1 = Ok tt m1'
    /\ forward demo_extern false 0 3 demo_ids (2, 1, 20) 0 false m1' = Ok r' m2'
    /\ calls_to c_embeddingForward (events_since (log m1') m2')
       = [EmbeddingForward demo_ids (act_ptr 0) 2 20]
    /\ calls_to c_expandPrefixCache (events_since (log m1') m2') = [].
Proof.
  destruct (prefix_sharing_switch demo_extern false 0 3 demo_ids 16 demo_ids 2 1 20 false
              (demo_decoder 1 0 false 0) demo_context (demo_ready 1 0 false 0))
    as (m1 & r & m2 & m1' & r' & m2' & H1 & H2 & H3 & _ & H5 & H6 & _ & H8 & _ & H10 & _ & H12).
  - vm_compute. discriminate.
  - lia.
  - vm_compute. discriminate.
  - exists m1, r, m2, m1', r', m2'. repeat split; assumption.
Defined.

Lemma setDecoderWeights_frees_every_block_witness :
  Weights.frees Weights.qkvBias (Weights.steps demo_host demo_sizes) = 1%nat
  /\ Weights.frees Weights.fc3Weight (Weights.steps demo_host demo_sizes) = 1%nat
  /\ Weights.frees_valid [] (Weights.steps demo_host demo_sizes) = true.
Proof.
  destruct (setDecoderWeights_frees_every_block demo_host demo_sizes) as [Hcount Hvalid].
  - reflexivity.
  - vm_compute. reflexivity.
  - split; [|split; [|exact Hvalid]].
    + destruct (Hcount Weights.qkvBias) as [-> _]. vm_compute. reflexivity.
    + destruct (Hcount Weights.fc3Weight) as [-> _]. vm_compute. reflexivity.
Defined.

Lemma setDecoderWeights_partial_file_exits_witness :
  Weights.exit_code demo_cut_host demo_sizes = Some (-1)
  /\ last (Weights.steps demo_cut_host demo_sizes) = Some (Weights.Print "read LN1 beta error")
  /\ Weights.params_of (Weights.steps demo_cut_host demo_sizes) = None.
Proof.
  apply (setDecoderWeights_partial_file_exits demo_cut_host demo_sizes
           Weights.input_layernorm_bias Weights.ln1Beta 8 "read LN1 beta error" 9).
  vm_compute. reflexivity.
Defined.

Lemma setDecoderWeights_parameters_witness :
  Weights.exit_code demo_host demo_sizes = None
  /\ exists ps,
       Weights.params_of (Weights.steps demo_host demo_sizes) = Some ps
       /\ length ps = 17%nat
       /\ ps !! 1%nat = Some Weights.null
       /\ ps !! 7%nat = Some (Weights.FPtr (Some Weights.attnOutBias) 0)
       /\ ps !! 16%nat = Some (Weights.FPtr (Some Weights.fc3Weight) 0).
Proof.
  destruct (setDecoderWeights_parameters demo_host demo_sizes)
    as (Hret & ps & Hps & Hlen & Hopt & Hfc3).
  - reflexivity.
  - vm_compute. reflexivity.
  - split; [exact Hret|]. exists ps. split; [exact Hps|]. split; [exact Hlen|].
    split; [|split; [|exact Hfc3]].
    + apply (Hopt Weights.qkv_bias Weights.qkvBias 16 "read QKV bias error"%string 1%nat).
      vm_compute. tauto.
    + apply (Hopt Weights.attn_dense_bias Weights.attnOutBias 8
               "read attn dense bias error"%string 7%nat).
      vm_compute. tauto.
Defined.

Lemma setDecoderWeights_absent_qkv_bias_witness :
  exists ps,
    Weights.params_of (Weights.steps demo_host demo_sizes) = Some ps
    /\ ps !! 1%nat = Some Weights.null
    /\ ps !! 3%nat = Some (Weights.FPtr None 8)
    /\ ps !! 5%nat = Some (Weights.FPtr None 12).
Proof.
  apply (setDecoderWeights_absent_qkv_bias demo_host demo_sizes).
  - reflexivity.
  - reflexivity.
  - vm_compute. reflexivity.
Defined.

Lemma setDecoderWeights_parameters_held_witness :
  exists pre ps,
    Weights.upto_setWeights (Weights.steps demo_host demo_sizes) = Some (pre, ps)
    /\ Weights.allocations Weights.fc1Weight pre = 1%nat
    /\ Weights.frees Weights.fc1Weight pre = 0%nat
    /\ Weights.frees Weights.qkvBias pre = 1%nat.
Proof.
  destruct (setDecoderWeights_parameters_held demo_host demo_sizes)
    as (pre & ps & Hup & Hheld).
  - reflexivity.
  - vm_compute. reflexivity.
  - exists pre, ps. split; [exact Hup|].
    assert (Hin : In (Weights.FPtr (Some Weights.fc1Weight) 0) ps).
    { vm_compute in Hup. injection Hup as _ <-. cbn. tauto. }
    destruct (Hheld _ Weights.fc1Weight Hin eq_refl) as [Ha Hf].
    split; [exact Ha|]. split; [exact Hf|].
    vm_compute in Hup. injection Hup as <- _. vm_compute. reflexivity.
Defined.

Lemma demo_weights_fit : Mlp.weights_fit false demo_gate demo_up (replicate 8 0).
Proof. unfold Mlp.weights_fit. cbn. repeat split; try lia; discriminate. Defined.

Lemma demo_vectors_fit :
  Mlp.vectors_fit (demo_vector 10) (demo_vector 11) (demo_vector 12) (demo_vector 20)
    (demo_vector 21) (demo_vector 22) [0; 0] [0; 0] [0; 0].
Proof. unfold Mlp.vectors_fit. cbn. repeat split; try lia; discriminate. Defined.

Lemma catGateUpWeights_rows_witness :
  exists cat s z u,
    Mlp.catGateUpWeights false demo_gate demo_up (demo_vector 10) (demo_vector 11)
      (demo_vector 12) (demo_vector 20) (demo_vector 21) (demo_vector 22)
      (replicate 8 0) [0; 0] [0; 0] [0; 0]
    = Some (cat, s, z, u)
    /\ Mlp.Rows cat = 2 /\ Mlp.Cols cat = 4
    /\ Mlp.Data cat !! 5%nat = Some 4
    /\ Mlp.Data cat !! 6%nat = Some 7.
Proof.
  destruct (catGateUpWeights_rows false demo_gate demo_up (demo_vector 10) (demo_vector 11)
              (demo_vector 12) (demo_vector 20) (demo_vector 21) (demo_vector 22)
              (replicate 8 0) [0; 0] [0; 0] [0; 0] demo_weights_fit demo_vectors_fit)
    as (cat & s & z & u & Hrun & HR & HC & Hrows).
  exists cat, s, z, u. split; [exact Hrun|]. split; [exact HR|]. split; [exact HC|].
  split.
  - destruct (Hrows 1 1) as [Hg _]; [cbn; lia | cbn; lia |]. exact Hg.
  - destruct (Hrows 1 0) as [_ Hu]; [cbn; lia | cbn; lia |]. exact Hu.
Defined.

Lemma catGateUpWeights_vectors_witness :
  exists cat s z u,
    Mlp.catGateUpWeights false demo_gate demo_up (demo_vector 10) (demo_vector 11)
      (demo_vector 12) (demo_vector 20) (demo_vector 21) (demo_vector 22)
      (replicate 8 0) [0; 0] [0; 0] [0; 0]
    = Some (cat, s, z, u)
    /\ Mlp.Size s = 2 /\ take 2 (Mlp.VData s) = [10; 20]
    /\ take 2 (Mlp.VData z) = [11; 21].
Proof.
  destruct (catGateUpWeights_vectors false demo_gate demo_up (demo_vector 10) (demo_vector 11)
              (demo_vector 12) (demo_vector 20) (demo_vector 21) (demo_vector 22)
              (replicate 8 0) [0; 0] [0; 0] [0; 0] demo_weights_fit demo_vectors_fit)
    as (cat & s & z & u & Hrun & Hs & Hsd & _ & _ & _ & Hz & _).
  exists cat, s, z, u. split; [exact Hrun|]. split; [exact Hs|].
  split; [rewrite Hs in Hsd; exact Hsd | exact Hz].
Defined.

Lemma init_shm_compares_first_row_witness :
  exists out v,
    Comm.init 8 5 2 = Some out
    /\ Shm.init 128 demo_hostname 8 5 2 = Some v
    /\ v = 0
    /\ Comm.row_comm out = [4; 5; 6; 7]
    /\ 2 ∉ Comm.row_comm out.
Proof.
  destruct (init_shm_compares_first_row 128 demo_hostname 8 5 2)
    as (out & v & Hinit & Hshm & Hv & Hiff & Hrow); [lia | lia | lia | lia |].
  exists out, v. split; [exact Hinit|]. split; [exact Hshm|].
  vm_compute in Hinit. injection Hinit as <-.
  cbn [Comm.world_size Comm.world_color Comm.row_comm] in *.
  split; [|split; [reflexivity|]].
  - destruct Hv as [Hv | Hv]; [|exact Hv].
    pose proof (proj1 Hiff Hv 1 ltac:(lia)) as Hsame. discriminate Hsame.
  - apply Hrow; lia.
Defined.
